(** * epaper-image-convert: a shallow embedding of the pixel pipeline

    The JavaScript sources embedded here are [palettes.js] (palette
    validation and the palette registry), [presets.js] (processing
    parameters and the preset registry), [processor.js] (colour conversion,
    tone adjustment, palette matching, error-diffusion dithering, the BMP
    encoder, EXIF orientation, thumbnails and the [processImage] entry
    point) and the dimension option of [cli.js].

    JavaScript numbers are IEEE-754 binary64 values; they are modelled by
    Rocq's primitive floats, whose arithmetic and comparisons are the same
    IEEE operations.  [Math.pow] is the one numeric built-in whose result is
    left to the engine; every definition that reaches it takes it as a
    parameter.  So are the operations of the canvas: what [drawImage]
    paints, and what a canvas reads back of the pixels put on it, are the
    platform's.  Typed-array elements (the bytes of an [ImageData] or of a
    [Buffer]) and integral palette channels are modelled in [Z]. *)

From Stdlib Require Import ZArith Floats Lia ZifyNat.
From Stdlib Require DecimalString DecimalNat.
From stdpp Require Import base option list strings gmap.

Set Warnings "-inexact-float,-register-all".

(** ** JavaScript numbers and built-ins *)

Module JS.

Local Open Scope float_scope.

(** What a [throw] carries: [new Error(message)], or one of the engine's own
    errors. *)
Inductive exn : Type :=
| Error (message : string)
| TypeError
| RangeError.

Inductive result (A : Type) : Type :=
| Ok (a : A)
| Throw (e : exn).

Arguments Ok {A} a.
Arguments Throw {A} e.

#[global] Instance result_ret : MRet result := fun _ a => Ok a.
#[global] Instance result_bind : MBind result :=
  fun _ _ f m => match m with Ok a => f a | Throw e => Throw e end.

(** The number value of an integer (exact below 2^53). *)
Definition Z2F (z : Z) : float :=
  match z with
  | Z0 => 0
  | Zpos _ => of_uint63 (Uint63.of_Z z)
  | Zneg p => - of_uint63 (Uint63.of_Z (Zpos p))
  end.

Definition N2F (n : nat) : float := Z2F (Z.of_nat n).

(** [ToBoolean] on a number: [0], [-0] and [NaN] are falsy. *)
Definition truthy (x : float) : bool := negb (is_nan x || (x =? 0)).

(** An absent ([undefined]) numeric property read as a number. *)
Definition toNumber (x : option float) : float := default nan x.

Definition signedMantissa (s : bool) (m : positive) : Z :=
  if s then Zneg m else Zpos m.

(** [Math.round]: the nearest integer, ties towards +infinity. *)
Definition Math_round (x : float) : float :=
  match Prim2SF x with
  | S754_finite s m e =>
      if (0 <=? e)%Z then x
      else
        let n := Z.shiftr (2 * signedMantissa s m + 2 ^ (- e)) (1 - e) in
        if (n =? 0)%Z then (if s then -0 else 0) else Z2F n
  | _ => x
  end.

Definition Math_floor (x : float) : float :=
  match Prim2SF x with
  | S754_finite s m e =>
      if (0 <=? e)%Z then x else Z2F (Z.shiftr (signedMantissa s m) (- e))
  | _ => x
  end.

Definition Math_max (a b : float) : float :=
  if is_nan a || is_nan b then nan
  else if a <? b then b
  else if b <? a then a
  else if get_sign a then b else a.

Definition Math_min (a b : float) : float :=
  if is_nan a || is_nan b then nan
  else if a <? b then a
  else if b <? a then b
  else if get_sign a then a else b.

Definition Math_abs (x : float) : float := abs x.
Definition Math_sqrt (x : float) : float := sqrt x.

(** The [%] operator on numbers (the remainder has the dividend's sign and
    is always representable). *)
Definition rem (x y : float) : float :=
  match Prim2SF x, Prim2SF y with
  | S754_nan, _ | _, S754_nan => nan
  | S754_infinity _, _ => nan
  | _, S754_zero _ => nan
  | S754_zero _, _ => x
  | _, S754_infinity _ => x
  | S754_finite sx mx ex, S754_finite _ my ey =>
      let e := Z.min ex ey in
      let R := ((Zpos mx * 2 ^ (ex - e)) mod (Zpos my * 2 ^ (ey - e)))%Z in
      if (R =? 0)%Z then (if sx then -0 else 0)
      else Z.ldexp (Z2F (if sx then - R else R)%Z) e
  end.

(** The conversion applied by a store into a [Uint8ClampedArray]
    ([ToUint8Clamp]): NaN becomes 0, the value is clamped to 0..255 and
    rounded to the nearest integer, ties to even. *)
Definition ToUint8Clamp (x : float) : Z :=
  if is_nan x then 0%Z
  else if x <=? 0 then 0%Z
  else if 255 <=? x then 255%Z
  else
    match Prim2SF x with
    | S754_finite _ m e =>
        if (0 <=? e)%Z then (Zpos m * 2 ^ e)%Z
        else
          let d := (2 ^ (- e))%Z in
          let f := (Zpos m / d)%Z in
          match (2 * (Zpos m mod d) ?= d)%Z with
          | Lt => f
          | Gt => (f + 1)%Z
          | Eq => if Z.even f then f else (f + 1)%Z
          end
    | _ => 0%Z
    end.

(** The same store when the value is already an integer. *)
Definition clampByte (z : Z) : Z := Z.max 0 (Z.min 255 z).

(** Reading element [i] of a [Uint8ClampedArray]: out of range reads give
    [undefined], which arithmetic turns into NaN. *)
Definition readU8 (data : list Z) (i : nat) : float :=
  match data !! i with
  | Some v => Z2F v
  | None => nan
  end.

(** Writing element [i]: the value is converted; an out-of-range write is
    ignored. *)
Definition writeU8 (data : list Z) (i : nat) (v : float) : list Z :=
  <[i := ToUint8Clamp v]> data.

End JS.

(** ** palettes.js *)

Module Palettes.

Import JS.
Local Open Scope string_scope.

(** The JavaScript values a palette description is made of (what
    [JSON.parse] can return, and what a caller of [validatePalette] can
    pass). *)
Inductive jsval : Type :=
| JUndefined
| JNull
| JBool (b : bool)
| JNum (f : float)
| JStr (s : string)
| JArr (elems : list jsval)
| JObj (props : gmap string jsval).

Definition typeof (v : jsval) : string :=
  match v with
  | JUndefined => "undefined"
  | JNull => "object"
  | JBool _ => "boolean"
  | JNum _ => "number"
  | JStr _ => "string"
  | JArr _ => "object"
  | JObj _ => "object"
  end.

(** [ToBoolean]. *)
Definition truthy (v : jsval) : bool :=
  match v with
  | JUndefined => false
  | JNull => false
  | JBool b => b
  | JNum f => JS.truthy f
  | JStr s => negb (String.eqb s "")
  | JArr _ => true
  | JObj _ => true
  end.

(** Property read [v[key]] for the keys read by the validator (none of
    them is a property of a primitive wrapper or of an array): reading a
    property of [undefined] or [null] throws. *)
Definition getProp (v : jsval) (key : string) : result jsval :=
  match v with
  | JUndefined => Throw TypeError
  | JNull => Throw TypeError
  | JObj props => Ok (default JUndefined (props !! key))
  | _ => Ok JUndefined
  end.

(** [typeof v !== "number"]. *)
Definition notNumber (v : jsval) : bool :=
  negb (String.eqb (typeof v) "number").

(** [v < c] and [v > c] for a [v] already known to be a number. *)
Definition ltNum (v : jsval) (c : float) : bool :=
  match v with
  | JNum f => PrimFloat.ltb f c
  | _ => false
  end.

Definition gtNum (v : jsval) (c : float) : bool :=
  match v with
  | JNum f => PrimFloat.ltb c f
  | _ => false
  end.

Definition requiredColors : list string :=
  ["black"; "white"; "yellow"; "red"; "blue"; "green"].

(** One iteration of the loop of [validateSinglePalette]. *)
Definition validateColor (palette : jsval) (name color : string) : result unit :=
  c ← getProp palette color;
  if negb (truthy c) then
    Throw (Error ("Missing required color in " ++ name ++ " palette: " ++ color))
  else
    r ← getProp c "r";
    g ← getProp c "g";
    b ← getProp c "b";
    if notNumber r || notNumber g || notNumber b then
      Throw (Error ("Invalid RGB values for " ++ name ++ "." ++ color))
    else if ltNum r 0 || gtNum r 255 || ltNum g 0 || gtNum g 255
            || ltNum b 0 || gtNum b 255 then
      Throw (Error ("RGB values must be 0-255 for " ++ name ++ "." ++ color))
    else Ok tt.

(** [for (const color of colors) body]: stops at the first throw. *)
Fixpoint forEachColor (body : string → result unit) (colors : list string)
  : result unit :=
  match colors with
  | [] => Ok tt
  | color :: rest => _ ← body color; forEachColor body rest
  end.

Definition validateSinglePalette (palette : jsval) (name : string) : result unit :=
  if negb (truthy palette) || negb (String.eqb (typeof palette) "object") then
    Throw (Error (name ++ " palette must be an object"))
  else forEachColor (validateColor palette name) requiredColors.

Definition validatePalette (palettePair : jsval) : result bool :=
  if negb (truthy palettePair) || negb (String.eqb (typeof palettePair) "object")
  then Throw (Error "Palette must be an object")
  else
    t ← getProp palettePair "theoretical";
    if negb (truthy t) then
      Throw (Error "Palette must have a 'theoretical' property")
    else
      p ← getProp palettePair "perceived";
      if negb (truthy p) then
        Throw (Error "Palette must have a 'perceived' property")
      else
        _ ← validateSinglePalette t "theoretical";
        _ ← validateSinglePalette p "perceived";
        Ok true.

(** [parsePalette]: [JSON.parse] is the engine's. *)
Definition parsePalette (JSON_parse : string → result jsval) (jsonString : string)
  : result jsval :=
  palettePair ← JSON_parse jsonString;
  _ ← validatePalette palettePair;
  Ok palettePair.

(** Palettes as the processor reads them: six colour roles, each with
    integral channels. *)
Record Color : Type := { r : Z; g : Z; b : Z }.

Record Palette : Type := {
  black : Color; white : Color; yellow : Color;
  red : Color; blue : Color; green : Color
}.

Record PalettePair : Type := { theoretical : Palette; perceived : Palette }.

Definition SPECTRA6 : PalettePair := {|
  theoretical := {|
    black := {| r := 0; g := 0; b := 0 |};
    white := {| r := 255; g := 255; b := 255 |};
    yellow := {| r := 255; g := 255; b := 0 |};
    red := {| r := 255; g := 0; b := 0 |};
    blue := {| r := 0; g := 0; b := 255 |};
    green := {| r := 0; g := 255; b := 0 |} |};
  perceived := {|
    black := {| r := 2; g := 2; b := 2 |};
    white := {| r := 190; g := 200; b := 200 |};
    yellow := {| r := 205; g := 202; b := 0 |};
    red := {| r := 135; g := 19; b := 0 |};
    blue := {| r := 5; g := 64; b := 158 |};
    green := {| r := 39; g := 102; b := 60 |} |}
|}.

(** The same palettes as JavaScript object literals. *)
Definition colorValue (c : Color) : jsval :=
  JObj (<["r" := JNum (Z2F (r c))]>
        (<["g" := JNum (Z2F (g c))]>
         (<["b" := JNum (Z2F (b c))]> ∅))).

Definition paletteValue (p : Palette) : jsval :=
  JObj (<["black" := colorValue (black p)]>
        (<["white" := colorValue (white p)]>
         (<["yellow" := colorValue (yellow p)]>
          (<["red" := colorValue (red p)]>
           (<["blue" := colorValue (blue p)]>
            (<["green" := colorValue (green p)]> ∅)))))).

Definition pairValue (pp : PalettePair) : jsval :=
  JObj (<["theoretical" := paletteValue (theoretical pp)]>
        (<["perceived" := paletteValue (perceived pp)]> ∅)).

(** The invariant of the data model: every channel is a byte. *)
Definition validColor (c : Color) : Prop :=
  (0 ≤ r c ≤ 255)%Z ∧ (0 ≤ g c ≤ 255)%Z ∧ (0 ≤ b c ≤ 255)%Z.

Definition validPaletteColors (p : Palette) : Prop :=
  validColor (black p) ∧ validColor (white p) ∧ validColor (yellow p) ∧
  validColor (red p) ∧ validColor (blue p) ∧ validColor (green p).

End Palettes.

(** ** presets.js *)

Module Presets.

Local Open Scope string_scope.
Local Open Scope float_scope.

(** A field that a caller may leave out is an [option] ([None] is
    [undefined]). *)
Record ProcessingParams : Type := {
  exposure : option float;
  saturation : option float;
  toneMode : option string;
  contrast : option float;
  strength : option float;
  shadowBoost : option float;
  highlightCompress : option float;
  midpoint : option float;
  colorMethod : option string;
  ditherAlgorithm : option string;
  compressDynamicRange : option bool
}.

Definition getDefaultParams : ProcessingParams := {|
  exposure := Some 1.0;
  saturation := Some 1.0;
  toneMode := Some "contrast";
  contrast := Some 1.0;
  strength := Some 0.9;
  shadowBoost := Some 0.0;
  highlightCompress := Some 1.5;
  midpoint := Some 0.5;
  colorMethod := Some "rgb";
  ditherAlgorithm := Some "floyd-steinberg";
  compressDynamicRange := Some true
|}.

End Presets.

(** ** processor.js *)

Module Processor.

Import JS Palettes Presets.
Local Open Scope string_scope.
Local Open Scope float_scope.

Definition DEFAULT_DISPLAY_WIDTH : nat := 800.
Definition DEFAULT_DISPLAY_HEIGHT : nat := 480.

(** An [ImageData]: [data] holds four bytes (R, G, B, A) per pixel, row by
    row. *)
Record ImageData : Type := { width : nat; height : nat; data : list Z }.

(** The same image object after its [data] was mutated in place. *)
Definition withData (imageData : ImageData) (d : list Z) : ImageData :=
  {| width := width imageData; height := height imageData; data := d |}.

(** What the canvas API guarantees of an [ImageData]. *)
Definition wfImage (imageData : ImageData) : Prop :=
  length (data imageData) = (4 * (width imageData * height imageData))%nat.

(** A palette array entry [[r, g, b]], and a CIE L*a*b* triple. *)
Abbreviation Triple := (Z * Z * Z)%type.
Abbreviation Lab := (float * float * float)%type.
(** A diffusion matrix: [[dx, dy, weight]] entries. *)
Abbreviation Kernel := (list (Z * Z * float)).
(** The state of the dithering pass: the image bytes and the error
    accumulator. *)
Abbreviation DitherState := (list Z * list float)%type.

Definition paletteToArray (palette : Palette) : list Triple :=
  [ (r (black palette), g (black palette), b (black palette));
    (r (white palette), g (white palette), b (white palette));
    (r (yellow palette), g (yellow palette), b (yellow palette));
    (r (red palette), g (red palette), b (red palette));
    (0, 0, 0)%Z;
    (r (blue palette), g (blue palette), b (blue palette));
    (r (green palette), g (green palette), b (green palette)) ].

(** The offsets [i = 0, 4, 8, ...] below [data.length] visited by
    [for (let i = 0; i < data.length; i += 4)]. *)
Definition pixelOffsets (d : list Z) : list nat :=
  (λ k, 4 * k)%nat <$> seq 0 ((length d + 3) / 4).

(** Everything from here to the end of the section reaches [Math.pow]. *)

Section Engine.

Variable Math_pow : float → float → float.

(** *** Colour space conversion *)

Definition rgbToXyz (r g b : float) : float * float * float :=
  let r := r / 255 in
  let g := g / 255 in
  let b := b / 255 in
  let r := if 0.04045 <? r then Math_pow ((r + 0.055) / 1.055) 2.4 else r / 12.92 in
  let g := if 0.04045 <? g then Math_pow ((g + 0.055) / 1.055) 2.4 else g / 12.92 in
  let b := if 0.04045 <? b then Math_pow ((b + 0.055) / 1.055) 2.4 else b / 12.92 in
  let x := r * 0.4124564 + g * 0.3575761 + b * 0.1804375 in
  let y := r * 0.2126729 + g * 0.7151522 + b * 0.072175 in
  let z := r * 0.0193339 + g * 0.119192 + b * 0.9503041 in
  (x * 100, y * 100, z * 100).

Definition xyzToLab (x y z : float) : Lab :=
  let x := x / 95.047 in
  let y := y / 100.0 in
  let z := z / 108.883 in
  let x := if 0.008856 <? x then Math_pow x (1 / 3) else 7.787 * x + 16 / 116 in
  let y := if 0.008856 <? y then Math_pow y (1 / 3) else 7.787 * y + 16 / 116 in
  let z := if 0.008856 <? z then Math_pow z (1 / 3) else 7.787 * z + 16 / 116 in
  let L := 116 * y - 16 in
  let a := 500 * (x - y) in
  let bVal := 200 * (y - z) in
  (L, a, bVal).

Definition rgbToLab (r g b : float) : Lab :=
  let '(x, y, z) := rgbToXyz r g b in
  xyzToLab x y z.

Definition labToXyz (L a b : float) : float * float * float :=
  let y := (L + 16) / 116 in
  let x := a / 500 + y in
  let z := y - b / 200 in
  let x := if 0.206897 <? x then Math_pow x 3 else (x - 16 / 116) / 7.787 in
  let y := if 0.206897 <? y then Math_pow y 3 else (y - 16 / 116) / 7.787 in
  let z := if 0.206897 <? z then Math_pow z 3 else (z - 16 / 116) / 7.787 in
  (x * 95.047, y * 100.0, z * 108.883).

Definition xyzToRgb (x y z : float) : float * float * float :=
  let x := x / 100 in
  let y := y / 100 in
  let z := z / 100 in
  let r := x * 3.2404542 + y * -1.5371385 + z * -0.4985314 in
  let g := x * -0.969266 + y * 1.8760108 + z * 0.041556 in
  let b := x * 0.0556434 + y * -0.2040259 + z * 1.0572252 in
  let r := if 0.0031308 <? r then 1.055 * Math_pow r (1 / 2.4) - 0.055 else 12.92 * r in
  let g := if 0.0031308 <? g then 1.055 * Math_pow g (1 / 2.4) - 0.055 else 12.92 * g in
  let b := if 0.0031308 <? b then 1.055 * Math_pow b (1 / 2.4) - 0.055 else 12.92 * b in
  (Math_max 0 (Math_min 255 (Math_round (r * 255))),
   Math_max 0 (Math_min 255 (Math_round (g * 255))),
   Math_max 0 (Math_min 255 (Math_round (b * 255)))).

Definition labToRgb (L a b : float) : float * float * float :=
  let '(x, y, z) := labToXyz L a b in
  xyzToRgb x y z.

Definition deltaE (lab1 lab2 : Lab) : float :=
  let '(L1, a1, b1) := lab1 in
  let '(L2, a2, b2) := lab2 in
  let dL := L1 - L2 in
  let da := a1 - a2 in
  let db := b1 - b2 in
  Math_sqrt (dL * dL + da * da + db * db).

(** *** Image adjustment *)

Definition exposeChannel (exposure : float) (d : list Z) (i : nat) : list Z :=
  writeU8 d i (Math_min 255 (Math_round (readU8 d i * exposure))).

Definition applyExposure (imageData : ImageData) (exposure : float) : ImageData :=
  if exposure =? 1.0 then imageData
  else
    withData imageData
      (fold_left
         (λ d i,
            let d := exposeChannel exposure d i in
            let d := exposeChannel exposure d (i + 1) in
            exposeChannel exposure d (i + 2))
         (pixelOffsets (data imageData)) (data imageData)).

Definition contrastChannel (factor : float) (d : list Z) (i : nat) : list Z :=
  writeU8 d i
    (Math_max 0 (Math_min 255 (Math_round ((readU8 d i - 128) * factor + 128)))).

Definition applyContrast (imageData : ImageData) (contrast : float) : ImageData :=
  if contrast =? 1.0 then imageData
  else
    let factor := contrast in
    withData imageData
      (fold_left
         (λ d i,
            let d := contrastChannel factor d i in
            let d := contrastChannel factor d (i + 1) in
            contrastChannel factor d (i + 2))
         (pixelOffsets (data imageData)) (data imageData)).

(** The body of the loop of [applySaturation] for the pixel at offset [i]. *)
Definition saturatePixel (saturation : float) (d : list Z) (i : nat) : list Z :=
  let r := readU8 d i in
  let g := readU8 d (i + 1) in
  let b := readU8 d (i + 2) in
  let max := Math_max (Math_max r g) b / 255 in
  let min := Math_min (Math_min r g) b / 255 in
  let l := (max + min) / 2 in
  if max =? min then d
  else
    let dd := max - min in
    let s := if 0.5 <? l then dd / (2 - max - min) else dd / (max + min) in
    let h :=
      if max =? r / 255 then
        ((g / 255 - b / 255) / dd + (if g <? b then 6 else 0)) / 6
      else if max =? g / 255 then ((b / 255 - r / 255) / dd + 2) / 6
      else ((r / 255 - g / 255) / dd + 4) / 6 in
    let newS := Math_max 0 (Math_min 1 (s * saturation)) in
    let c := (1 - Math_abs (2 * l - 1)) * newS in
    let x := c * (1 - Math_abs (rem (h * 6) 2 - 1)) in
    let m := l - c / 2 in
    let hSector := Math_floor (h * 6) in
    let '(rPrime, gPrime, bPrime) :=
      if hSector =? 0 then (c, x, 0)
      else if hSector =? 1 then (x, c, 0)
      else if hSector =? 2 then (0, c, x)
      else if hSector =? 3 then (0, x, c)
      else if hSector =? 4 then (x, 0, c)
      else (c, 0, x) in
    let d := writeU8 d i (Math_round ((rPrime + m) * 255)) in
    let d := writeU8 d (i + 1) (Math_round ((gPrime + m) * 255)) in
    writeU8 d (i + 2) (Math_round ((bPrime + m) * 255)).

Definition applySaturation (imageData : ImageData) (saturation : float) : ImageData :=
  if saturation =? 1.0 then imageData
  else
    withData imageData
      (fold_left (saturatePixel saturation)
         (pixelOffsets (data imageData)) (data imageData)).

Definition scurveChannel (strength shadowBoost highlightCompress midpoint : float)
    (d : list Z) (i : nat) : list Z :=
  let normalized := readU8 d i / 255.0 in
  let result :=
    if normalized <=? midpoint then
      let shadowVal := normalized / midpoint in
      Math_pow shadowVal (1.0 - strength * shadowBoost) * midpoint
    else
      let highlightVal := (normalized - midpoint) / (1.0 - midpoint) in
      midpoint
      + Math_pow highlightVal (1.0 + strength * highlightCompress)
        * (1.0 - midpoint) in
  writeU8 d i (Math_round (Math_max 0 (Math_min 1 result) * 255)).

Definition applyScurveTonemap (imageData : ImageData)
    (strength shadowBoost highlightCompress midpoint : float) : ImageData :=
  if strength =? 0 then imageData
  else
    withData imageData
      (fold_left
         (λ d i,
            fold_left
              (λ d c,
                 scurveChannel strength shadowBoost highlightCompress midpoint
                   d (i + c))
              (seq 0 3) d)
         (pixelOffsets (data imageData)) (data imageData)).

(** *** Colour matching *)

(** The loop shared by the two searches: [dist i] is the distance computed
    for slot [i]; the state is [(minDist, closest)]. *)
Definition closestStep (dist : nat → float) (st : float * nat) (i : nat)
  : float * nat :=
  if (i =? 4)%nat then st
  else if dist i <? fst st then (dist i, i) else st.

Definition closestLoop (dist : nat → float) (len : nat) : float * nat :=
  fold_left (closestStep dist) (seq 0 len) (infinity, 1%nat).

Definition distRGB (r g b : float) (paletteArray : list Triple) (i : nat) : float :=
  let '(pr, pg, pb) := default (0, 0, 0)%Z (paletteArray !! i) in
  let dr := r - Z2F pr in
  let dg := g - Z2F pg in
  let db := b - Z2F pb in
  dr * dr + dg * dg + db * db.

Definition findClosestColorRGB (r g b : float) (paletteArray : list Triple) : nat :=
  snd (closestLoop (distRGB r g b paletteArray) (length paletteArray)).

(** [paletteLab[i]] is read for every [i] below [paletteArray.length];
    [applyErrorDiffusionDither] passes arrays of the same length. *)
Definition distLAB (inputLab : Lab) (paletteLab : list Lab) (i : nat) : float :=
  deltaE inputLab (default (nan, nan, nan) (paletteLab !! i)).

Definition findClosestColorLAB (r g b : float) (paletteArray : list Triple)
    (paletteLab : list Lab) : nat :=
  let inputLab := rgbToLab r g b in
  snd (closestLoop (distLAB inputLab paletteLab) (length paletteArray)).

Definition findClosestColor (r g b : float) (method : string)
    (paletteArray : list Triple) (paletteLab : list Lab) : nat :=
  if String.eqb method "lab" then findClosestColorLAB r g b paletteArray paletteLab
  else findClosestColorRGB r g b paletteArray.

(** *** Dithering *)


Definition floydSteinberg : Kernel :=
  [ (1%Z, 0%Z, 7 / 16); ((-1)%Z, 1%Z, 3 / 16); (0%Z, 1%Z, 5 / 16);
    (1%Z, 1%Z, 1 / 16) ].

Definition stucki : Kernel :=
  [ (1%Z, 0%Z, 8 / 42); (2%Z, 0%Z, 4 / 42);
    ((-2)%Z, 1%Z, 2 / 42); ((-1)%Z, 1%Z, 4 / 42); (0%Z, 1%Z, 8 / 42);
    (1%Z, 1%Z, 4 / 42); (2%Z, 1%Z, 2 / 42);
    ((-2)%Z, 2%Z, 1 / 42); ((-1)%Z, 2%Z, 2 / 42); (0%Z, 2%Z, 4 / 42);
    (1%Z, 2%Z, 2 / 42); (2%Z, 2%Z, 1 / 42) ].

Definition burkes : Kernel :=
  [ (1%Z, 0%Z, 8 / 32); (2%Z, 0%Z, 4 / 32);
    ((-2)%Z, 1%Z, 2 / 32); ((-1)%Z, 1%Z, 4 / 32); (0%Z, 1%Z, 8 / 32);
    (1%Z, 1%Z, 4 / 32); (2%Z, 1%Z, 2 / 32) ].

Definition sierra : Kernel :=
  [ (1%Z, 0%Z, 5 / 32); (2%Z, 0%Z, 3 / 32);
    ((-2)%Z, 1%Z, 2 / 32); ((-1)%Z, 1%Z, 4 / 32); (0%Z, 1%Z, 5 / 32);
    (1%Z, 1%Z, 4 / 32); (2%Z, 1%Z, 2 / 32);
    ((-1)%Z, 2%Z, 2 / 32); (0%Z, 2%Z, 3 / 32); (1%Z, 2%Z, 2 / 32) ].

(** The object literal [DIFFUSION_MATRICES], as a map from its own keys
    (a name inherited from [Object.prototype] is no algorithm name: the
    loop over its value throws, and the pass does not complete). *)
Definition DIFFUSION_MATRICES : gmap string Kernel :=
  <["floyd-steinberg" := floydSteinberg]>
    (<["stucki" := stucki]> (<["burkes" := burkes]> (<["sierra" := sierra]> ∅))).

(** [DIFFUSION_MATRICES[algorithm] || DIFFUSION_MATRICES["floyd-steinberg"]] *)
Definition diffusionMatrixOf (algorithm : string) : Kernel :=
  default floydSteinberg (DIFFUSION_MATRICES !! algorithm).

(** [errors[i] += v] for an index inside the array. *)
Definition addError (errors : list float) (i : nat) (v : float) : list float :=
  alter (λ e, e + v) i errors.


(** The working colour of the pixel at column [x] of row [y]. *)
Definition workingColor (w : nat) (st : DitherState) (y x : nat)
  : float * float * float :=
  let idx := ((y * w + x) * 4)%nat in
  let errIdx := ((y * w + x) * 3)%nat in
  let err k := default nan (snd st !! k) in
  (Math_max 0 (Math_min 255 (readU8 (fst st) idx + err errIdx)),
   Math_max 0 (Math_min 255 (readU8 (fst st) (idx + 1) + err (errIdx + 1)%nat)),
   Math_max 0 (Math_min 255 (readU8 (fst st) (idx + 2) + err (errIdx + 2)%nat))).

(** The inner loop over the diffusion matrix. *)
Definition diffuse (w h : nat) (diffusionMatrix : Kernel) (y x : nat)
    (errR errG errB : float) (errors : list float) : list float :=
  fold_left
    (λ errors '(dx, dy, weight),
       let nx := (Z.of_nat x + dx)%Z in
       let ny := (Z.of_nat y + dy)%Z in
       if ((0 <=? nx) && (nx <? Z.of_nat w) && (0 <=? ny) && (ny <? Z.of_nat h))%Z
       then
         let nextIdx := Z.to_nat ((ny * Z.of_nat w + nx) * 3) in
         let errors := addError errors nextIdx (errR * weight) in
         let errors := addError errors (nextIdx + 1) (errG * weight) in
         addError errors (nextIdx + 2) (errB * weight)
       else errors)
    diffusionMatrix errors.

(** The body of the two nested loops of [applyErrorDiffusionDither]. *)
Definition ditherPixel (w h : nat) (method : string)
    (outputPaletteArray ditherPaletteArray : list Triple)
    (ditherPaletteLab : list Lab) (diffusionMatrix : Kernel)
    (st : DitherState) (y x : nat) : DitherState :=
  let idx := ((y * w + x) * 4)%nat in
  let '(oldR, oldG, oldB) := workingColor w st y x in
  let colorIdx :=
    findClosestColor oldR oldG oldB method ditherPaletteArray ditherPaletteLab in
  let '(newR, newG, newB) := default (0, 0, 0)%Z (outputPaletteArray !! colorIdx) in
  let d := <[idx := clampByte newR]> (fst st) in
  let d := <[(idx + 1)%nat := clampByte newG]> d in
  let d := <[(idx + 2)%nat := clampByte newB]> d in
  let '(ditherR, ditherG, ditherB) :=
    default (0, 0, 0)%Z (ditherPaletteArray !! colorIdx) in
  let errR := oldR - Z2F ditherR in
  let errG := oldG - Z2F ditherG in
  let errB := oldB - Z2F ditherB in
  (d, diffuse w h diffusionMatrix y x errR errG errB (snd st)).

(** Pre-compute LAB values for the dither palette if using the LAB method
    ([null] otherwise, modelled by the empty list). *)
Definition ditherPaletteLabOf (method : string) (ditherPaletteArray : list Triple)
  : list Lab :=
  if String.eqb method "lab" then
    (λ '(r, g, b), rgbToLab (Z2F r) (Z2F g) (Z2F b)) <$> ditherPaletteArray
  else [].

(** The state after the whole pass. *)
Definition ditherPass (imageData : ImageData) (method : string)
    (outputPaletteArray ditherPaletteArray : list Triple) (algorithm : string)
  : DitherState :=
  let w := width imageData in
  let h := height imageData in
  let errors := replicate (w * h * 3) 0 in
  let diffusionMatrix := diffusionMatrixOf algorithm in
  let ditherPaletteLab := ditherPaletteLabOf method ditherPaletteArray in
  fold_left
    (λ st y,
       fold_left
         (λ st x,
            ditherPixel w h method outputPaletteArray ditherPaletteArray
              ditherPaletteLab diffusionMatrix st y x)
         (seq 0 w) st)
    (seq 0 h) (data imageData, errors).

Definition applyErrorDiffusionDither (imageData : ImageData) (method : string)
    (outputPaletteArray ditherPaletteArray : list Triple) (algorithm : string)
  : ImageData :=
  withData imageData
    (fst (ditherPass imageData method outputPaletteArray ditherPaletteArray
            algorithm)).

(** *** Image preprocessing *)

(** [x || dflt] for a string property that may be absent (the empty string
    is falsy too). *)
Definition stringOr (x : option string) (dflt : string) : string :=
  match x with
  | Some s => if String.eqb s "" then dflt else s
  | None => dflt
  end.

(** [params.toneMode || "contrast"] *)
Definition toneModeOf (params : ProcessingParams) : string :=
  stringOr (toneMode params) "contrast".

(** [x && x !== 1.0] for a numeric field that may be absent. *)
Definition setAndNotOne (x : option float) : bool :=
  match x with
  | Some v => JS.truthy v && negb (v =? 1.0)
  | None => false
  end.

(** 1. Apply exposure *)
Definition stepExposure (params : ProcessingParams) (imageData : ImageData)
  : ImageData :=
  if setAndNotOne (exposure params) then
    applyExposure imageData (toNumber (exposure params))
  else imageData.

(** 2. Apply saturation *)
Definition stepSaturation (params : ProcessingParams) (imageData : ImageData)
  : ImageData :=
  if negb (toNumber (saturation params) =? 1.0) then
    applySaturation imageData (toNumber (saturation params))
  else imageData.

(** 3. Apply tone mapping *)
Definition stepTone (params : ProcessingParams) (imageData : ImageData)
  : ImageData :=
  if String.eqb (toneModeOf params) "contrast" then
    if setAndNotOne (contrast params) then
      applyContrast imageData (toNumber (contrast params))
    else imageData
  else
    applyScurveTonemap imageData
      (toNumber (strength params)) (toNumber (shadowBoost params))
      (toNumber (highlightCompress params)) (toNumber (midpoint params)).

Definition compressPixel (blackL whiteL : float) (d : list Z) (i : nat) : list Z :=
  let r := readU8 d i in
  let g := readU8 d (i + 1) in
  let b := readU8 d (i + 2) in
  let '(l, a, bLab) := rgbToLab r g b in
  let compressedL := blackL + (l / 100) * (whiteL - blackL) in
  let '(newR, newG, newB) := labToRgb compressedL a bLab in
  let d := writeU8 d i newR in
  let d := writeU8 d (i + 1) newG in
  writeU8 d (i + 2) newB.

(** 4. Compress dynamic range to the display's actual luminance range *)
Definition stepCompress (params : ProcessingParams)
    (perceivedPalette : option Palette) (imageData : ImageData) : ImageData :=
  match compressDynamicRange params, perceivedPalette with
  | Some true, Some pal =>
      let paletteBlack := black pal in
      let paletteWhite := white pal in
      let blackL :=
        fst (fst (rgbToLab (Z2F (r paletteBlack)) (Z2F (g paletteBlack))
                    (Z2F (b paletteBlack)))) in
      let whiteL :=
        fst (fst (rgbToLab (Z2F (r paletteWhite)) (Z2F (g paletteWhite))
                    (Z2F (b paletteWhite)))) in
      withData imageData
        (fold_left (compressPixel blackL whiteL)
           (pixelOffsets (data imageData)) (data imageData))
  | _, _ => imageData
  end.

Definition preprocessImage (imageData : ImageData) (params : ProcessingParams)
    (perceivedPalette : option Palette) : ImageData :=
  stepCompress params perceivedPalette
    (stepTone params (stepSaturation params (stepExposure params imageData))).

(** *** Canvases and the main processing function *)

(** A canvas: its size and its pixels, as [getImageData] reads them. *)
Record Canvas : Type := { cwidth : nat; cheight : nat; pixels : list Z }.

(** The argument of [processImage]: a canvas or an [ImageData]. *)
Inductive Source : Type :=
| CanvasSource (c : Canvas)
| ImageDataSource (d : ImageData).

Definition sourceWidth (s : Source) : nat :=
  match s with CanvasSource c => cwidth c | ImageDataSource d => width d end.

Definition sourceHeight (s : Source) : nat :=
  match s with CanvasSource c => cheight c | ImageDataSource d => height d end.

Record Options : Type := {
  displayWidth : nat;
  displayHeight : nat;
  palette : PalettePair;
  params : ProcessingParams;
  skipRotation : bool;
  skipDithering : bool;
  usePerceivedOutput : bool
}.

(** [options = {}]: every field at its default. *)
Definition defaultOptions : Options := {|
  displayWidth := DEFAULT_DISPLAY_WIDTH;
  displayHeight := DEFAULT_DISPLAY_HEIGHT;
  palette := SPECTRA6;
  params := getDefaultParams;
  skipRotation := false;
  skipDithering := false;
  usePerceivedOutput := false
|}.

Section CanvasAPI.

(** The drawing operations of the canvas API are the platform's; each is
    the pixel content it leaves on a fresh canvas of the given size. *)

(** [ctx.drawImage(src, 0, 0)] on a fresh [w] by [h] canvas. *)
Variable drawImage : Canvas → nat → nat → list Z.
(** [ctx.translate(h, 0); ctx.rotate(Math.PI / 2); ctx.drawImage(src, 0, 0)]. *)
Variable drawRotated : Canvas → list Z.
(** The two scaled and cropped [drawImage] calls of [resizeImageCover]. *)
Variable drawCover : Canvas → nat → nat → list Z.
(** [ctx.putImageData(imageData, 0, 0)] on a canvas of the image's size.
    A canvas keeps its pixels in a representation of its own (colour
    premultiplied by alpha, as a rule), so that the bytes read back may
    differ from the bytes put wherever alpha is below 255. *)
Variable storedPixels : ImageData → list Z.

Definition getImageData (canvas : Canvas) : ImageData :=
  {| width := cwidth canvas; height := cheight canvas; data := pixels canvas |}.

Definition putImageData (canvas : Canvas) (imageData : ImageData) : Canvas :=
  {| cwidth := cwidth canvas; cheight := cheight canvas;
     pixels := storedPixels imageData |}.

Definition rotate90Clockwise (canvas : Canvas) : Canvas :=
  {| cwidth := cheight canvas; cheight := cwidth canvas;
     pixels := drawRotated canvas |}.

Definition resizeImageCover (sourceCanvas : Canvas) (outputWidth outputHeight : nat)
  : Canvas :=
  {| cwidth := outputWidth; cheight := outputHeight;
     pixels := drawCover sourceCanvas outputWidth outputHeight |}.

(** The canvas created from the source at the start of [processImage]. *)
Definition loadSource (source : Source) : Canvas :=
  match source with
  | ImageDataSource d =>
      {| cwidth := width d; cheight := height d; pixels := storedPixels d |}
  | CanvasSource c =>
      {| cwidth := cwidth c; cheight := cheight c;
         pixels := drawImage c (cwidth c) (cheight c) |}
  end.

Definition isPortraitCanvas (canvas : Canvas) : bool :=
  (cwidth canvas <? cheight canvas)%nat.

(** Check if portrait and rotate to landscape. *)
Definition orientCanvas (options : Options) (canvas : Canvas) : Canvas :=
  if isPortraitCanvas canvas && negb (skipRotation options) then
    rotate90Clockwise canvas
  else canvas.

(** [(finalWidth, finalHeight)] *)
Definition finalSize (options : Options) (isPortrait : bool) : nat * nat :=
  let displayIsLandscape := (displayHeight options <? displayWidth options)%nat in
  if isPortrait && skipRotation options && displayIsLandscape then
    (displayHeight options, displayWidth options)
  else (displayWidth options, displayHeight options).

(** Resize to display dimensions. *)
Definition fitCanvas (options : Options) (isPortrait : bool) (canvas : Canvas)
  : Canvas :=
  let '(finalWidth, finalHeight) := finalSize options isPortrait in
  if negb (cwidth canvas =? finalWidth)%nat || negb (cheight canvas =? finalHeight)%nat
  then resizeImageCover canvas finalWidth finalHeight
  else canvas.

(** Apply dithering. *)
Definition ditherStage (options : Options) (imageData : ImageData) : ImageData :=
  if negb (skipDithering options) then
    let outputPalette :=
      if usePerceivedOutput options then perceived (palette options)
      else theoretical (palette options) in
    let outputPaletteArray := paletteToArray outputPalette in
    let ditherPaletteArray := paletteToArray (perceived (palette options)) in
    applyErrorDiffusionDither imageData
      (stringOr (colorMethod (params options)) "rgb")
      outputPaletteArray ditherPaletteArray
      (stringOr (ditherAlgorithm (params options)) "floyd-steinberg")
  else imageData.

(** [processImage] returns [{ canvas, originalCanvas }]. *)
Definition processImage (source : Source) (options : Options) : Canvas * Canvas :=
  let canvas := loadSource source in
  let originalCanvas :=
    {| cwidth := cwidth canvas; cheight := cheight canvas;
       pixels := drawImage canvas (cwidth canvas) (cheight canvas) |} in
  let isPortrait := isPortraitCanvas canvas in
  let canvas := orientCanvas options canvas in
  let canvas := fitCanvas options isPortrait canvas in
  let imageData := getImageData canvas in
  let imageData :=
    preprocessImage imageData (params options)
      (Some (perceived (palette options))) in
  let imageData := ditherStage options imageData in
  (putImageData canvas imageData, originalCanvas).

End CanvasAPI.

End Engine.

(** *** BMP encoding *)

Local Open Scope Z_scope.

(** [k] bytes of [value], least significant first, written at [offset]. *)
Fixpoint writeBytesLE (k : nat) (buffer : list Z) (value : Z) (offset : nat)
  : list Z :=
  match k with
  | O => buffer
  | S k' =>
      writeBytesLE k' (<[offset := value mod 256]> buffer) (value / 256) (S offset)
  end.

(** Node's [Buffer] writers throw a [RangeError] for a value that does not
    fit. *)
Definition writeUInt32LE (buffer : list Z) (value : Z) (offset : nat)
  : result (list Z) :=
  if (0 <=? value) && (value <? 2 ^ 32) then Ok (writeBytesLE 4 buffer value offset)
  else Throw RangeError.

Definition writeInt32LE (buffer : list Z) (value : Z) (offset : nat)
  : result (list Z) :=
  if (- 2 ^ 31 <=? value) && (value <? 2 ^ 31) then
    Ok (writeBytesLE 4 buffer (value mod 2 ^ 32) offset)
  else Throw RangeError.

Definition writeUInt16LE (buffer : list Z) (value : Z) (offset : nat)
  : result (list Z) :=
  if (0 <=? value) && (value <? 2 ^ 16) then Ok (writeBytesLE 2 buffer value offset)
  else Throw RangeError.

(** [buffer[offset] = data[i]]: a missing element is stored as 0. *)
Definition storeByte (buffer : list Z) (offset : nat) (v : option Z) : list Z :=
  <[offset := default 0 v mod 256]> buffer.

(** The state of the pixel loop: the buffer and the running [offset]. *)
Definition bmpPixel (w : nat) (d : list Z) (y : nat) (st : list Z * nat) (x : nat)
  : list Z * nat :=
  let '(buffer, offset) := st in
  let srcIdx := ((y * w + x) * 4)%nat in
  let buffer := storeByte buffer offset (d !! (srcIdx + 2)%nat) in
  let buffer := storeByte buffer (offset + 1) (d !! (srcIdx + 1)%nat) in
  let buffer := storeByte buffer (offset + 2) (d !! srcIdx) in
  (buffer, (offset + 3)%nat).

Definition bmpPad (st : list Z * nat) (p : nat) : list Z * nat :=
  let '(buffer, offset) := st in
  (<[offset := 0]> buffer, (offset + 1)%nat).

Definition bmpRow (w rowSize : nat) (d : list Z) (st : list Z * nat) (y : nat)
  : list Z * nat :=
  let st := fold_left (bmpPixel w d y) (seq 0 w) st in
  let padding := (rowSize - w * 3)%nat in
  fold_left bmpPad (seq 0 padding) st.

(** [Math.ceil((width * 3) / 4) * 4] (exact on integers). *)
Definition rowSizeOf (w : nat) : nat := ((w * 3 + 3) / 4 * 4)%nat.

Definition createBMP (canvas : Canvas) : result (list Z) :=
  let imageData := getImageData canvas in
  let w := width imageData in
  let h := height imageData in
  let d := data imageData in
  let rowSize := rowSizeOf w in
  let pixelDataSize := (rowSize * h)%nat in
  let fileSize := (54 + pixelDataSize)%nat in
  let buffer := replicate fileSize 0 in
  (* BMP File Header (14 bytes) *)
  let buffer := <[1%nat := 77]> (<[0%nat := 66]> buffer) in
  buffer ← writeUInt32LE buffer (Z.of_nat fileSize) 2;
  buffer ← writeUInt32LE buffer 0 6;
  buffer ← writeUInt32LE buffer 54 10;
  (* DIB Header (BITMAPINFOHEADER - 40 bytes) *)
  buffer ← writeUInt32LE buffer 40 14;
  buffer ← writeInt32LE buffer (Z.of_nat w) 18;
  buffer ← writeInt32LE buffer (Z.of_nat h) 22;
  buffer ← writeUInt16LE buffer 1 26;
  buffer ← writeUInt16LE buffer 24 28;
  buffer ← writeUInt32LE buffer 0 30;
  buffer ← writeUInt32LE buffer (Z.of_nat pixelDataSize) 34;
  buffer ← writeInt32LE buffer 2835 38;
  buffer ← writeInt32LE buffer 2835 42;
  buffer ← writeUInt32LE buffer 0 46;
  buffer ← writeUInt32LE buffer 0 50;
  (* Pixel data (BGR, bottom-up) *)
  Ok (fst (fold_left (bmpRow w rowSize d) (reverse (seq 0 h)) (buffer, 54%nat))).

(** Node's readers, as the tests use them. *)
Definition byteAt (buffer : list Z) (i : nat) : Z := default 0 (buffer !! i).

Definition readUInt16LE (buffer : list Z) (offset : nat) : Z :=
  byteAt buffer offset + 256 * byteAt buffer (offset + 1).

Definition readUInt32LE (buffer : list Z) (offset : nat) : Z :=
  byteAt buffer offset + 256 * byteAt buffer (offset + 1)
  + 65536 * byteAt buffer (offset + 2) + 16777216 * byteAt buffer (offset + 3).

Definition readInt32LE (buffer : list Z) (offset : nat) : Z :=
  let u := readUInt32LE buffer offset in
  if u <? 2 ^ 31 then u else u - 2 ^ 32.

End Processor.

(** ** Object literals used as registries *)

Module Objects.

Local Open Scope string_scope.

(** The properties every object literal inherits from [Object.prototype].
    Each of them holds a function or an object: a truthy value with no
    enumerable property of its own, so that spreading it gives [{}]. *)
Definition objectPrototypeKeys : list string :=
  [ "constructor"; "hasOwnProperty"; "isPrototypeOf"; "propertyIsEnumerable";
    "toLocaleString"; "toString"; "valueOf"; "__proto__";
    "__defineGetter__"; "__defineSetter__"; "__lookupGetter__";
    "__lookupSetter__" ].

(** An object literal: its own properties in the order they are written. *)
Fixpoint ownProperty {A : Type} (o : list (string * A)) (key : string)
  : option A :=
  match o with
  | [] => None
  | (k, a) :: rest => if String.eqb k key then Some a else ownProperty rest key
  end.

(** What the read [o[key]] finds. *)
Inductive property (A : Type) : Type :=
| Own (a : A)
| Inherited
| Missing.

Arguments Own {A} a.
Arguments Inherited {A}.
Arguments Missing {A}.

Definition getProperty {A : Type} (o : list (string * A)) (key : string)
  : property A :=
  match ownProperty o key with
  | Some a => Own a
  | None =>
      if bool_decide (key ∈ objectPrototypeKeys) then Inherited else Missing
  end.

(** [Object.keys(o)] *)
Definition keys {A : Type} (o : list (string * A)) : list string := o.*1.

End Objects.

(** ** palettes.js: the palette registry *)

Module PaletteRegistry.

Import JS Palettes Objects.
Local Open Scope string_scope.

Definition PALETTE_PRESETS : list (string * PalettePair) :=
  [ ("spectra6", SPECTRA6); ("default", SPECTRA6) ].

(** [preset ? { ...preset } : null] *)
Definition getPalette (presetName : string) : jsval :=
  match getProperty PALETTE_PRESETS presetName with
  | Own preset => pairValue preset
  | Inherited => JObj ∅
  | Missing => JNull
  end.

Definition getPaletteNames : list string := keys PALETTE_PRESETS.

Record PaletteOption : Type := {
  value : string; title : string; description : string
}.

Definition getPaletteOptions : list PaletteOption :=
  [ {| value := "spectra6";
       title := "Spectra 6 (Default)";
       description :=
         "6-color ACeP palette for Waveshare and similar displays" |} ].

End PaletteRegistry.

(** ** presets.js: the preset registry *)

Module PresetRegistry.

Import JS Presets Objects.
Local Open Scope string_scope.
Local Open Scope float_scope.

(** A preset object: its descriptive properties and, in [settings], its
    processing parameters (one flat object in the source; the pipeline
    reads the parameters only). *)
Record Preset : Type := {
  name : option string;
  title : option string;
  description : option string;
  settings : ProcessingParams
}.

Definition CDR_PRESET : Preset := {|
  name := Some "cdr";
  title := Some "Compressed Dynamic Range (Default)";
  description :=
    Some "Balanced preset that compresses highlights to prevent overexposure. Works well with most images.";
  settings := {|
    exposure := Some 1.0;
    saturation := Some 1.0;
    toneMode := Some "contrast";
    contrast := Some 1.0;
    strength := None;
    shadowBoost := None;
    highlightCompress := None;
    midpoint := None;
    colorMethod := Some "rgb";
    ditherAlgorithm := Some "floyd-steinberg";
    compressDynamicRange := Some true |}
|}.

Definition SCURVE_PRESET : Preset := {|
  name := Some "scurve";
  title := Some "S-Curve";
  description :=
    Some "Advanced tone mapping with brighter output. Some parts of the image may be over-exposed.";
  settings := {|
    exposure := Some 1.0;
    saturation := Some 1.3;
    toneMode := Some "scurve";
    contrast := Some 1.0;
    strength := Some 0.9;
    shadowBoost := Some 0.0;
    highlightCompress := Some 1.5;
    midpoint := Some 0.5;
    colorMethod := Some "rgb";
    ditherAlgorithm := Some "floyd-steinberg";
    compressDynamicRange := Some false |}
|}.

Definition VIVID_PRESET : Preset := {|
  name := Some "vivid";
  title := Some "Vivid";
  description := Some "Boosted colors for colorful images and illustrations.";
  settings := {|
    exposure := Some 1.1;
    saturation := Some 1.6;
    toneMode := Some "scurve";
    contrast := Some 1.0;
    strength := Some 0.7;
    shadowBoost := Some 0.1;
    highlightCompress := Some 1.3;
    midpoint := Some 0.5;
    colorMethod := Some "rgb";
    ditherAlgorithm := Some "floyd-steinberg";
    compressDynamicRange := Some false |}
|}.

Definition SOFT_PRESET : Preset := {|
  name := Some "soft";
  title := Some "Soft";
  description := Some "Softer look with better gradient rendering.";
  settings := {|
    exposure := Some 1.0;
    saturation := Some 1.1;
    toneMode := Some "contrast";
    contrast := Some 0.9;
    strength := None;
    shadowBoost := None;
    highlightCompress := None;
    midpoint := None;
    colorMethod := Some "rgb";
    ditherAlgorithm := Some "stucki";
    compressDynamicRange := Some true |}
|}.

Definition GRAYSCALE_PRESET : Preset := {|
  name := Some "grayscale";
  title := Some "Grayscale";
  description :=
    Some "Optimized for black and white photos using LAB color space.";
  settings := {|
    exposure := Some 1.0;
    saturation := Some 0.0;
    toneMode := Some "scurve";
    contrast := Some 1.0;
    strength := Some 0.8;
    shadowBoost := Some 0.1;
    highlightCompress := Some 1.4;
    midpoint := Some 0.5;
    colorMethod := Some "lab";
    ditherAlgorithm := Some "floyd-steinberg";
    compressDynamicRange := Some true |}
|}.

Definition PRESETS : list (string * Preset) :=
  [ ("cdr", CDR_PRESET); ("scurve", SCURVE_PRESET); ("vivid", VIVID_PRESET);
    ("soft", SOFT_PRESET); ("grayscale", GRAYSCALE_PRESET) ].

Record DitherOption : Type := { dvalue : string; dtitle : string }.

Definition DITHER_ALGORITHMS : list DitherOption :=
  [ {| dvalue := "floyd-steinberg"; dtitle := "Floyd-Steinberg" |};
    {| dvalue := "stucki"; dtitle := "Stucki" |};
    {| dvalue := "burkes"; dtitle := "Burkes" |};
    {| dvalue := "sierra"; dtitle := "Sierra" |} ].

(** [{}] *)
Definition emptyParams : ProcessingParams := {|
  exposure := None; saturation := None; toneMode := None; contrast := None;
  strength := None; shadowBoost := None; highlightCompress := None;
  midpoint := None; colorMethod := None; ditherAlgorithm := None;
  compressDynamicRange := None
|}.

Definition emptyPreset : Preset :=
  {| name := None; title := None; description := None;
     settings := emptyParams |}.

(** [preset ? { ...preset } : null]; [None] is [null]. *)
Definition getPreset (name : string) : option Preset :=
  match getProperty PRESETS name with
  | Own preset => Some preset
  | Inherited => Some emptyPreset
  | Missing => None
  end.

Definition getPresetNames : list string := keys PRESETS.

Record PresetOption : Type := {
  ovalue : option string; otitle : option string; odescription : option string
}.

Definition getPresetOptions : list PresetOption :=
  let primaryPresets :=
    [ CDR_PRESET; SCURVE_PRESET; VIVID_PRESET; SOFT_PRESET; GRAYSCALE_PRESET ] in
  (λ p, {| ovalue := name p; otitle := title p;
           odescription := description p |}) <$> primaryPresets.

Definition getDitherOptions : list DitherOption :=
  (λ opt, {| dvalue := dvalue opt; dtitle := dtitle opt |}) <$> DITHER_ALGORITHMS.

(** The argument of [mergeParams]: each property of the caller's object is
    absent ([None]) or present with a value, which may be [undefined]
    ([Some None]). *)
Module User.

Record Params : Type := {
  exposure : option (option float);
  saturation : option (option float);
  toneMode : option (option string);
  contrast : option (option float);
  strength : option (option float);
  shadowBoost : option (option float);
  highlightCompress : option (option float);
  midpoint : option (option float);
  colorMethod : option (option string);
  ditherAlgorithm : option (option string);
  compressDynamicRange : option (option bool)
}.

(** [{}], the default of the argument. *)
Definition empty : Params := {|
  exposure := None; saturation := None; toneMode := None; contrast := None;
  strength := None; shadowBoost := None; highlightCompress := None;
  midpoint := None; colorMethod := None; ditherAlgorithm := None;
  compressDynamicRange := None
|}.

End User.

(** One property of [{ ...defaults, ...userParams }]. *)
Definition spread {A : Type} (dflt : option A) (user : option (option A))
  : option A :=
  match user with
  | Some v => v
  | None => dflt
  end.

Definition mergeParams (userParams : User.Params) : ProcessingParams := {|
  exposure := spread (exposure getDefaultParams) (User.exposure userParams);
  saturation := spread (saturation getDefaultParams) (User.saturation userParams);
  toneMode := spread (toneMode getDefaultParams) (User.toneMode userParams);
  contrast := spread (contrast getDefaultParams) (User.contrast userParams);
  strength := spread (strength getDefaultParams) (User.strength userParams);
  shadowBoost :=
    spread (shadowBoost getDefaultParams) (User.shadowBoost userParams);
  highlightCompress :=
    spread (highlightCompress getDefaultParams)
      (User.highlightCompress userParams);
  midpoint := spread (midpoint getDefaultParams) (User.midpoint userParams);
  colorMethod :=
    spread (colorMethod getDefaultParams) (User.colorMethod userParams);
  ditherAlgorithm :=
    spread (ditherAlgorithm getDefaultParams) (User.ditherAlgorithm userParams);
  compressDynamicRange :=
    spread (compressDynamicRange getDefaultParams)
      (User.compressDynamicRange userParams)
|}.

End PresetRegistry.

(** ** processor.js: EXIF orientation and thumbnails *)

Module Transforms.

Import JS Processor.
Local Open Scope float_scope.

Definition DEFAULT_THUMBNAIL_WIDTH : nat := 400.
Definition DEFAULT_THUMBNAIL_HEIGHT : nat := 240.

(** The arguments of [ctx.transform(a, b, c, d, e, f)]; on a fresh context
    the point [(x, y)] is drawn at [(a x + c y + e, b x + d y + f)]. *)
Record Matrix : Type := { ma : Z; mb : Z; mc : Z; md : Z; me : Z; mf : Z }.

(** No [transform] call: the identity. *)
Definition identityMatrix : Matrix :=
  {| ma := 1; mb := 0; mc := 0; md := 1; me := 0; mf := 0 |}.

(** The [switch (orientation)] of [applyExifOrientation]. *)
Definition exifMatrix (orientation : float) (width height : Z) : Matrix :=
  if orientation =? 2 then
    {| ma := -1; mb := 0; mc := 0; md := 1; me := width; mf := 0 |}
  else if orientation =? 3 then
    {| ma := -1; mb := 0; mc := 0; md := -1; me := width; mf := height |}
  else if orientation =? 4 then
    {| ma := 1; mb := 0; mc := 0; md := -1; me := 0; mf := height |}
  else if orientation =? 5 then
    {| ma := 0; mb := 1; mc := 1; md := 0; me := 0; mf := 0 |}
  else if orientation =? 6 then
    {| ma := 0; mb := 1; mc := -1; md := 0; me := height; mf := 0 |}
  else if orientation =? 7 then
    {| ma := 0; mb := -1; mc := -1; md := 0; me := height; mf := width |}
  else if orientation =? 8 then
    {| ma := 0; mb := -1; mc := 1; md := 0; me := 0; mf := width |}
  else identityMatrix.

(** [(newCanvas.width, newCanvas.height)] *)
Definition exifSize (orientation : float) (width height : nat) : nat * nat :=
  if (5 <=? orientation) && (orientation <=? 8) then (height, width)
  else (width, height).

Section CanvasAPI.

(** [ctx.transform(...m); ctx.drawImage(src, 0, 0)] on a fresh [w] by [h]
    canvas: the pixel content it leaves. *)
Variable drawTransformed : Canvas → Matrix → nat → nat → list Z.

(** [ctx.drawImage(src, sx, sy, sw, sh, 0, 0, w, h)] on a fresh [w] by [h]
    canvas. *)
Variable drawCropped : Canvas → float * float * float * float → nat → nat → list Z.

Definition applyExifOrientation (canvas : Canvas) (orientation : float) : Canvas :=
  if orientation =? 1 then canvas
  else
    let width := cwidth canvas in
    let height := cheight canvas in
    let '(newWidth, newHeight) := exifSize orientation width height in
    {| cwidth := newWidth; cheight := newHeight;
       pixels :=
         drawTransformed canvas
           (exifMatrix orientation (Z.of_nat width) (Z.of_nat height))
           newWidth newHeight |}.

Definition generateThumbnail (sourceCanvas : Canvas)
    (outputWidth outputHeight : nat) : Canvas :=
  let srcWidth := cwidth sourceCanvas in
  let srcHeight := cheight sourceCanvas in
  let isPortrait := (srcWidth <? srcHeight)%nat in
  let thumbWidth := if isPortrait then outputHeight else outputWidth in
  let thumbHeight := if isPortrait then outputWidth else outputHeight in
  let scaleX := N2F thumbWidth / N2F srcWidth in
  let scaleY := N2F thumbHeight / N2F srcHeight in
  let scale := Math_max scaleX scaleY in
  let scaledWidth := Math_round (N2F srcWidth * scale) in
  let scaledHeight := Math_round (N2F srcHeight * scale) in
  let cropX := Math_round ((scaledWidth - N2F thumbWidth) / 2) in
  let cropY := Math_round ((scaledHeight - N2F thumbHeight) / 2) in
  {| cwidth := thumbWidth; cheight := thumbHeight;
     pixels :=
       drawCropped sourceCanvas
         (cropX / scale, cropY / scale,
          N2F thumbWidth / scale, N2F thumbHeight / scale)
         thumbWidth thumbHeight |}.

End CanvasAPI.

End Transforms.

(** ** cli.js: the dimension option *)

Module Cli.

Import Stdlib.Strings.Ascii JS.
Local Open Scope string_scope.

(** [\d] *)
Definition isDigit (c : ascii) : bool :=
  (48 <=? nat_of_ascii c)%nat && (nat_of_ascii c <=? 57)%nat.

(** The longest run of digits at the start of a string (a greedy [\d*]),
    and what follows it. *)
Fixpoint digitsPrefix (s : string) : string * string :=
  match s with
  | String c rest =>
      if isDigit c then
        let '(ds, tl) := digitsPrefix rest in (String c ds, tl)
      else ("", s)
  | EmptyString => ("", "")
  end.

Fixpoint allDigits (s : string) : bool :=
  match s with
  | String c rest => isDigit c && allDigits rest
  | EmptyString => true
  end.

(** [value.match(/^(\d+)x(\d+)$/)]: the two groups, or [None] for [null].
    The first group can only be the whole run of digits at the start, since
    it must be followed by an [x]. *)
Definition matchDimension (value : string) : option (string * string) :=
  let '(w, rest) := digitsPrefix value in
  match rest with
  | String "x"%char h =>
      if negb (String.eqb w "") && negb (String.eqb h "") && allDigits h
      then Some (w, h)
      else None
  | _ => None
  end.

(** The integer a string of decimal digits denotes. *)
Fixpoint digitsValue (acc : Z) (s : string) : Z :=
  match s with
  | String c rest => digitsValue (10 * acc + (Z.of_nat (nat_of_ascii c) - 48)) rest
  | EmptyString => acc
  end.

(** The number nearest to an integer (infinite from 2^1024 on). *)
Definition ofInteger (z : Z) : float :=
  SF2Prim (binary_normalize prec emax z 0 false).

(** [parseInt(s, 10)] for a non-empty string of decimal digits, which is
    what the groups of the match hold. *)
Definition parseInt (s : string) : float := ofInteger (digitsValue 0 s).

(** The result is [{ width, height }]. *)
Definition parseDimension (value : string) : result (float * float) :=
  match matchDimension value with
  | None =>
      Throw (Error ("Invalid dimension format: " ++ value
                    ++ ". Expected format: WIDTHxHEIGHT (e.g., 800x480)"))
  | Some (w, h) => Ok (parseInt w, parseInt h)
  end.

End Cli.

(** * Specifications

    The predicates the theorems below are stated with. *)

(** ** Well-formed palette pairs *)

Module PaletteSpec.

Import JS Palettes.
Local Open Scope string_scope.

Definition channelNames : list string := ["r"; "g"; "b"].
Definition paletteNames : list string := ["theoretical"; "perceived"].

(** A channel value below 0 or above 255, as [<] and [>] compare numbers. *)
Definition outOfRange (f : float) : Prop :=
  PrimFloat.ltb f 0 = true ∨ PrimFloat.ltb 255 f = true.

(** The accepted palette pairs, stated on the value alone: an object whose
    [theoretical] and [perceived] properties are objects holding the six
    colour roles, each an object whose [r], [g] and [b] are numbers that are
    not out of range. *)
Definition channelOk (x : jsval) : Prop :=
  ∃ f, x = JNum f ∧ ¬ outOfRange f.

Definition colorOk (c : jsval) : Prop :=
  ∃ props, c = JObj props ∧
    ∀ ch, ch ∈ channelNames → ∃ x, props !! ch = Some x ∧ channelOk x.

Definition paletteOk (p : jsval) : Prop :=
  ∃ props, p = JObj props ∧
    ∀ color, color ∈ requiredColors → ∃ c, props !! color = Some c ∧ colorOk c.

Definition pairOk (v : jsval) : Prop :=
  ∃ props t p, v = JObj props ∧
    props !! "theoretical" = Some t ∧ props !! "perceived" = Some p ∧
    paletteOk t ∧ paletteOk p.

(** [v[key]] where the read cannot throw. *)
Definition prop (v : jsval) (key : string) : jsval :=
  match getProp v key with Ok x => x | Throw _ => JUndefined end.

Definition isObject (v : jsval) : Prop :=
  truthy v = true ∧ typeof v = "object".

(** What each message of the validator says of the value it rejects: the
    field it names is the one at fault. *)
Inductive Offending (v : jsval) : string → Prop :=
| off_pair :
    ¬ isObject v → Offending v "Palette must be an object"
| off_theoretical :
    truthy (prop v "theoretical") = false →
    Offending v "Palette must have a 'theoretical' property"
| off_perceived :
    truthy (prop v "perceived") = false →
    Offending v "Palette must have a 'perceived' property"
| off_single name :
    name ∈ paletteNames → ¬ isObject (prop v name) →
    Offending v (name ++ " palette must be an object")
| off_missing name color :
    name ∈ paletteNames → color ∈ requiredColors →
    truthy (prop (prop v name) color) = false →
    Offending v ("Missing required color in " ++ name ++ " palette: " ++ color)
| off_invalid name color ch :
    name ∈ paletteNames → color ∈ requiredColors → ch ∈ channelNames →
    typeof (prop (prop (prop v name) color) ch) ≠ "number" →
    Offending v ("Invalid RGB values for " ++ name ++ "." ++ color)
| off_range name color ch f :
    name ∈ paletteNames → color ∈ requiredColors → ch ∈ channelNames →
    prop (prop (prop v name) color) ch = JNum f → outOfRange f →
    Offending v ("RGB values must be 0-255 for " ++ name ++ "." ++ color).

(** Replacing the channel [ch] of the colour [color] of the palette [name]. *)
Definition updateProp (v : jsval) (key : string) (f : jsval → jsval) : jsval :=
  match v with
  | JObj props => JObj (<[key := f (default JUndefined (props !! key))]> props)
  | _ => v
  end.

Definition withChannel (v : jsval) (name color ch : string) (x : jsval) : jsval :=
  updateProp v name (λ p, updateProp p color (λ c, updateProp c ch (λ _, x))).

End PaletteSpec.

(** ** Palette slots *)

Module MatchSpec.

(** The six active slots of the 7-slot palette model; slot 4 is reserved. *)
Definition activeSlots : list nat := [0; 1; 2; 3; 5; 6].

(** Two arrays that differ at most in the reserved slot. *)
Definition agreeExceptReserved {A : Type} (p q : list A) : Prop :=
  length p = length q ∧ ∀ i, i ≠ 4 → p !! i = q !! i.

(** The loop invariant after the slots below [n] were visited. *)
Definition searched (dist : nat → float) (n : nat) (st : float * nat) : Prop :=
  (∀ i, i < n → i ≠ 4 → (dist i <? fst st)%float = false) ∧
  ((fst st = infinity ∧ snd st = 1) ∨
   (snd st < n ∧ snd st ≠ 4 ∧ fst st = dist (snd st) ∧
    (dist (snd st) <? infinity)%float = true ∧
    ∀ i, i < snd st → i ≠ 4 → (dist i <=? dist (snd st))%float = false)).

End MatchSpec.

(** ** Tone adjustment *)

Module ToneSpec.

Import JS Palettes Presets Processor.
Local Open Scope float_scope.

(** [f] applied to the R, G and B bytes of every pixel, the alpha bytes
    (offsets 3, 7, 11, ...) left as they are. *)
Definition mapRGB (f : Z → Z) (d : list Z) : list Z :=
  imap (λ i c, if (i mod 4 =? 3)%nat then c else f c) d.

(** [f] applied to the colour bytes below offset [n]. *)
Definition mapRGBBelow (f : Z → Z) (n : nat) (d : list Z) : list Z :=
  imap (λ i c, if (i <? n)%nat && negb (i mod 4 =? 3)%nat then f c else c) d.

(** A channel byte multiplied by [exposure], rounded, clamped to 255 and
    stored back. *)
Definition exposed (exposure : float) (c : Z) : Z :=
  ToUint8Clamp (Math_min 255 (Math_round (Z2F c * exposure))).

(** The exposure step as the specification words it: skipped exactly when
    the multiplier is 1.0. *)
Definition exposureAsSpecified (e : float) (imageData : ImageData) : ImageData :=
  if e =? 1.0 then imageData
  else withData imageData (mapRGB (exposed e) (data imageData)).

(** The exposure step as [preprocessImage] runs it. *)
Definition exposureAsRun (e : option float) (imageData : ImageData) : ImageData :=
  match e with
  | Some e =>
      if JS.truthy e && negb (e =? 1.0) then
        withData imageData (mapRGB (exposed e) (data imageData))
      else imageData
  | None => imageData
  end.

(** The default parameters with another exposure. *)
Definition withExposure (e : float) (params : ProcessingParams)
  : ProcessingParams :=
  {| exposure := Some e;
     saturation := saturation params;
     toneMode := toneMode params;
     contrast := contrast params;
     strength := strength params;
     shadowBoost := shadowBoost params;
     highlightCompress := highlightCompress params;
     midpoint := midpoint params;
     colorMethod := colorMethod params;
     ditherAlgorithm := ditherAlgorithm params;
     compressDynamicRange := compressDynamicRange params |}.

(** A single opaque pixel. *)
Definition onePixel (r g b : Z) : ImageData :=
  {| width := 1; height := 1; data := [r; g; b; 255%Z] |}.

(** A perceived palette whose black and white are both dark, so that the
    conversions of its colours stay on the linear branches and never reach
    [Math.pow]. *)
Definition dimPalette : Palette := {|
  black := {| r := 2; g := 2; b := 2 |};
  white := {| r := 10; g := 10; b := 10 |};
  yellow := {| r := 205; g := 202; b := 0 |};
  red := {| r := 135; g := 19; b := 0 |};
  blue := {| r := 5; g := 64; b := 158 |};
  green := {| r := 39; g := 102; b := 60 |}
|}.

End ToneSpec.

(** ** The pipeline *)

Module PipelineSpec.

Import Processor.

(** [canvas.height > canvas.width] for the source as given. *)
Definition isPortraitSource (source : Source) : bool :=
  (sourceWidth source <? sourceHeight source)%nat.

(** The canvas has the size of the source. *)
Definition sameSize (canvas : Canvas) (source : Source) : Prop :=
  cwidth canvas = sourceWidth source ∧ cheight canvas = sourceHeight source.

(** A blank landscape source of 1000 by 600 pixels, as in the tests. *)
Definition landscapeSource : Source :=
  CanvasSource {| cwidth := 1000; cheight := 600; pixels := [] |}.

(** A canvas that keeps its colour premultiplied by alpha, eight bits a
    channel: a colour byte [c] put with alpha [a] is kept as
    [(c * a + 127) / 255] and read back multiplied by [255 / a]; alpha is
    kept as it is. *)
Definition premultipliedByte (d : list Z) (i : nat) : Z :=
  let c := default 0%Z (d !! i) in
  let a := default 0%Z (d !! (i / 4 * 4 + 3)%nat) in
  if (i mod 4 =? 3)%nat then c else ((c * a + 127) / 255 * 255 / a)%Z.

Definition premultipliedStore (imageData : ImageData) : list Z :=
  premultipliedByte (data imageData)
    <$> seq 0 (4 * (width imageData * height imageData)).

End PipelineSpec.

(** ** The BMP file *)

Module BitmapSpec.

Import JS Processor.
Local Open Scope Z_scope.

(** What [getImageData] hands to [createBMP]: four bytes per pixel. *)
Definition wfCanvas (canvas : Canvas) : Prop :=
  length (pixels canvas) = (4 * (cwidth canvas * cheight canvas))%nat ∧
  Forall (λ v, 0 ≤ v < 256) (pixels canvas).

(** [k] bytes of [value], least significant first. *)
Fixpoint bytesLE (k : nat) (value : Z) : list Z :=
  match k with
  | O => []
  | S k' => value mod 256 :: bytesLE k' (value / 256)
  end.

(** The 54 header bytes: signature, file size, reserved, pixel data offset;
    then header size, width, height, planes, bits per pixel, compression,
    image size, the two resolutions and the two colour counts. *)
Definition headerOf (fileSize width height imageSize : Z) : list Z :=
  [66; 77]
  ++ bytesLE 4 fileSize ++ bytesLE 4 0 ++ bytesLE 4 54
  ++ bytesLE 4 40 ++ bytesLE 4 width ++ bytesLE 4 height
  ++ bytesLE 2 1 ++ bytesLE 2 24 ++ bytesLE 4 0
  ++ bytesLE 4 imageSize
  ++ bytesLE 4 2835 ++ bytesLE 4 2835 ++ bytesLE 4 0 ++ bytesLE 4 0.

Definition headerBytes (w h : nat) : list Z :=
  headerOf (Z.of_nat (54 + rowSizeOf w * h)) (Z.of_nat w) (Z.of_nat h)
    (Z.of_nat (rowSizeOf w * h)).

(** The three bytes stored for the pixel at column [x] of row [y]: blue,
    green, red. *)
Definition pixelBytes (w : nat) (d : list Z) (y x : nat) : list Z :=
  let srcIdx := ((y * w + x) * 4)%nat in
  [ default 0 (d !! (srcIdx + 2)%nat) mod 256;
    default 0 (d !! (srcIdx + 1)%nat) mod 256;
    default 0 (d !! srcIdx) mod 256 ].

(** One stored row: the pixels from left to right, then zero padding. *)
Definition rowBytes (w : nat) (d : list Z) (y : nat) : list Z :=
  concat (pixelBytes w d y <$> seq 0 w) ++ replicate (rowSizeOf w - w * 3) 0.

(** The whole file: the header, then the rows from the bottom one up. *)
Definition fileBytes (canvas : Canvas) : list Z :=
  headerBytes (cwidth canvas) (cheight canvas)
  ++ concat (rowBytes (cwidth canvas) (pixels canvas)
               <$> reverse (seq 0 (cheight canvas))).

(** A 3 by 2 canvas whose bytes are 1, 2, ..., 24. *)
Definition sampleCanvas : Canvas :=
  {| cwidth := 3; cheight := 2; pixels := Z.of_nat <$> seq 1 24 |}.

End BitmapSpec.

(** ** Dithering *)

Module DitherSpec.

Import JS Palettes Processor.
Local Open Scope float_scope.

(** The colour of pixel number [p] (in raster order) of an image buffer. *)
Definition pixelAt (d : list Z) (p : nat) : option Triple :=
  R ← d !! (4 * p)%nat; G ← d !! (4 * p + 1)%nat; B ← d !! (4 * p + 2)%nat;
  Some (R, G, B).

(** The state of the pass when the first [n] pixels, in raster order, have
    been visited. *)
Definition ditherPrefix (Math_pow : float → float → float)
    (imageData : ImageData) (method : string)
    (outputPaletteArray ditherPaletteArray : list Triple) (algorithm : string)
    (n : nat) : DitherState :=
  let w := width imageData in
  let h := height imageData in
  fold_left
    (λ st p,
       ditherPixel Math_pow w h method outputPaletteArray ditherPaletteArray
         (ditherPaletteLabOf Math_pow method ditherPaletteArray)
         (diffusionMatrixOf algorithm) st (p / w) (p mod w))
    (seq 0 n) (data imageData, replicate (w * h * 3) 0).

(** The palette slot matched for the pixel at column [x] of row [y] in
    state [st]: the closest colour of the dither palette to the working
    colour. *)
Definition matchedSlot (Math_pow : float → float → float) (w : nat)
    (method : string) (ditherPaletteArray : list Triple) (st : DitherState)
    (y x : nat) : nat :=
  let '(oldR, oldG, oldB) := workingColor w st y x in
  findClosestColor Math_pow oldR oldG oldB method ditherPaletteArray
    (ditherPaletteLabOf Math_pow method ditherPaletteArray).

(** The quantization error: the working colour minus a palette entry. *)
Definition quantError (old : float * float * float) (entry : Triple)
  : float * float * float :=
  let '(oldR, oldG, oldB) := old in
  let '(pr, pg, pb) := entry in
  (oldR - Z2F pr, oldG - Z2F pg, oldB - Z2F pb).

(** The three colour bytes written at offset [idx] when a palette entry is
    stored into the image. *)
Definition paint (d : list Z) (idx : nat) (entry : Triple) : list Z :=
  let '(newR, newG, newB) := entry in
  <[(idx + 2)%nat := clampByte newB]>
    (<[(idx + 1)%nat := clampByte newG]> (<[idx := clampByte newR]> d)).

(** A palette entry as the image bytes hold it. *)
Definition clampTriple (entry : Triple) : Triple :=
  let '(newR, newG, newB) := entry in
  (clampByte newR, clampByte newG, clampByte newB).

(** A 2 by 2 image. *)
Definition sampleImage : ImageData :=
  {| width := 2; height := 2;
     data := [10; 20; 30; 255; 200; 200; 200; 255;
              128; 128; 128; 255; 255; 0; 0; 255]%Z |}.

End DitherSpec.
(** ** The dimension option *)

Module CliSpec.

Import Stdlib.Strings.Ascii JS Cli.
Local Open Scope string_scope.

Definition digitChars : list ascii :=
  ["0"; "1"; "2"; "3"; "4"; "5"; "6"; "7"; "8"; "9"]%char.

(** A non-empty string of decimal digits. *)
Definition decimal (s : string) : Prop :=
  s ≠ "" ∧ Forall (λ c, c ∈ digitChars) (Stdlib.Strings.String.list_ascii_of_string s).

(** What a run of digits is followed by: nothing, or a character that is
    not a digit. *)
Definition stopsAt (tl : string) : Prop :=
  match tl with
  | String c _ => isDigit c = false
  | EmptyString => True
  end.

(** The decimal notation of a natural number, as a template literal prints
    an integer. *)
Definition showNat (n : nat) : string :=
  DecimalString.NilZero.string_of_uint (Nat.to_uint n).

(** [`${width}x${height}`] *)
Definition formatDimension (width height : nat) : string :=
  showNat width ++ "x" ++ showNat height.

(** What [parseDimension] says of a value it rejects. *)
Definition invalidDimension (value : string) : exn :=
  Error ("Invalid dimension format: " ++ value
         ++ ". Expected format: WIDTHxHEIGHT (e.g., 800x480)").

End CliSpec.
(** ** Loops over the pixels *)

Module PixelSpec.

Import JS Palettes Presets Processor DitherSpec.
Local Open Scope float_scope.

Abbreviation RGB := (float * float * float)%type.

(** Every element is a byte, as in a [Uint8ClampedArray]. *)
Definition byteData (d : list Z) : Prop := Forall (λ v, (0 ≤ v ≤ 255)%Z) d.

(** The 256 bytes. *)
Definition allBytes : list Z := List.map Z.of_nat (seq 0 256).

(** What a loop body makes of the colour it reads: the three values it
    stores, or [None] when it leaves the pixel alone. *)
Definition PixelOp : Type := RGB → option RGB.

(** A loop body over the pixels: it reads the three colour bytes at offset
    [i] and stores three values there. *)
Definition applyOp (op : PixelOp) (d : list Z) (i : nat) : list Z :=
  match op (readU8 d i, readU8 d (i + 1), readU8 d (i + 2)) with
  | Some (v1, v2, v3) => writeU8 (writeU8 (writeU8 d i v1) (i + 1) v2) (i + 2) v3
  | None => d
  end.

(** The same on one pixel's bytes. *)
Definition pixelFn (op : PixelOp) (px : Triple) : Triple :=
  let '(r, g, b) := px in
  match op (Z2F r, Z2F g, Z2F b) with
  | Some (v1, v2, v3) => (ToUint8Clamp v1, ToUint8Clamp v2, ToUint8Clamp v3)
  | None => px
  end.

(** [F] applied to the colour of every pixel; the alpha bytes (offsets 3,
    7, 11, ...) are kept. *)
Definition mapPixels (F : Triple → Triple) (d : list Z) : list Z :=
  imap
    (λ i c,
       match pixelAt d (i / 4) with
       | Some px =>
           let '(r, g, b) := F px in
           match (i mod 4)%nat with
           | 0%nat => r
           | 1%nat => g
           | 2%nat => b
           | _ => c
           end
       | None => c
       end)
    d.

(** [F] applied to the first [k] pixels. *)
Definition mapPixelsBelow (F : Triple → Triple) (k : nat) (d : list Z) : list Z :=
  imap
    (λ i c,
       if (i / 4 <? k)%nat then
         match pixelAt d (i / 4) with
         | Some px =>
             let '(r, g, b) := F px in
             match (i mod 4)%nat with
             | 0%nat => r
             | 1%nat => g
             | 2%nat => b
             | _ => c
             end
         | None => c
         end
       else c)
    d.

(** A per-channel body as a pixel operation. *)
Definition channelOp (f : float → float) : PixelOp :=
  λ '(r, g, b), Some (f r, f g, f b).

(** The loop bodies of the tone functions. *)
Definition exposureOp (exposure : float) : PixelOp :=
  channelOp (λ x, Math_min 255 (Math_round (x * exposure))).

Definition contrastOp (factor : float) : PixelOp :=
  channelOp (λ x, Math_max 0 (Math_min 255 (Math_round ((x - 128) * factor + 128)))).

Definition scurveOp (Math_pow : float → float → float)
    (strength shadowBoost highlightCompress midpoint : float) : PixelOp :=
  channelOp
    (λ x,
       let normalized := x / 255.0 in
       let result :=
         if normalized <=? midpoint then
           let shadowVal := normalized / midpoint in
           Math_pow shadowVal (1.0 - strength * shadowBoost) * midpoint
         else
           let highlightVal := (normalized - midpoint) / (1.0 - midpoint) in
           midpoint
           + Math_pow highlightVal (1.0 + strength * highlightCompress)
             * (1.0 - midpoint) in
       Math_round (Math_max 0 (Math_min 1 result) * 255)).

Definition saturationOp (saturation : float) : PixelOp :=
  λ '(r, g, b),
    let max := Math_max (Math_max r g) b / 255 in
    let min := Math_min (Math_min r g) b / 255 in
    let l := (max + min) / 2 in
    if max =? min then None
    else
      let dd := max - min in
      let s := if 0.5 <? l then dd / (2 - max - min) else dd / (max + min) in
      let h :=
        if max =? r / 255 then
          ((g / 255 - b / 255) / dd + (if g <? b then 6 else 0)) / 6
        else if max =? g / 255 then ((b / 255 - r / 255) / dd + 2) / 6
        else ((r / 255 - g / 255) / dd + 4) / 6 in
      let newS := Math_max 0 (Math_min 1 (s * saturation)) in
      let c := (1 - Math_abs (2 * l - 1)) * newS in
      let x := c * (1 - Math_abs (rem (h * 6) 2 - 1)) in
      let m := l - c / 2 in
      let hSector := Math_floor (h * 6) in
      let '(rPrime, gPrime, bPrime) :=
        if hSector =? 0 then (c, x, 0)
        else if hSector =? 1 then (x, c, 0)
        else if hSector =? 2 then (0, c, x)
        else if hSector =? 3 then (0, x, c)
        else if hSector =? 4 then (x, 0, c)
        else (c, 0, x) in
      Some (Math_round ((rPrime + m) * 255), Math_round ((gPrime + m) * 255),
            Math_round ((bPrime + m) * 255)).

Definition compressOp (Math_pow : float → float → float)
    (blackL whiteL : float) : PixelOp :=
  λ '(r, g, b),
    let '(l, a, bLab) := rgbToLab Math_pow r g b in
    let compressedL := blackL + (l / 100) * (whiteL - blackL) in
    Some (labToRgb Math_pow compressedL a bLab).

(** A pixel whose three channels are equal. *)
Definition isGray (px : Triple) : Prop := px.1.1 = px.1.2 ∧ px.1.2 = px.2.

(** A channel byte after the contrast adjustment. *)
Definition contrasted (factor : float) (c : Z) : Z :=
  ToUint8Clamp
    (Math_max 0 (Math_min 255 (Math_round ((Z2F c - 128) * factor + 128)))).

(** A 2 by 1 image: a gray pixel and an orange one. *)
Definition twoPixels : ImageData :=
  {| width := 2; height := 1;
     data := [90; 90; 90; 255; 200; 120; 40; 128]%Z |}.

(** The parameters of the "cdr" preset with the tone mode switched to the
    S-curve: the preset has none of the S-curve's own parameters. *)
Definition cdrWithScurve : ProcessingParams := {|
  exposure := Some 1.0;
  saturation := Some 1.0;
  toneMode := Some "scurve"%string;
  contrast := Some 1.0;
  strength := None;
  shadowBoost := None;
  highlightCompress := None;
  midpoint := None;
  colorMethod := Some "rgb"%string;
  ditherAlgorithm := Some "floyd-steinberg"%string;
  compressDynamicRange := Some true
|}.

(** The sample image of the dithering pass with another second row. *)
Definition sampleImage' : ImageData :=
  {| width := 2; height := 2;
     data := [10; 20; 30; 255; 200; 200; 200; 255;
              0; 255; 0; 255; 30; 30; 30; 255]%Z |}.

End PixelSpec.

(** ** EXIF orientation *)

Module ExifSpec.

Import JS Processor Transforms.
Local Open Scope Z_scope.

(** Where a fresh context on which [ctx.transform] was called with [m] draws
    the point [(x, y)]. *)
Definition transformPoint (m : Matrix) (p : Z * Z) : Z * Z :=
  (ma m * p.1 + mc m * p.2 + me m, mb m * p.1 + md m * p.2 + mf m).

(** The pixel at column [x] of row [y] is the unit square whose corners are
    these four points. *)
Definition corners (p : Z * Z) : list (Z * Z) :=
  [ (p.1, p.2); (p.1 + 1, p.2); (p.1, p.2 + 1); (p.1 + 1, p.2 + 1) ].

(** The transform carries the square of the pixel [p] onto the square of
    the pixel [q]: corners go to corners, and every corner is reached. *)
Definition carries (m : Matrix) (p q : Z * Z) : Prop :=
  ∀ c, c ∈ (transformPoint m <$> corners p) ↔ c ∈ corners q.

(** Where each EXIF orientation puts the pixel at column [x] of row [y] of
    a stored image of [w] by [h] pixels: 2 mirrors it left to right, 3 turns
    it by 180 degrees, 4 mirrors it top to bottom, 5 transposes it, 6 turns
    it by 90 degrees clockwise, 7 transposes it along the other diagonal,
    8 turns it by 90 degrees counter-clockwise. *)
Definition exifPixel (k : Z) (w h : Z) (p : Z * Z) : Z * Z :=
  let '(x, y) := p in
  if k =? 2 then (w - 1 - x, y)
  else if k =? 3 then (w - 1 - x, h - 1 - y)
  else if k =? 4 then (x, h - 1 - y)
  else if k =? 5 then (y, x)
  else if k =? 6 then (h - 1 - y, x)
  else if k =? 7 then (h - 1 - y, w - 1 - x)
  else if k =? 8 then (y, w - 1 - x)
  else (x, y).

(** The source pixel an orientation draws at the pixel [q]. *)
Definition exifSource (k : Z) (w h : Z) (q : Z * Z) : Z * Z :=
  let '(x, y) := q in
  if k =? 2 then (w - 1 - x, y)
  else if k =? 3 then (w - 1 - x, h - 1 - y)
  else if k =? 4 then (x, h - 1 - y)
  else if k =? 5 then (y, x)
  else if k =? 6 then (y, h - 1 - x)
  else if k =? 7 then (w - 1 - y, h - 1 - x)
  else if k =? 8 then (w - 1 - y, x)
  else (x, y).

(** The pixels of a [w] by [h] canvas. *)
Definition inCanvas (w h : nat) (p : Z * Z) : Prop :=
  0 ≤ p.1 < Z.of_nat w ∧ 0 ≤ p.2 < Z.of_nat h.

End ExifSpec.

(** ** Presets and parameters *)

Module RegistrySpec.

Import JS Palettes Presets Processor PresetRegistry.

(** A parameter set as a caller's object: every property present. *)
Definition asUser (p : ProcessingParams) : User.Params := {|
  User.exposure := Some (exposure p);
  User.saturation := Some (saturation p);
  User.toneMode := Some (toneMode p);
  User.contrast := Some (contrast p);
  User.strength := Some (strength p);
  User.shadowBoost := Some (shadowBoost p);
  User.highlightCompress := Some (highlightCompress p);
  User.midpoint := Some (midpoint p);
  User.colorMethod := Some (colorMethod p);
  User.ditherAlgorithm := Some (ditherAlgorithm p);
  User.compressDynamicRange := Some (compressDynamicRange p)
|}.

(** No property of the caller's object is set to [undefined]. *)
Definition noUndefined (u : User.Params) : Prop :=
  User.exposure u ≠ Some None ∧ User.saturation u ≠ Some None ∧
  User.toneMode u ≠ Some None ∧ User.contrast u ≠ Some None ∧
  User.strength u ≠ Some None ∧ User.shadowBoost u ≠ Some None ∧
  User.highlightCompress u ≠ Some None ∧ User.midpoint u ≠ Some None ∧
  User.colorMethod u ≠ Some None ∧ User.ditherAlgorithm u ≠ Some None ∧
  User.compressDynamicRange u ≠ Some None.

(** Every parameter has a value. *)
Definition complete (p : ProcessingParams) : Prop :=
  is_Some (exposure p) ∧ is_Some (saturation p) ∧ is_Some (toneMode p) ∧
  is_Some (contrast p) ∧ is_Some (strength p) ∧ is_Some (shadowBoost p) ∧
  is_Some (highlightCompress p) ∧ is_Some (midpoint p) ∧
  is_Some (colorMethod p) ∧ is_Some (ditherAlgorithm p) ∧
  is_Some (compressDynamicRange p).

(** The parameters a tone mode reads are all there, and the names are
    those the pipeline knows. *)
Definition usable (p : ProcessingParams) : Prop :=
  is_Some (exposure p) ∧ is_Some (saturation p) ∧
  is_Some (compressDynamicRange p) ∧
  ((toneMode p = Some "contrast"%string ∧ is_Some (contrast p)) ∨
   (toneMode p = Some "scurve"%string ∧ is_Some (strength p) ∧
    is_Some (shadowBoost p) ∧ is_Some (highlightCompress p) ∧
    is_Some (midpoint p))) ∧
  (colorMethod p = Some "rgb"%string ∨ colorMethod p = Some "lab"%string) ∧
  ∃ algorithm, ditherAlgorithm p = Some algorithm ∧
               is_Some (DIFFUSION_MATRICES !! algorithm).

(** The options with other processing parameters. *)
Definition withParams (p : ProcessingParams) (options : Options) : Options := {|
  displayWidth := displayWidth options;
  displayHeight := displayHeight options;
  palette := palette options;
  params := p;
  skipRotation := skipRotation options;
  skipDithering := skipDithering options;
  usePerceivedOutput := usePerceivedOutput options
|}.

(** The default options for a display of 4 by 2 pixels. *)
Definition smallDisplay : Options := {|
  displayWidth := 4;
  displayHeight := 2;
  palette := SPECTRA6;
  params := getDefaultParams;
  skipRotation := false;
  skipDithering := false;
  usePerceivedOutput := false
|}.

(** The default options for a display of 2 by 1 pixels. *)
Definition pairDisplay : Options := {|
  displayWidth := 2;
  displayHeight := 1;
  palette := SPECTRA6;
  params := getDefaultParams;
  skipRotation := false;
  skipDithering := false;
  usePerceivedOutput := false
|}.

(** A caller's object that sets the exposure only. *)
Definition onlyExposure (e : float) : User.Params := {|
  User.exposure := Some (Some e);
  User.saturation := None; User.toneMode := None; User.contrast := None;
  User.strength := None; User.shadowBoost := None;
  User.highlightCompress := None; User.midpoint := None;
  User.colorMethod := None; User.ditherAlgorithm := None;
  User.compressDynamicRange := None
|}.

End RegistrySpec.

(** ** Canvases for the BMP encoder *)

Module BitmapSamples.

Import Processor BitmapSpec.

(** The sample canvas with other alpha bytes. *)
Definition sampleCanvas' : Canvas :=
  {| cwidth := 3; cheight := 2;
     pixels := [1; 2; 3; 0; 5; 6; 7; 255; 9; 10; 11; 128;
                13; 14; 15; 0; 17; 18; 19; 64; 21; 22; 23; 200]%Z |}.

End BitmapSamples.

(** ** Proof automation *)

(** Division and remainder by a constant are linear arithmetic. *)
Ltac Zify.zify_post_hook ::= Z.to_euclidean_division_equations.

(** Case analysis on the comparisons of naturals in the goal. *)
Ltac bool_cases :=
  repeat match goal with
    | |- context [(?a <? ?b)%nat] => destruct (Nat.ltb_spec a b)
    | |- context [(?a =? ?b)%nat] => destruct (Nat.eqb_spec a b)
    end;
  simpl; try done; try lia.

(** Case analysis on the comparisons of integers and positives in the goal. *)
Ltac cmp_cases :=
  repeat match goal with
    | |- context [(?x ?= ?y)%Z] => destruct (Z.compare_spec x y)
    | |- context [(?x ?= ?y)%positive] => destruct (Pos.compare_spec x y)
    end.

(** Membership in the four corners of a pixel, one equation at a time. *)
Ltac corner_cases :=
  let c := fresh "c" in
  let H := fresh "H" in
  intros c; cbn [fmap list_fmap]; rewrite !elem_of_cons, !elem_of_nil;
  destruct c as [? ?];
  split; intros [H|[H|[H|[H|[]]]]]; injection H as -> ->; cbn [fst snd];
  first [ left; f_equal; lia
        | right; left; f_equal; lia
        | right; right; left; f_equal; lia
        | right; right; right; left; f_equal; lia ].

(** A name that is none of those listed. *)
Ltac not_listed :=
  cbn; rewrite ?not_elem_of_cons; repeat split; try discriminate;
  apply not_elem_of_nil.

(** * Theorems *)

(** ** Loops as folds *)

Module Loops.

Lemma fold_left_ext {A B : Type} (f g : A → B → A) (l : list B) (a : A) :
  (∀ a b, f a b = g a b) → fold_left f l a = fold_left g l a.
Proof.
  intros Hfg. revert a. induction l as [|b l IH]; intros a; simpl; [done|].
  by rewrite Hfg, IH.
Qed.

(** A property kept by every iteration holds after the loop. *)
Lemma fold_left_invariant {A B : Type} (P : A → Prop) (f : A → B → A)
    (l : list B) (a : A) :
  P a → (∀ a b, b ∈ l → P a → P (f a b)) → P (fold_left f l a).
Proof.
  revert a. induction l as [|b l IH]; intros a Ha Hf; simpl; [done|].
  apply IH; [apply Hf; [by left|done]|].
  intros a' b' Hb'. apply Hf. by right.
Qed.

(** Two nested counting loops visit the cells of a [w] by [h] grid in raster
    order. *)
Lemma row_loop {A : Type} (f : A → nat → nat → A) (w y n : nat) : ∀ k a,
  k + n ≤ w →
  fold_left (λ st x, f st y x) (seq k n) a
  = fold_left (λ st p, f st (p / w) (p mod w)) (seq (w * y + k) n) a.
Proof.
  induction n as [|n IH]; intros k a Hk; [done|].
  cbn [seq fold_left].
  rewrite <- (Nat.div_unique (w * y + k) w y k) by lia.
  rewrite <- (Nat.mod_unique (w * y + k) w y k) by lia.
  rewrite IH by lia. by rewrite Nat.add_succ_r.
Qed.

Lemma nested_loops {A : Type} (f : A → nat → nat → A) (w h : nat) (a : A) :
  fold_left (λ st y, fold_left (λ st x, f st y x) (seq 0 w) st) (seq 0 h) a
  = fold_left (λ st p, f st (p / w) (p mod w)) (seq 0 (w * h)) a.
Proof.
  induction h as [|h IH].
  - by rewrite Nat.mul_0_r.
  - rewrite seq_S, fold_left_app, IH. cbn [fold_left Nat.add].
    replace (w * S h) with (w * h + w) by lia.
    rewrite seq_app, fold_left_app. cbn [Nat.add].
    rewrite (row_loop f w h w 0) by lia. by rewrite Nat.add_0_r.
Qed.

End Loops.

(** ** Palette validation ([validatePalette], [parsePalette]) *)

Module PaletteValidation.

Import JS Palettes PaletteSpec.
Local Open Scope string_scope.

Lemma forEachColor_ok body colors :
  forEachColor body colors = Ok tt ↔ ∀ c, c ∈ colors → body c = Ok tt.
Proof.
  induction colors as [|c colors IH]; simpl.
  - split; [intros _ c Hc; inversion Hc | done].
  - split.
    + intros H c' Hc'. destruct (body c) as [[]|e] eqn:Hb; simpl in H; [|done].
      apply elem_of_cons in Hc' as [->|Hc']; [done|]. by apply IH.
    + intros H. rewrite (H c) by left. simpl. apply IH.
      intros c' Hc'. apply H. by right.
Qed.

Lemma forEachColor_throw body colors e :
  forEachColor body colors = Throw e → ∃ c, c ∈ colors ∧ body c = Throw e.
Proof.
  induction colors as [|c colors IH]; simpl; [done|].
  destruct (body c) as [[]|e'] eqn:Hb; simpl.
  - intros H. destruct (IH H) as (c' & Hc' & He). exists c'. split; [by right|done].
  - intros [= ->]. exists c. split; [by left|done].
Qed.

Lemma notNumber_false x : notNumber x = false ↔ ∃ f, x = JNum f.
Proof.
  split.
  - destruct x; try discriminate. eauto.
  - by intros [f ->].
Qed.

Lemma validateColor_ok palette name color :
  validateColor palette name color = Ok tt ↔
  ∃ c, getProp palette color = Ok c ∧ colorOk c.
Proof.
  unfold validateColor. split.
  - destruct (getProp palette color) as [c|e] eqn:Hc; simpl; [|done].
    destruct (truthy c) eqn:Ht; simpl; [|done].
    destruct c as [| |bb|f|s|l|props]; simpl in *; try done.
    destruct (notNumber (default JUndefined (props !! "r"))) eqn:Hr; [done|].
    destruct (notNumber (default JUndefined (props !! "g"))) eqn:Hg; [done|].
    destruct (notNumber (default JUndefined (props !! "b"))) eqn:Hb; [done|].
    apply notNumber_false in Hr as [fr Hr], Hg as [fg Hg], Hb as [fb Hb].
    rewrite Hr, Hg, Hb. simpl.
    destruct (PrimFloat.ltb fr 0) eqn:R1, (PrimFloat.ltb 255 fr) eqn:R2,
      (PrimFloat.ltb fg 0) eqn:G1, (PrimFloat.ltb 255 fg) eqn:G2,
      (PrimFloat.ltb fb 0) eqn:B1, (PrimFloat.ltb 255 fb) eqn:B2;
      simpl; try done.
    intros _. exists (JObj props). split; [done|]. exists props. split; [done|].
    intros ch Hch. unfold channelNames in Hch.
    assert (Hget : ∀ k f, default JUndefined (props !! k) = JNum f →
                          props !! k = Some (JNum f)).
    { intros k f. destruct (props !! k); simpl; [congruence|done]. }
    repeat (apply elem_of_cons in Hch as [->|Hch]);
      [exists (JNum fr)|exists (JNum fg)|exists (JNum fb)|inversion Hch];
      (split; [by apply Hget|]); eexists; (split; [done|]);
      unfold outOfRange; intros [|]; congruence.
  - intros (c & Hc & props & -> & Hch). rewrite Hc. simpl.
    destruct (Hch "r") as (xr & Hr & fr & -> & Rr); [set_solver|].
    destruct (Hch "g") as (xg & Hg & fg & -> & Rg); [set_solver|].
    destruct (Hch "b") as (xb & Hb & fb & -> & Rb); [set_solver|].
    rewrite Hr, Hg, Hb. simpl.
    unfold outOfRange in Rr, Rg, Rb.
    destruct (PrimFloat.ltb fr 0), (PrimFloat.ltb 255 fr),
      (PrimFloat.ltb fg 0), (PrimFloat.ltb 255 fg),
      (PrimFloat.ltb fb 0), (PrimFloat.ltb 255 fb); simpl; try done;
      exfalso; (apply Rr; by auto) || (apply Rg; by auto) || (apply Rb; by auto).
Qed.

Lemma isObject_inv v : isObject v → (∃ l, v = JArr l) ∨ (∃ props, v = JObj props).
Proof. intros [Ht Ho]. destruct v; simpl in *; try done; eauto. Qed.

Lemma isObject_test v :
  negb (truthy v) || negb (String.eqb (typeof v) "object") = false ↔ isObject v.
Proof.
  unfold isObject. destruct v as [| |[]|f|s|l|props]; simpl;
    try destruct (JS.truthy f); try destruct (String.eqb s ""); simpl;
    split; try done; try (intros [? ?]; done).
Qed.

Lemma validateColor_throw palette name color e :
  isObject palette →
  validateColor palette name color = Throw e →
  (truthy (prop palette color) = false ∧
   e = Error ("Missing required color in " ++ name ++ " palette: " ++ color)) ∨
  (∃ ch, ch ∈ channelNames ∧
     typeof (prop (prop palette color) ch) ≠ "number" ∧
     e = Error ("Invalid RGB values for " ++ name ++ "." ++ color)) ∨
  (∃ ch f, ch ∈ channelNames ∧
     prop (prop palette color) ch = JNum f ∧ outOfRange f ∧
     e = Error ("RGB values must be 0-255 for " ++ name ++ "." ++ color)).
Proof.
  intros Hobj. unfold validateColor.
  assert (∃ c, getProp palette color = Ok c) as [c Hc].
  { destruct (isObject_inv _ Hobj) as [[l ->]|[props ->]]; simpl; eauto. }
  unfold prop at 1 3 5. rewrite Hc. simpl.
  destruct (truthy c) eqn:Ht; simpl; [|intros [= <-]; by left].
  assert (∃ xr xg xb, getProp c "r" = Ok xr ∧ getProp c "g" = Ok xg ∧
                      getProp c "b" = Ok xb) as (xr & xg & xb & Hr & Hg & Hb).
  { destruct c; simpl in *; try done; eauto 10. }
  unfold prop. rewrite Hr, Hg, Hb. simpl.
  assert (Hch : ∀ ch x, ch ∈ channelNames → getProp c ch = Ok x →
            match getProp c ch with Ok x => x | Throw _ => JUndefined end = x).
  { intros ch x _ ->. done. }
  destruct (notNumber xr) eqn:Nr; simpl.
  { intros [= <-]. right; left. exists "r". rewrite Hr.
    split; [set_solver|]. split; [|done]. by destruct xr. }
  destruct (notNumber xg) eqn:Ng; simpl.
  { intros [= <-]. right; left. exists "g". rewrite Hg.
    split; [set_solver|]. split; [|done]. by destruct xg. }
  destruct (notNumber xb) eqn:Nb; simpl.
  { intros [= <-]. right; left. exists "b". rewrite Hb.
    split; [set_solver|]. split; [|done]. by destruct xb. }
  apply notNumber_false in Nr as [fr ->], Ng as [fg ->], Nb as [fb ->]. simpl.
  unfold outOfRange.
  destruct (PrimFloat.ltb fr 0) eqn:R1;
    [intros [= <-]; right; right; exists "r", fr; rewrite Hr;
     split; [set_solver|]; auto|].
  destruct (PrimFloat.ltb 255 fr) eqn:R2;
    [intros [= <-]; right; right; exists "r", fr; rewrite Hr;
     split; [set_solver|]; auto|].
  destruct (PrimFloat.ltb fg 0) eqn:G1;
    [intros [= <-]; right; right; exists "g", fg; rewrite Hg;
     split; [set_solver|]; auto|].
  destruct (PrimFloat.ltb 255 fg) eqn:G2;
    [intros [= <-]; right; right; exists "g", fg; rewrite Hg;
     split; [set_solver|]; auto|].
  destruct (PrimFloat.ltb fb 0) eqn:B1;
    [intros [= <-]; right; right; exists "b", fb; rewrite Hb;
     split; [set_solver|]; auto|].
  destruct (PrimFloat.ltb 255 fb) eqn:B2;
    [intros [= <-]; right; right; exists "b", fb; rewrite Hb;
     split; [set_solver|]; auto|].
  done.
Qed.

Lemma validateSinglePalette_ok p name :
  validateSinglePalette p name = Ok tt ↔ paletteOk p.
Proof.
  unfold validateSinglePalette. split.
  - destruct (negb (truthy p) || negb (String.eqb (typeof p) "object")) eqn:Ho;
      [done|].
    apply isObject_test, isObject_inv in Ho as [[l ->]|[props ->]].
    + intros H. exfalso.
      pose proof (proj1 (forEachColor_ok _ _) H "black") as Hb.
      apply validateColor_ok in Hb as (c & Hc & pr & -> & _); [|set_solver].
      done.
    + intros H. exists props. split; [done|]. intros color Hcolor.
      pose proof (proj1 (forEachColor_ok _ _) H color Hcolor) as Hb.
      apply validateColor_ok in Hb as (c & Hc & Hok). simpl in Hc.
      exists c. split; [|done].
      destruct (props !! color) as [c'|]; simpl in Hc; [congruence|].
      injection Hc as <-. by destruct Hok as (? & ? & _).
  - intros (props & -> & H).
    change (negb (truthy (JObj props))
            || negb (String.eqb (typeof (JObj props)) "object")) with false.
    cbv iota. apply forEachColor_ok.
    intros color Hcolor. apply validateColor_ok.
    destruct (H color Hcolor) as (c & Hc & Hok).
    exists c. split; [|done]. simpl. by rewrite Hc.
Qed.

Lemma validateSinglePalette_throw v name p e :
  name ∈ paletteNames → prop v name = p →
  validateSinglePalette p name = Throw e →
  ∃ msg, e = Error msg ∧ Offending v msg.
Proof.
  intros Hname Hp. unfold validateSinglePalette.
  destruct (negb (truthy p) || negb (String.eqb (typeof p) "object")) eqn:Ho.
  - intros [= <-]. eexists. split; [done|]. apply off_single; [done|].
    rewrite Hp. intros Hobj. apply isObject_test in Hobj. congruence.
  - apply isObject_test in Ho. intros H.
    apply forEachColor_throw in H as (color & Hcolor & H).
    apply validateColor_throw in H; [|done]. subst p.
    destruct H as [[Ht ->]|[(ch & Hch & Hty & ->)|(ch & f & Hch & Hf & Hr & ->)]];
      eexists; (split; [done|]).
    + by apply off_missing.
    + by eapply off_invalid.
    + by eapply off_range.
Qed.

Lemma validatePalette_ok v : validatePalette v = Ok true ↔ pairOk v.
Proof.
  unfold validatePalette. split.
  - destruct (negb (truthy v) || negb (String.eqb (typeof v) "object")) eqn:Ho;
      [done|].
    apply isObject_test, isObject_inv in Ho as [[l ->]|[props ->]]; [done|].
    simpl.
    destruct (props !! "theoretical") as [t|] eqn:Ht; simpl; [|done].
    destruct (truthy t); simpl; [|done].
    destruct (props !! "perceived") as [p|] eqn:Hp; simpl; [|done].
    destruct (truthy p); simpl; [|done].
    destruct (validateSinglePalette t "theoretical") as [[]|] eqn:Vt; [|done].
    destruct (validateSinglePalette p "perceived") as [[]|] eqn:Vp; [|done].
    intros _. exists props, t, p.
    by rewrite <- (validateSinglePalette_ok t "theoretical"),
      <- (validateSinglePalette_ok p "perceived").
  - intros (props & t & p & -> & Ht & Hp & Ot & Op). simpl.
    rewrite Ht, Hp. simpl.
    rewrite (proj2 (validateSinglePalette_ok t "theoretical") Ot).
    rewrite (proj2 (validateSinglePalette_ok p "perceived") Op).
    destruct Ot as (? & -> & _), Op as (? & -> & _). done.
Qed.

Lemma validatePalette_throw v e :
  validatePalette v = Throw e → ∃ msg, e = Error msg ∧ Offending v msg.
Proof.
  unfold validatePalette.
  destruct (negb (truthy v) || negb (String.eqb (typeof v) "object")) eqn:Ho.
  - intros [= <-]. eexists. split; [done|]. apply off_pair.
    intros Hobj. apply isObject_test in Hobj. congruence.
  - apply isObject_test in Ho.
    assert (∀ k, getProp v k = Ok (prop v k)) as Hget.
    { intros k. unfold prop.
      destruct (isObject_inv _ Ho) as [[l ->]|[props ->]]; done. }
    rewrite !Hget. simpl.
    destruct (truthy (prop v "theoretical")) eqn:Tt; simpl;
      [|intros [= <-]; eexists; split; [done|]; by apply off_theoretical].
    destruct (truthy (prop v "perceived")) eqn:Tp; simpl;
      [|intros [= <-]; eexists; split; [done|]; by apply off_perceived].
    destruct (validateSinglePalette (prop v "theoretical") "theoretical")
      as [[]|e1] eqn:Vt; simpl.
    + destruct (validateSinglePalette (prop v "perceived") "perceived")
        as [[]|e2] eqn:Vp; simpl; [done|].
      intros [= <-].
      eapply validateSinglePalette_throw; [| |exact Vp]; [set_solver|done].
    + intros [= <-].
      eapply validateSinglePalette_throw; [| |exact Vt]; [set_solver|done].
Qed.

Lemma validatePalette_result v :
  validatePalette v = Ok true ∨ ∃ e, validatePalette v = Throw e.
Proof.
  destruct (validatePalette v) as [[]|e] eqn:H; eauto.
  exfalso. revert H. unfold validatePalette.
  repeat (match goal with
          | |- context [if ?c then _ else _] => destruct c
          | |- context [getProp ?a ?k] => destruct (getProp a k)
          | |- context [validateSinglePalette ?a ?k] =>
              destruct (validateSinglePalette a k)
          end; simpl; try done).
Qed.

Lemma channelOk_nan : channelOk (JNum nan).
Proof. exists nan. split; [done|]. unfold outOfRange. by intros [|]. Qed.

Lemma colorOk_update c ch x :
  colorOk c → channelOk x → colorOk (updateProp c ch (λ _, x)).
Proof.
  intros (props & -> & H) Hx. simpl. eexists. split; [done|].
  intros ch' Hch'. destruct (decide (ch = ch')) as [->|Hne].
  - exists x. by rewrite lookup_insert_eq.
  - rewrite lookup_insert_ne by done. by apply H.
Qed.

Lemma paletteOk_update p color f :
  paletteOk p → (∀ c, colorOk c → colorOk (f c)) →
  paletteOk (updateProp p color f).
Proof.
  intros (props & -> & H) Hf. simpl. eexists. split; [done|].
  intros color' Hc'. destruct (H color' Hc') as (c & Hc & Hok).
  destruct (decide (color = color')) as [->|Hne].
  - rewrite lookup_insert_eq, Hc. simpl. eauto.
  - rewrite lookup_insert_ne by done. eauto.
Qed.

Lemma pairOk_update v name f :
  name ∈ paletteNames →
  pairOk v → (∀ p, paletteOk p → paletteOk (f p)) → pairOk (updateProp v name f).
Proof.
  intros Hname (props & t & p & -> & Ht & Hp & Ot & Op) Hf. simpl.
  unfold paletteNames in Hname.
  apply elem_of_cons in Hname as [->|Hname];
    [|apply elem_of_cons in Hname as [->|Hname]; [|inversion Hname]].
  - exists (<["theoretical" := f (default JUndefined (props !! "theoretical"))]> props),
      (f t), p.
    rewrite lookup_insert_eq, lookup_insert_ne, Ht by done. simpl.
    repeat split; auto.
  - exists (<["perceived" := f (default JUndefined (props !! "perceived"))]> props),
      t, (f p).
    rewrite lookup_insert_eq, lookup_insert_ne, Hp by done. simpl.
    repeat split; auto.
Qed.

(** C7: [validatePalette] returns [true] exactly on the palette pairs that
    have a [theoretical] and a [perceived] palette, each with the six colour
    roles, each role with numeric [r], [g], [b] not out of range (NaN, which
    no comparison finds out of range, included); on every other value it
    throws an [Error] whose message names a field that is at fault, and
    never another kind of error.  [parsePalette] returns the parsed value
    itself when it is accepted and throws the same error otherwise. *)
Theorem validatePalette_throws_iff_malformed (v : jsval) :
  (validatePalette v = Ok true ↔ pairOk v) ∧
  ((∃ e, validatePalette v = Throw e) ↔ ¬ pairOk v) ∧
  (∀ e, validatePalette v = Throw e → ∃ msg, e = Error msg ∧ Offending v msg) ∧
  (∀ JSON_parse s, JSON_parse s = Ok v →
     (pairOk v → parsePalette JSON_parse s = Ok v) ∧
     (∀ e, validatePalette v = Throw e → parsePalette JSON_parse s = Throw e)).
Proof.
  split; [apply validatePalette_ok|]. split; [|split].
  - split.
    + intros [e He] Hok. apply validatePalette_ok in Hok. congruence.
    + intros Hno. destruct (validatePalette_result v) as [Hok|He]; [|done].
      by apply validatePalette_ok in Hok.
  - apply validatePalette_throw.
  - intros JSON_parse s Hs. unfold parsePalette. rewrite Hs. simpl. split.
    + intros Hok. apply validatePalette_ok in Hok. by rewrite Hok.
    + intros e He. by rewrite He.
Qed.

Lemma validatePalette_throws_iff_malformed_witness :
  pairOk (pairValue SPECTRA6) ∧
  ∃ msg, Error "Palette must have a 'theoretical' property" = Error msg ∧
         Offending (JObj ∅) msg.
Proof.
  split.
  - apply (proj1 (proj1 (validatePalette_throws_iff_malformed (pairValue SPECTRA6)))).
    vm_compute. reflexivity.
  - apply (proj1 (proj2 (proj2 (validatePalette_throws_iff_malformed (JObj ∅))))).
    vm_compute. reflexivity.
Defined.

(** C10: a NaN channel passes validation.  [typeof NaN] is ["number"] and
    both range comparisons are false, so putting NaN in any channel of any
    colour role of either palette of an accepted pair leaves it accepted. *)
Theorem validatePalette_accepts_NaN (v : jsval) (name color ch : string) :
  name ∈ paletteNames → color ∈ requiredColors → ch ∈ channelNames →
  validatePalette v = Ok true →
  typeof (JNum nan) = "number" ∧
  ltNum (JNum nan) 0 = false ∧ gtNum (JNum nan) 255 = false ∧
  validatePalette (withChannel v name color ch (JNum nan)) = Ok true.
Proof.
  intros Hname _ _ Hv. split; [done|]. split; [done|]. split; [done|].
  apply validatePalette_ok. apply validatePalette_ok in Hv.
  unfold withChannel. apply pairOk_update; [done..|].
  intros p Hp. apply paletteOk_update; [done|].
  intros c Hc. apply colorOk_update; [done|]. apply channelOk_nan.
Qed.

Lemma validatePalette_accepts_NaN_witness :
  validatePalette
    (withChannel (pairValue SPECTRA6) "theoretical" "black" "r" (JNum nan))
  = Ok true.
Proof.
  apply (validatePalette_accepts_NaN (pairValue SPECTRA6)
           "theoretical" "black" "r").
  - unfold paletteNames. set_solver.
  - unfold requiredColors. set_solver.
  - unfold channelNames. set_solver.
  - vm_compute. reflexivity.
Defined.

End PaletteValidation.

(** ** Order facts on binary64 numbers *)

Module FloatOrder.

Local Open Scope float_scope.

Lemma SFltb_trans a b c :
  SFltb a b = true → SFltb b c = true → SFltb a c = true.
Proof.
  unfold SFltb, SFcompare.
  change PosDef.Pos.compare_cont with Pos.compare_cont.
  change (Pos.compare_cont Eq) with Pos.compare.
  destruct a as [sa|sa| |sa ma ea], b as [sb|sb| |sb mb eb],
    c as [sc|sc| |sc mc ec];
    repeat match goal with s : bool |- _ => destruct s end;
    simpl; try done; cmp_cases; simpl; try done; try lia.
Qed.

Lemma SFleb_ltb_trans a b c :
  SFleb a b = true → SFltb b c = true → SFltb a c = true.
Proof.
  unfold SFleb, SFltb, SFcompare.
  change PosDef.Pos.compare_cont with Pos.compare_cont.
  change (Pos.compare_cont Eq) with Pos.compare.
  destruct a as [sa|sa| |sa ma ea], b as [sb|sb| |sb mb eb],
    c as [sc|sc| |sc mc ec];
    repeat match goal with s : bool |- _ => destruct s end;
    simpl; try done; cmp_cases; simpl; try done; try lia.
Qed.

Lemma SFltb_infinity a b :
  SFltb a b = true → SFltb a (S754_infinity false) = true.
Proof.
  unfold SFltb, SFcompare.
  destruct a as [sa|sa| |sa ma ea], b as [sb|sb| |sb mb eb];
    repeat match goal with s : bool |- _ => destruct s end; simpl; done.
Qed.

Lemma SFltb_irrefl a : SFltb a a = false.
Proof.
  unfold SFltb, SFcompare.
  change PosDef.Pos.compare_cont with Pos.compare_cont.
  change (Pos.compare_cont Eq) with Pos.compare.
  destruct a as [sa|sa| |sa ma ea];
    repeat match goal with s : bool |- _ => destruct s end;
    simpl; try done; rewrite Z.compare_refl, Pos.compare_refl; done.
Qed.

Lemma ltb_irrefl a : (a <? a) = false.
Proof. rewrite FloatAxioms.ltb_spec. apply SFltb_irrefl. Qed.

Lemma ltb_trans a b c : (a <? b) = true → (b <? c) = true → (a <? c) = true.
Proof. rewrite !FloatAxioms.ltb_spec. apply SFltb_trans. Qed.

Lemma leb_ltb_trans a b c : (a <=? b) = true → (b <? c) = true → (a <? c) = true.
Proof. rewrite FloatAxioms.leb_spec, !FloatAxioms.ltb_spec. apply SFleb_ltb_trans. Qed.

Lemma ltb_infinity a b : (a <? b) = true → (a <? infinity) = true.
Proof.
  rewrite !FloatAxioms.ltb_spec.
  change (Prim2SF infinity) with (S754_infinity false).
  apply SFltb_infinity.
Qed.

End FloatOrder.

(** ** Closest-colour search ([findClosestColorRGB], [findClosestColorLAB]) *)

Module Matching.

Import JS Palettes Processor MatchSpec FloatOrder.
Local Open Scope float_scope.

Lemma closestStep_searched dist n st :
  searched dist n st → searched dist (S n) (closestStep dist st n).
Proof.
  intros [Hmin Hsel]. unfold closestStep.
  destruct (Nat.eqb_spec n 4) as [->|Hn4].
  { split.
    - intros i Hi Hi4. apply Hmin; lia.
    - destruct Hsel as [?|(? & ? & ? & ? & ?)]; [by left|right].
      repeat split; auto with lia. }
  destruct (dist n <? fst st) eqn:Hlt.
  - split; simpl.
    + intros i Hi Hi4. destruct (decide (i = n)) as [->|Hne].
      * apply ltb_irrefl.
      * destruct (dist i <? dist n) eqn:Hin; [|done].
        rewrite <- (Hmin i) by lia. symmetry. by eapply ltb_trans.
    + right. repeat split; [lia|done|by eapply ltb_infinity|].
      intros i Hi Hi4. destruct (dist i <=? dist n) eqn:Hin; [|done].
      rewrite <- (Hmin i) by lia. symmetry. by eapply leb_ltb_trans.
  - split.
    + intros i Hi Hi4. destruct (decide (i = n)) as [->|Hne]; [done|].
      apply Hmin; lia.
    + destruct Hsel as [?|(? & ? & ? & ? & ?)]; [by left|right].
      repeat split; auto with lia.
Qed.

Lemma closestLoop_searched dist len : searched dist len (closestLoop dist len).
Proof.
  unfold closestLoop. induction len as [|n IH].
  - split; [intros; lia|by left].
  - rewrite seq_S, fold_left_app. simpl. by apply closestStep_searched.
Qed.

Lemma closestLoop_ext dist dist' len :
  (∀ i, i ≠ 4%nat → dist i = dist' i) →
  closestLoop dist len = closestLoop dist' len.
Proof.
  intros Hd. unfold closestLoop. generalize (infinity, 1%nat).
  induction (seq 0 len) as [|i l IH]; intros st; simpl; [done|].
  rewrite IH. f_equal. unfold closestStep.
  destruct (Nat.eqb_spec i 4); [done|]. by rewrite Hd.
Qed.

Lemma active_slot i : (i < 7)%nat → i ≠ 4%nat → i ∈ activeSlots.
Proof.
  intros Hi H4. unfold activeSlots.
  do 7 (destruct i as [|i]; [set_solver|]). lia.
Qed.

Lemma active_slot_inv i : i ∈ activeSlots → (i < 7)%nat ∧ i ≠ 4%nat.
Proof.
  unfold activeSlots. intros H.
  repeat (apply elem_of_cons in H as [->|H]; [lia|]). inversion H.
Qed.

(** What the loop returns over a 7-slot array, for any distance. *)
Lemma closestLoop_spec dist :
  let k := snd (closestLoop dist 7) in
  k ∈ activeSlots ∧
  (∀ i, i ∈ activeSlots → (dist i <? dist k) = false) ∧
  ((dist k <? infinity) = true →
   ∀ i, i ∈ activeSlots → (i < k)%nat → (dist i <=? dist k) = false) ∧
  ((∀ i, i ∈ activeSlots → (dist i <? infinity) = false) → k = 1%nat).
Proof.
  intros k. subst k.
  destruct (closestLoop_searched dist 7) as [Hmin Hsel].
  destruct (closestLoop dist 7) as [m k]. simpl in *.
  destruct Hsel as [[-> ->]|(Hk & Hk4 & -> & Hfin & Hfirst)].
  - split; [unfold activeSlots; set_solver|]. split; [|split; [|done]].
    + intros i Hi. apply active_slot_inv in Hi as [Hi Hi4].
      destruct (dist i <? dist 1%nat) eqn:Hlt; [|done].
      rewrite <- (Hmin i) by done. symmetry. by eapply ltb_infinity.
    + intros Hfin i Hi Hlt. apply active_slot_inv in Hi as [Hi Hi4].
      assert (Hinf : (dist 1%nat <? infinity) = false) by (apply Hmin; lia).
      congruence.
  - split; [by apply active_slot|]. split; [|split].
    + intros i Hi. apply active_slot_inv in Hi as [Hi Hi4]. by apply Hmin.
    + intros _ i Hi Hlt. apply active_slot_inv in Hi as [Hi Hi4].
      by apply Hfirst.
    + intros Hall. rewrite Hall in Hfin; [done|]. by apply active_slot.
Qed.

Lemma distRGB_agree r g b (p q : list Triple) i :
  p !! i = q !! i → distRGB r g b p i = distRGB r g b q i.
Proof. unfold distRGB. by intros ->. Qed.

Lemma distLAB_agree lab (p q : list Lab) i :
  p !! i = q !! i → distLAB lab p i = distLAB lab q i.
Proof. unfold distLAB. by intros ->. Qed.

(** Over a 7-slot array either search returns an active slot. *)
Lemma findClosestColor_active Math_pow r g b method
    (paletteArray : list Triple) (paletteLab : list Lab) :
  length paletteArray = 7%nat →
  findClosestColor Math_pow r g b method paletteArray paletteLab ∈ activeSlots.
Proof.
  intros Hlen.
  unfold findClosestColor, findClosestColorLAB, findClosestColorRGB.
  rewrite Hlen. destruct (String.eqb method "lab"); apply closestLoop_spec.
Qed.

(** C6: over a 7-slot palette array both searches return an active slot
    (0, 1, 2, 3, 5 or 6, never the reserved slot 4); no active slot has a
    smaller distance than the returned one; when some comparison succeeded,
    every earlier active slot has a strictly larger (or NaN) distance, so
    the first minimum in slot order wins; when no comparison succeeds, or
    the array is empty, the result is the default slot 1; and the content
    of slot 4 has no influence on the result. *)
Theorem findClosestColor_skips_reserved_and_minimises
    (Math_pow : float → float → float) (r g b : float)
    (paletteArray : list Triple) (paletteLab : list Lab) :
  length paletteArray = 7%nat → length paletteLab = 7%nat →
  let kRGB := findClosestColorRGB r g b paletteArray in
  let dRGB := distRGB r g b paletteArray in
  let kLAB := findClosestColorLAB Math_pow r g b paletteArray paletteLab in
  let dLAB := distLAB (rgbToLab Math_pow r g b) paletteLab in
  (kRGB ∈ activeSlots ∧ kLAB ∈ activeSlots) ∧
  (∀ i, i ∈ activeSlots →
     (dRGB i <? dRGB kRGB) = false ∧ (dLAB i <? dLAB kLAB) = false) ∧
  ((dRGB kRGB <? infinity) = true →
   ∀ i, i ∈ activeSlots → (i < kRGB)%nat → (dRGB i <=? dRGB kRGB) = false) ∧
  ((dLAB kLAB <? infinity) = true →
   ∀ i, i ∈ activeSlots → (i < kLAB)%nat → (dLAB i <=? dLAB kLAB) = false) ∧
  ((∀ i, i ∈ activeSlots → (dRGB i <? infinity) = false) → kRGB = 1%nat) ∧
  ((∀ i, i ∈ activeSlots → (dLAB i <? infinity) = false) → kLAB = 1%nat) ∧
  (∀ paletteArray', agreeExceptReserved paletteArray paletteArray' →
     findClosestColorRGB r g b paletteArray' = kRGB) ∧
  (∀ paletteArray' paletteLab',
     length paletteArray' = 7%nat → agreeExceptReserved paletteLab paletteLab' →
     findClosestColorLAB Math_pow r g b paletteArray' paletteLab' = kLAB) ∧
  findClosestColorRGB r g b [] = 1%nat ∧
  findClosestColorLAB Math_pow r g b [] paletteLab = 1%nat.
Proof.
  intros Hlen HlenLab kRGB dRGB kLAB dLAB.
  subst kRGB kLAB. unfold findClosestColorRGB, findClosestColorLAB.
  rewrite Hlen. fold dRGB dLAB.
  destruct (closestLoop_spec dRGB) as (R1 & R2 & R3 & R4).
  destruct (closestLoop_spec dLAB) as (L1 & L2 & L3 & L4).
  repeat split; auto.
  - intros p' [Hl Hagree]. rewrite <- Hl, Hlen. f_equal.
    apply closestLoop_ext. intros i Hi. symmetry.
    apply distRGB_agree. by apply Hagree.
  - intros p' l' Hl' [_ Hagree]. rewrite Hl'. f_equal.
    apply closestLoop_ext. intros i Hi. symmetry.
    apply distLAB_agree. by apply Hagree.
Qed.

Lemma findClosestColor_skips_reserved_and_minimises_witness :
  findClosestColorRGB 200 10 10 (paletteToArray (perceived SPECTRA6))
    ∈ activeSlots ∧
  findClosestColorLAB (λ x _, x) 200 10 10 (paletteToArray (perceived SPECTRA6))
    (replicate 7 (50, 0, 0)) ∈ activeSlots.
Proof.
  apply (findClosestColor_skips_reserved_and_minimises (λ x _, x) 200 10 10
           (paletteToArray (perceived SPECTRA6)) (replicate 7 (50, 0, 0))).
  - reflexivity.
  - reflexivity.
Defined.

End Matching.

(** ** Tone adjustment ([preprocessImage]) *)

Module Tone.

Import JS Palettes Presets Processor ToneSpec Loops.
Local Open Scope float_scope.

(** A channel update reads and writes the same element. *)
Lemma exposeChannel_alter e d i :
  exposeChannel e d i = alter (exposed e) i d.
Proof.
  unfold exposeChannel, writeU8, readU8, exposed.
  destruct (d !! i) as [v|] eqn:Hi.
  - apply list_eq. intros j. destruct (decide (i = j)) as [->|Hne].
    + rewrite list_lookup_alter_eq, Hi. simpl.
      apply list_lookup_insert_eq. by eapply lookup_lt_Some.
    + by rewrite list_lookup_insert_ne, list_lookup_alter_ne.
  - apply lookup_ge_None in Hi.
    rewrite list_insert_ge by done.
    apply list_eq. intros j. destruct (decide (i = j)) as [->|Hne].
    + rewrite list_lookup_alter_eq. by rewrite (proj2 (lookup_ge_None d j)).
    + by rewrite list_lookup_alter_ne.
Qed.

Lemma mapRGBBelow_step f k d :
  alter f (4 * k + 2)%nat (alter f (4 * k + 1)%nat (alter f (4 * k)%nat
    (mapRGBBelow f (4 * k) d)))
  = mapRGBBelow f (4 * S k) d.
Proof.
  apply list_eq. intros j. unfold mapRGBBelow.
  rewrite list_lookup_imap.
  destruct (decide (j = 4 * k + 2)%nat) as [->|H2].
  { rewrite list_lookup_alter_eq, !list_lookup_alter_ne by lia.
    rewrite list_lookup_imap. destruct (d !! _); [|done]. cbn [fmap option_fmap option_map].
    bool_cases. }
  rewrite list_lookup_alter_ne by done.
  destruct (decide (j = 4 * k + 1)%nat) as [->|H1].
  { rewrite list_lookup_alter_eq, !list_lookup_alter_ne by lia.
    rewrite list_lookup_imap. destruct (d !! _); [|done]. cbn [fmap option_fmap option_map].
    bool_cases. }
  rewrite list_lookup_alter_ne by done.
  destruct (decide (j = 4 * k)%nat) as [->|H0].
  { rewrite list_lookup_alter_eq. rewrite list_lookup_imap.
    destruct (d !! _); [|done]. cbn [fmap option_fmap option_map].
    bool_cases. }
  rewrite list_lookup_alter_ne by done. rewrite list_lookup_imap.
  destruct (d !! j); [|done]. cbn [fmap option_fmap option_map].
  bool_cases.
Qed.

Lemma fold_channels f (d0 : list Z) k :
  fold_left (λ d i, alter f (i + 2)%nat (alter f (i + 1)%nat (alter f i d)))
    ((λ k, 4 * k)%nat <$> seq 0 k) d0
  = mapRGBBelow f (4 * k) d0.
Proof.
  induction k as [|k IH].
  - simpl. unfold mapRGBBelow. apply list_eq. intros j.
    rewrite list_lookup_imap. by destruct (d0 !! j).
  - rewrite seq_S, fmap_app, fold_left_app, IH. simpl.
    apply mapRGBBelow_step.
Qed.

Lemma mapRGBBelow_all f d n :
  (length d ≤ n)%nat → mapRGBBelow f n d = mapRGB f d.
Proof.
  intros Hn. apply list_eq. intros j. unfold mapRGBBelow, mapRGB.
  rewrite !list_lookup_imap. destruct (d !! j) eqn:Hj; [|done].
  cbn [fmap option_fmap option_map].
  apply lookup_lt_Some in Hj.
  bool_cases.
Qed.

Lemma applyExposure_spec imageData e :
  applyExposure imageData e = exposureAsSpecified e imageData.
Proof.
  unfold applyExposure, exposureAsSpecified.
  destruct (e =? 1.0); [done|]. f_equal.
  rewrite <- (mapRGBBelow_all _ _ (4 * ((length (data imageData) + 3) / 4))) by lia.
  rewrite <- fold_channels. unfold pixelOffsets.
  apply fold_left_ext. intros d i. by rewrite !exposeChannel_alter.
Qed.

Lemma stepExposure_spec params imageData :
  stepExposure params imageData = exposureAsRun (exposure params) imageData.
Proof.
  unfold stepExposure, exposureAsRun, setAndNotOne.
  destruct (exposure params) as [e|]; [|done]. simpl.
  rewrite applyExposure_spec. unfold exposureAsSpecified.
  destruct (JS.truthy e); [|done]. simpl. by destruct (e =? 1.0).
Qed.

(** The first three steps with neutral parameters. *)
Lemma neutral_steps Math_pow params imageData :
  exposure params = Some 1.0 → saturation params = Some 1.0 →
  toneModeOf params = "contrast"%string → contrast params = Some 1.0 →
  stepTone Math_pow params (stepSaturation params (stepExposure params imageData))
  = imageData.
Proof.
  intros He Hs Ht Hc. unfold stepTone, stepSaturation, stepExposure.
  by rewrite He, Hs, Ht, Hc.
Qed.

(** C8 (amended): [applyExposure] replaces every R, G and B byte by the
    byte times [e], rounded, clamped to 255 and stored back, and leaves the
    image alone exactly when [e === 1.0]; the exposure step of
    [preprocessImage] calls it only for a multiplier that is present,
    truthy and not 1.0, so it is skipped when [e] is 1.0 and also when [e]
    is 0, NaN or absent. *)
Theorem exposure_step_scales_unless_one_or_falsy
    (imageData : ImageData) (params : ProcessingParams) :
  (∀ e, applyExposure imageData e = exposureAsSpecified e imageData) ∧
  stepExposure params imageData = exposureAsRun (exposure params) imageData.
Proof.
  split; [intros e; apply applyExposure_spec|apply stepExposure_spec].
Qed.

(** C8 as stated fails for the multiplier 0: the step is skipped and the
    pixel (10, 20, 30) is kept, where multiplying by 0 gives (0, 0, 0). *)
Lemma exposure_zero_is_skipped :
  stepExposure (withExposure 0 getDefaultParams) (onePixel 10 20 30)
    = onePixel 10 20 30 ∧
  exposureAsSpecified 0 (onePixel 10 20 30) = onePixel 0 0 0 ∧
  stepExposure (withExposure 0 getDefaultParams) (onePixel 10 20 30)
    ≠ exposureAsSpecified 0 (onePixel 10 20 30).
Proof.
  assert (H1 : stepExposure (withExposure 0 getDefaultParams) (onePixel 10 20 30)
               = onePixel 10 20 30) by (vm_compute; reflexivity).
  assert (H2 : exposureAsSpecified 0 (onePixel 10 20 30) = onePixel 0 0 0)
    by (vm_compute; reflexivity).
  split; [done|]. split; [done|]. rewrite H1, H2. discriminate.
Qed.

(** C5 (amended): with exposure 1.0, saturation 1.0, contrast mode and
    contrast 1.0 the tone adjustment leaves the buffer identical provided
    dynamic-range compression is off or no perceived palette is supplied;
    under [getDefaultParams], which turns the compression on, it is exactly
    the compression step that runs. *)
Theorem preprocessImage_identity_without_compression
    (Math_pow : float → float → float) (imageData : ImageData)
    (params : ProcessingParams) (perceivedPalette : option Palette) :
  (exposure params = Some 1.0 → saturation params = Some 1.0 →
   toneModeOf params = "contrast"%string → contrast params = Some 1.0 →
   compressDynamicRange params ≠ Some true ∨ perceivedPalette = None →
   preprocessImage Math_pow imageData params perceivedPalette = imageData) ∧
  preprocessImage Math_pow imageData getDefaultParams perceivedPalette
  = stepCompress Math_pow getDefaultParams perceivedPalette imageData.
Proof.
  split.
  - intros He Hs Ht Hc Hoff. unfold preprocessImage.
    rewrite neutral_steps by done. unfold stepCompress.
    destruct Hoff as [Hoff| ->].
    + destruct (compressDynamicRange params) as [[]|]; done.
    + by destruct (compressDynamicRange params) as [[]|].
  - unfold preprocessImage. by rewrite neutral_steps.
Qed.

Lemma preprocessImage_identity_without_compression_witness :
  preprocessImage (λ x _, x) (onePixel 10 20 30) getDefaultParams None
  = onePixel 10 20 30.
Proof.
  apply (proj1 (preprocessImage_identity_without_compression
                  (λ x _, x) (onePixel 10 20 30) getDefaultParams None)).
  - reflexivity.
  - reflexivity.
  - reflexivity.
  - reflexivity.
  - right. reflexivity.
Defined.

(** Under the default parameters and a perceived palette a black pixel
    becomes (2, 2, 2), whatever [Math.pow] computes. *)
Lemma default_params_compress_black Math_pow :
  preprocessImage Math_pow (onePixel 0 0 0) getDefaultParams (Some dimPalette)
  = onePixel 2 2 2.
Proof. vm_compute. reflexivity. Qed.

(** C5 as stated fails: for no [Math.pow] do the default parameters leave
    every buffer identical. *)
Lemma default_params_change_pixels :
  ¬ ∃ Math_pow, ∀ imageData perceivedPalette,
      preprocessImage Math_pow imageData getDefaultParams perceivedPalette
      = imageData.
Proof.
  intros [Math_pow H].
  specialize (H (onePixel 0 0 0) (Some dimPalette)).
  rewrite default_params_compress_black in H. discriminate.
Qed.

End Tone.

(** ** The pipeline entry point ([processImage]) *)

Module Pipeline.

Import JS Palettes Presets Processor PipelineSpec.

Section WithPlatform.

Variable Math_pow : float → float → float.
Variable drawImage : Canvas → nat → nat → list Z.
Variable drawRotated : Canvas → list Z.
Variable drawCover : Canvas → nat → nat → list Z.
Variable storedPixels : ImageData → list Z.

Local Abbreviation processImage :=
  (Processor.processImage Math_pow drawImage drawRotated drawCover storedPixels).
Local Abbreviation loadSource := (Processor.loadSource drawImage storedPixels).
Local Abbreviation orientCanvas := (Processor.orientCanvas drawRotated).
Local Abbreviation fitCanvas := (Processor.fitCanvas drawCover).

Lemma loadSource_size source :
  cwidth (loadSource source) = sourceWidth source ∧
  cheight (loadSource source) = sourceHeight source.
Proof. by destruct source. Qed.

Lemma isPortrait_loadSource source :
  isPortraitCanvas (loadSource source) = isPortraitSource source.
Proof. by destruct source. Qed.

Lemma fitCanvas_size options isPortrait canvas :
  (cwidth (fitCanvas options isPortrait canvas),
   cheight (fitCanvas options isPortrait canvas))
  = finalSize options isPortrait.
Proof.
  unfold Processor.fitCanvas.
  destruct (finalSize options isPortrait) as [fw fh]. cbn beta iota.
  destruct (Nat.eqb_spec (cwidth canvas) fw) as [Hw|Hw]; simpl; [|done].
  destruct (Nat.eqb_spec (cheight canvas) fh) as [Hh|Hh]; simpl; [|done].
  by rewrite Hw, Hh.
Qed.

Lemma processImage_size source options :
  (cwidth (fst (processImage source options)),
   cheight (fst (processImage source options)))
  = finalSize options (isPortraitSource source).
Proof.
  unfold Processor.processImage. simpl.
  rewrite <- isPortrait_loadSource. apply fitCanvas_size.
Qed.

(** C9 (amended): [processImage] does rotate and resize.  A portrait
    source is rotated by 90 degrees unless [skipRotation] is set, and the
    canvas is resized whenever its size differs from the display's, so the
    returned canvas always has the display dimensions ([displayWidth] by
    [displayHeight], swapped for an unrotated portrait source on a landscape
    display); it has the source's size exactly when the source already had
    those dimensions.  Only the original canvas keeps the source's size. *)
Theorem processImage_output_has_display_size (source : Source) (options : Options) :
  let result := processImage source options in
  let loaded := loadSource source in
  let isPortrait := isPortraitSource source in
  (cwidth (fst result), cheight (fst result)) = finalSize options isPortrait ∧
  sameSize (snd result) source ∧
  (sameSize (fst result) source ↔
   finalSize options isPortrait = (sourceWidth source, sourceHeight source)) ∧
  orientCanvas options loaded
  = (if isPortrait && negb (skipRotation options)
     then rotate90Clockwise drawRotated loaded else loaded) ∧
  (∀ canvas,
     fitCanvas options isPortrait canvas
     = if bool_decide ((cwidth canvas, cheight canvas) = finalSize options isPortrait)
       then canvas
       else resizeImageCover drawCover canvas
              (fst (finalSize options isPortrait))
              (snd (finalSize options isPortrait))).
Proof.
  intros result loaded isPortrait. subst result loaded isPortrait.
  pose proof (processImage_size source options) as Hsize.
  split; [done|]. split; [|split; [|split]].
  - unfold sameSize. simpl. apply loadSource_size.
  - unfold sameSize. split.
    + intros [Hw Hh]. by rewrite <- Hsize, Hw, Hh.
    + intros Hfs. rewrite Hfs in Hsize. by injection Hsize.
  - unfold Processor.orientCanvas. by rewrite isPortrait_loadSource.
  - intros canvas. unfold Processor.fitCanvas.
    destruct (finalSize options (isPortraitSource source)) as [fw fh]. simpl.
    destruct (Nat.eqb_spec (cwidth canvas) fw) as [Hw|Hw]; simpl.
    + destruct (Nat.eqb_spec (cheight canvas) fh) as [Hh|Hh]; simpl.
      * rewrite bool_decide_eq_true_2; [done|]. by rewrite Hw, Hh.
      * rewrite bool_decide_eq_false_2; [done|]. by intros [= ? ?].
    + rewrite bool_decide_eq_false_2; [done|]. by intros [= ? ?].
Qed.

End WithPlatform.

(** C9 as stated fails: a 1000 by 600 source processed with the default
    options comes back 800 by 480, whatever the platform's drawing
    operations do. *)
Lemma processImage_resizes_to_display :
  ¬ ∃ Math_pow drawImage drawRotated drawCover storedPixels, ∀ source options,
      sameSize
        (fst (processImage Math_pow drawImage drawRotated drawCover storedPixels
                source options))
        source.
Proof.
  intros (Math_pow & drawImage & drawRotated & drawCover & storedPixels & H).
  destruct (H landscapeSource defaultOptions) as [Hw _].
  pose proof (processImage_size Math_pow drawImage drawRotated drawCover
                storedPixels landscapeSource defaultOptions) as Hsize.
  apply (f_equal fst) in Hsize.
  change (cwidth (fst (processImage Math_pow drawImage drawRotated drawCover
                         storedPixels landscapeSource defaultOptions)) = 800%nat)
    in Hsize.
  rewrite Hw in Hsize. discriminate Hsize.
Qed.

End Pipeline.

(** ** The BMP encoder ([createBMP]) *)

Module Bitmap.

Import JS Processor BitmapSpec Loops.
Local Open Scope Z_scope.

(** *** The pixel loop fills the buffer from the running offset *)

Lemma bmpPixel_spec w d y x (pre zs : list Z) :
  (3 ≤ length zs)%nat →
  bmpPixel w d y (pre ++ zs, length pre) x
  = (pre ++ pixelBytes w d y x ++ drop 3 zs, (length pre + 3)%nat).
Proof.
  intros Hlen. destruct zs as [|z0 [|z1 [|z2 zs]]]; simpl in Hlen; try lia.
  unfold bmpPixel, storeByte, pixelBytes. f_equal.
  rewrite !insert_app_r_alt by lia.
  replace (length pre - length pre)%nat with 0%nat by lia.
  replace (length pre + 1 - length pre)%nat with 1%nat by lia.
  replace (length pre + 2 - length pre)%nat with 2%nat by lia.
  done.
Qed.

Lemma bmpPixels_spec w d y n : ∀ x0 (pre zs : list Z),
  (3 * n ≤ length zs)%nat →
  fold_left (bmpPixel w d y) (seq x0 n) (pre ++ zs, length pre)
  = (pre ++ concat (pixelBytes w d y <$> seq x0 n) ++ drop (3 * n) zs,
     (length pre + 3 * n)%nat).
Proof.
  induction n as [|n IH]; intros x0 pre zs Hlen.
  - simpl. by rewrite Nat.add_0_r.
  - cbn [seq fold_left]. rewrite bmpPixel_spec by lia.
    replace (length pre + 3)%nat with (length (pre ++ pixelBytes w d y x0))
      by (rewrite length_app; done).
    rewrite (app_assoc pre). rewrite IH by (rewrite length_drop; lia).
    rewrite drop_drop, length_app. cbn [fmap list_fmap concat].
    rewrite <- !app_assoc.
    replace (3 + 3 * n)%nat with (3 * S n)%nat by lia.
    f_equal. change (length (pixelBytes w d y x0)) with 3%nat. lia.
Qed.

Lemma bmpPad_spec p : ∀ x0 (pre zs : list Z),
  (p ≤ length zs)%nat →
  fold_left bmpPad (seq x0 p) (pre ++ zs, length pre)
  = (pre ++ replicate p 0 ++ drop p zs, (length pre + p)%nat).
Proof.
  induction p as [|p IH]; intros x0 pre zs Hlen.
  - simpl. by rewrite Nat.add_0_r.
  - destruct zs as [|z zs]; simpl in Hlen; [lia|].
    cbn [seq fold_left bmpPad].
    rewrite insert_app_r_alt by lia.
    replace (length pre - length pre)%nat with 0%nat by lia.
    cbn [insert list_insert].
    replace (length pre + 1)%nat with (length (pre ++ [0]))
      by (rewrite length_app; done).
    replace (pre ++ 0 :: zs) with ((pre ++ [0]) ++ zs) by (by rewrite <- app_assoc).
    rewrite IH by lia. rewrite length_app. simpl.
    rewrite <- app_assoc. simpl. f_equal. lia.
Qed.

Lemma rowSizeOf_ge w : (w * 3 ≤ rowSizeOf w)%nat.
Proof. unfold rowSizeOf. lia. Qed.

Lemma length_pixels w d y n x0 :
  length (concat (pixelBytes w d y <$> seq x0 n)) = (3 * n)%nat.
Proof.
  revert x0. induction n as [|n IH]; intros x0; [done|].
  cbn [seq fmap list_fmap concat]. rewrite length_app, IH. simpl. lia.
Qed.

Lemma length_rowBytes w d y : length (rowBytes w d y) = rowSizeOf w.
Proof.
  unfold rowBytes. rewrite length_app, length_pixels, length_replicate.
  pose proof (rowSizeOf_ge w). lia.
Qed.

Lemma bmpRow_spec w d y (pre zs : list Z) :
  (rowSizeOf w ≤ length zs)%nat →
  bmpRow w (rowSizeOf w) d (pre ++ zs, length pre) y
  = (pre ++ rowBytes w d y ++ drop (rowSizeOf w) zs,
     (length pre + rowSizeOf w)%nat).
Proof.
  intros Hlen. pose proof (rowSizeOf_ge w) as Hge. unfold bmpRow.
  rewrite bmpPixels_spec by lia.
  set (px := concat (pixelBytes w d y <$> seq 0 w)).
  assert (Hpx : length px = (3 * w)%nat) by apply length_pixels.
  replace (length pre + 3 * w)%nat with (length (pre ++ px))
    by (rewrite length_app; lia).
  rewrite (app_assoc pre). rewrite bmpPad_spec by (rewrite length_drop; lia).
  rewrite drop_drop, length_app, Hpx. unfold rowBytes. fold px.
  rewrite <- !app_assoc.
  replace (3 * w + (rowSizeOf w - w * 3))%nat with (rowSizeOf w) by lia.
  f_equal. lia.
Qed.

Lemma bmpRows_spec w d (ys : list nat) : ∀ (pre zs : list Z),
  (rowSizeOf w * length ys ≤ length zs)%nat →
  fold_left (bmpRow w (rowSizeOf w) d) ys (pre ++ zs, length pre)
  = (pre ++ concat (rowBytes w d <$> ys) ++ drop (rowSizeOf w * length ys) zs,
     (length pre + rowSizeOf w * length ys)%nat).
Proof.
  induction ys as [|y ys IH]; intros pre zs Hlen.
  - simpl. by rewrite Nat.mul_0_r, Nat.add_0_r.
  - cbn [fold_left]. cbn [length] in Hlen. rewrite bmpRow_spec by lia.
    replace (length pre + rowSizeOf w)%nat with (length (pre ++ rowBytes w d y))
      by (rewrite length_app, length_rowBytes; done).
    rewrite (app_assoc pre). rewrite IH by (rewrite length_drop; lia).
    rewrite drop_drop, length_app, length_rowBytes.
    cbn [fmap list_fmap concat length].
    rewrite <- !app_assoc.
    replace (rowSizeOf w + rowSizeOf w * length ys)%nat
      with (rowSizeOf w * S (length ys))%nat by lia.
    f_equal. lia.
Qed.

(** *** The header writes stay inside the first 54 bytes *)

Lemma length_writeBytesLE k : ∀ buffer value offset,
  length (writeBytesLE k buffer value offset) = length buffer.
Proof.
  induction k as [|k IH]; intros buffer value offset; simpl; [done|].
  by rewrite IH, length_insert.
Qed.

Lemma writeBytesLE_app k : ∀ (hd tl : list Z) value offset,
  (offset + k ≤ length hd)%nat →
  writeBytesLE k (hd ++ tl) value offset = writeBytesLE k hd value offset ++ tl.
Proof.
  induction k as [|k IH]; intros hd tl value offset Hlen; simpl; [done|].
  rewrite insert_app_l by lia. apply IH. rewrite length_insert. lia.
Qed.

Lemma writeUInt32LE_app (hd tl : list Z) value offset :
  0 ≤ value < 2 ^ 32 → (offset + 4 ≤ length hd)%nat →
  writeUInt32LE (hd ++ tl) value offset
  = Ok (writeBytesLE 4 hd value offset ++ tl).
Proof.
  intros Hv Hlen. unfold writeUInt32LE.
  replace (0 <=? value) with true by lia.
  replace (value <? 2 ^ 32) with true by lia.
  cbn [andb]. by rewrite writeBytesLE_app.
Qed.

Lemma writeInt32LE_app (hd tl : list Z) value offset :
  0 ≤ value < 2 ^ 31 → (offset + 4 ≤ length hd)%nat →
  writeInt32LE (hd ++ tl) value offset
  = Ok (writeBytesLE 4 hd value offset ++ tl).
Proof.
  intros Hv Hlen. unfold writeInt32LE.
  replace (- 2 ^ 31 <=? value) with true by lia.
  replace (value <? 2 ^ 31) with true by lia.
  cbn [andb]. rewrite (Z.mod_small value) by lia. by rewrite writeBytesLE_app.
Qed.

Lemma writeUInt16LE_app (hd tl : list Z) value offset :
  0 ≤ value < 2 ^ 16 → (offset + 2 ≤ length hd)%nat →
  writeUInt16LE (hd ++ tl) value offset
  = Ok (writeBytesLE 2 hd value offset ++ tl).
Proof.
  intros Hv Hlen. unfold writeUInt16LE.
  replace (0 <=? value) with true by lia.
  replace (value <? 2 ^ 16) with true by lia.
  cbn [andb]. by rewrite writeBytesLE_app.
Qed.

(** The size bounds that the header writers check. *)
Lemma size_bounds w h :
  (1 ≤ w)%nat → (1 ≤ h)%nat → Z.of_nat (54 + rowSizeOf w * h) < 2 ^ 32 →
  0 ≤ Z.of_nat w < 2 ^ 31 ∧ 0 ≤ Z.of_nat h < 2 ^ 31 ∧
  0 ≤ Z.of_nat (rowSizeOf w * h) < 2 ^ 32.
Proof.
  intros Hw Hh Hsize. pose proof (rowSizeOf_ge w) as Hge.
  assert (w * 3 ≤ rowSizeOf w * h)%nat by nia.
  assert (3 * h ≤ rowSizeOf w * h)%nat by nia.
  lia.
Qed.

(** [createBMP] produces exactly the header followed by the rows. *)
Lemma createBMP_fileBytes canvas :
  (1 ≤ cwidth canvas)%nat → (1 ≤ cheight canvas)%nat →
  Z.of_nat (54 + rowSizeOf (cwidth canvas) * cheight canvas) < 2 ^ 32 →
  createBMP canvas = Ok (fileBytes canvas).
Proof.
  intros Hw Hh Hsize.
  destruct (size_bounds _ _ Hw Hh Hsize) as (Bw & Bh & Bp).
  unfold createBMP, fileBytes. cbn [getImageData width height data].
  set (w := cwidth canvas) in *. set (h := cheight canvas) in *.
  set (d := pixels canvas).
  rewrite replicate_add.
  change (replicate 54 0) with
    [0;0;0;0;0;0;0;0;0;0;0;0;0;0;0;0;0;0;0;0;0;0;0;0;0;0;0;
     0;0;0;0;0;0;0;0;0;0;0;0;0;0;0;0;0;0;0;0;0;0;0;0;0;0;0].
  rewrite !insert_app_l by (simpl; lia). cbn [insert list_insert].
  repeat
    (first [ rewrite writeUInt32LE_app by (cbn [length]; lia)
           | rewrite writeInt32LE_app by (cbn [length]; lia)
           | rewrite writeUInt16LE_app by (cbn [length]; lia) ];
     cbn [mbind result_bind writeBytesLE insert list_insert]).
  f_equal.
  match goal with
  | |- context [fold_left _ _ (?hd ++ _, _)] =>
      change hd with (headerBytes w h);
      change 54%nat with (length (headerBytes w h)) at 1
  end.
  rewrite bmpRows_spec
    by (rewrite length_replicate, length_reverse, length_seq; lia).
  cbn [fst]. rewrite length_reverse, length_seq.
  rewrite drop_ge by (rewrite length_replicate; lia).
  by rewrite app_nil_r.
Qed.

(** *** Reading the file back *)

Lemma lookup_concat_uniform {A : Type} (ls : list (list A)) (n j : nat) :
  Forall (λ l, length l = n) ls → (j < n)%nat →
  ∀ r, concat ls !! (r * n + j)%nat = ls !! r ≫= (λ l, l !! j).
Proof.
  intros Hall Hj. induction Hall as [|l ls Hl Hall IH]; intros r; [done|].
  cbn [concat]. destruct r as [|r].
  - rewrite lookup_app_l by lia. done.
  - rewrite lookup_app_r by lia.
    replace (S r * n + j - length l)%nat with (r * n + j)%nat by lia.
    apply IH.
Qed.

Lemma rows_uniform w d (ys : list nat) :
  Forall (λ l, length l = rowSizeOf w) (rowBytes w d <$> ys).
Proof.
  apply Forall_fmap, Forall_forall. intros y _. apply length_rowBytes.
Qed.

Lemma length_rows w d (ys : list nat) :
  length (concat (rowBytes w d <$> ys)) = (rowSizeOf w * length ys)%nat.
Proof.
  induction ys as [|y ys IH]; [simpl; lia|].
  cbn [fmap list_fmap concat length].
  rewrite length_app, length_rowBytes, IH. lia.
Qed.

Lemma length_fileBytes canvas :
  length (fileBytes canvas)
  = (54 + rowSizeOf (cwidth canvas) * cheight canvas)%nat.
Proof.
  unfold fileBytes. rewrite length_app, length_rows, length_reverse, length_seq.
  done.
Qed.

(** The stored row [r] (counted from the start of the pixel data) is the
    image row [h - 1 - r]. *)
Lemma lookup_file_row canvas (r j : nat) :
  (r < cheight canvas)%nat → (j < rowSizeOf (cwidth canvas))%nat →
  fileBytes canvas !! (54 + r * rowSizeOf (cwidth canvas) + j)%nat
  = rowBytes (cwidth canvas) (pixels canvas) (cheight canvas - 1 - r) !! j.
Proof.
  intros Hr Hj. unfold fileBytes.
  rewrite lookup_app_r by (cbn [length headerBytes headerOf app bytesLE]; lia).
  replace (54 + r * rowSizeOf (cwidth canvas) + j
           - length (headerBytes (cwidth canvas) (cheight canvas)))%nat
    with (r * rowSizeOf (cwidth canvas) + j)%nat
    by (cbn [length headerBytes headerOf app bytesLE]; lia).
  rewrite (lookup_concat_uniform _ (rowSizeOf (cwidth canvas)))
    by (apply rows_uniform || done).
  rewrite list_lookup_fmap, reverse_lookup by (rewrite length_seq; lia).
  rewrite length_seq, lookup_seq_lt by lia.
  cbn [fmap option_fmap option_map mbind option_bind].
  do 2 f_equal. lia.
Qed.

Lemma lookup_row_pixel w d y (x c : nat) :
  (x < w)%nat → (c < 3)%nat →
  rowBytes w d y !! (3 * x + c)%nat = pixelBytes w d y x !! c.
Proof.
  intros Hx Hc. unfold rowBytes.
  rewrite lookup_app_l by (rewrite length_pixels; lia).
  replace (3 * x + c)%nat with (x * 3 + c)%nat by lia.
  rewrite (lookup_concat_uniform _ 3); [|by apply Forall_fmap, Forall_forall|done].
  rewrite list_lookup_fmap, lookup_seq_lt by done. done.
Qed.

Lemma lookup_row_padding w d y (k : nat) :
  (3 * w ≤ k < rowSizeOf w)%nat → rowBytes w d y !! k = Some 0.
Proof.
  intros Hk. unfold rowBytes.
  rewrite lookup_app_r by (rewrite length_pixels; lia).
  apply lookup_replicate_2. rewrite length_pixels. lia.
Qed.

(** A stored byte is the source byte itself. *)
Lemma stored_byte (d : list Z) (i : nat) :
  Forall (λ v, 0 ≤ v < 256) d → (i < length d)%nat →
  Some (default 0 (d !! i) mod 256) = d !! i.
Proof.
  intros Hbytes Hi. destruct (lookup_lt_is_Some_2 d i Hi) as [v Hv].
  rewrite Hv. simpl. f_equal. apply Z.mod_small.
  by apply (Forall_lookup_1 _ _ _ _ Hbytes Hv).
Qed.

Lemma read_bytesLE4 v :
  0 ≤ v < 2 ^ 32 →
  v mod 256 + 256 * (v / 256 mod 256) + 65536 * (v / 256 / 256 mod 256)
  + 16777216 * (v / 256 / 256 / 256 mod 256) = v.
Proof. lia. Qed.

Lemma header_reads (fileSize width height imageSize : Z) (rest : list Z) :
  0 ≤ fileSize < 2 ^ 32 → 0 ≤ width < 2 ^ 31 → 0 ≤ height < 2 ^ 31 →
  0 ≤ imageSize < 2 ^ 32 →
  let buffer := headerOf fileSize width height imageSize ++ rest in
  buffer !! 0%nat = Some 66 ∧ buffer !! 1%nat = Some 77 ∧
  readUInt32LE buffer 2 = fileSize ∧
  readUInt32LE buffer 10 = 54 ∧
  readUInt32LE buffer 14 = 40 ∧
  readInt32LE buffer 18 = width ∧
  readInt32LE buffer 22 = height ∧
  readUInt16LE buffer 26 = 1 ∧
  readUInt16LE buffer 28 = 24 ∧
  readUInt32LE buffer 30 = 0 ∧
  readUInt32LE buffer 34 = imageSize.
Proof.
  intros Hf Hw Hh Hi buffer. subst buffer.
  unfold readInt32LE, readUInt32LE, readUInt16LE, byteAt, headerOf.
  cbn [bytesLE app lookup list_lookup Nat.add default from_option id].
  rewrite !read_bytesLE4 by lia.
  replace (width <? 2 ^ 31) with true by lia.
  replace (height <? 2 ^ 31) with true by lia.
  repeat split; reflexivity.
Qed.

(** C3: for a canvas of width W >= 1 and height H >= 1 whose file size fits
    the 32-bit size field, [createBMP] returns a buffer of exactly
    54 + ceil(W*3/4)*4*H bytes that starts with "BM" and holds the file size
    at offset 2, the pixel data offset 54 at offset 10, the header size 40
    at offset 14, W at offset 18, the positive H at offset 22, 1 colour
    plane at offset 26, 24 bits per pixel at offset 28, compression 0 at
    offset 30 and the padded pixel data size at offset 34; the rows are
    stored bottom row first, each pixel as its B, G, R bytes, each row
    padded with zeros to a multiple of 4 bytes. *)
Theorem createBMP_layout (canvas : Canvas) :
  let W := cwidth canvas in
  let H := cheight canvas in
  let rowSize := rowSizeOf W in
  (1 ≤ W)%nat → (1 ≤ H)%nat → wfCanvas canvas →
  Z.of_nat (54 + rowSize * H) < 2 ^ 32 →
  ∃ buffer,
    createBMP canvas = Ok buffer ∧
    Z.of_nat rowSize = - (- (Z.of_nat W * 3) / 4) * 4 ∧
    (rowSize mod 4 = 0)%nat ∧
    length buffer = (54 + rowSize * H)%nat ∧
    buffer !! 0%nat = Some 66 ∧ buffer !! 1%nat = Some 77 ∧
    readUInt32LE buffer 2 = Z.of_nat (54 + rowSize * H) ∧
    readUInt32LE buffer 10 = 54 ∧
    readUInt32LE buffer 14 = 40 ∧
    readInt32LE buffer 18 = Z.of_nat W ∧
    readInt32LE buffer 22 = Z.of_nat H ∧ 0 < readInt32LE buffer 22 ∧
    readUInt16LE buffer 26 = 1 ∧
    readUInt16LE buffer 28 = 24 ∧
    readUInt32LE buffer 30 = 0 ∧
    readUInt32LE buffer 34 = Z.of_nat (rowSize * H) ∧
    (∀ x y, (x < W)%nat → (y < H)%nat →
       let dst := (54 + (H - 1 - y) * rowSize + 3 * x)%nat in
       let src := (4 * (y * W + x))%nat in
       buffer !! dst = pixels canvas !! (src + 2)%nat ∧
       buffer !! (dst + 1)%nat = pixels canvas !! (src + 1)%nat ∧
       buffer !! (dst + 2)%nat = pixels canvas !! src) ∧
    (∀ y k, (y < H)%nat → (3 * W ≤ k < rowSize)%nat →
       buffer !! (54 + y * rowSize + k)%nat = Some 0).
Proof.
  intros W H rowSize HW HH [Hlen Hbytes] Hsize. subst W H rowSize.
  set (W := cwidth canvas) in *. set (H := cheight canvas) in *.
  destruct (size_bounds _ _ HW HH Hsize) as (Bw & Bh & Bp).
  exists (fileBytes canvas).
  split; [by apply createBMP_fileBytes|].
  split; [unfold rowSizeOf; lia|].
  split; [unfold rowSizeOf; lia|].
  split; [apply length_fileBytes|].
  pose proof (header_reads (Z.of_nat (54 + rowSizeOf W * H)) (Z.of_nat W)
                (Z.of_nat H) (Z.of_nat (rowSizeOf W * H))
                (concat (rowBytes W (pixels canvas) <$> reverse (seq 0 H))))
    as Hhdr.
  cbv zeta in Hhdr.
  destruct Hhdr as (H0 & H1 & H2 & H10 & H14 & H18 & H22 & H26 & H28 & H30 & H34);
    [lia..|].
  change (headerOf _ _ _ _ ++ _) with (fileBytes canvas) in *.
  repeat (split; [done|]).
  split; [rewrite H22; lia|].
  repeat (split; [done|]).
  pose proof (rowSizeOf_ge W) as Hge.
  split.
  - intros x y Hx Hy dst src. subst dst src.
    assert (Hr : (H - 1 - (H - 1 - y) = y)%nat) by lia.
    assert (Hin : (4 * (y * W + x) + 3 < length (pixels canvas))%nat).
    { rewrite Hlen. fold W H. nia. }
    set (r := (H - 1 - y)%nat) in *.
    replace (54 + r * rowSizeOf W + 3 * x + 1)%nat
      with (54 + r * rowSizeOf W + (3 * x + 1))%nat by lia.
    replace (54 + r * rowSizeOf W + 3 * x + 2)%nat
      with (54 + r * rowSizeOf W + (3 * x + 2))%nat by lia.
    replace (54 + r * rowSizeOf W + 3 * x)%nat
      with (54 + r * rowSizeOf W + (3 * x + 0))%nat by lia.
    subst W H. rewrite !lookup_file_row by lia.
    rewrite Hr.
    rewrite !lookup_row_pixel by lia.
    unfold pixelBytes. cbn [lookup list_lookup].
    replace ((y * cwidth canvas + x) * 4)%nat
      with (4 * (y * cwidth canvas + x))%nat by lia.
    rewrite !stored_byte by (done || lia). done.
  - intros y k Hy Hk. subst W H.
    rewrite lookup_file_row by lia.
    by apply lookup_row_padding.
Qed.

Lemma createBMP_layout_witness :
  ∃ buffer, createBMP sampleCanvas = Ok buffer ∧ length buffer = 78%nat.
Proof.
  destruct (createBMP_layout sampleCanvas) as (buffer & Hb & _ & _ & Hl & _).
  - vm_compute. lia.
  - vm_compute. lia.
  - split; [reflexivity|]. unfold sampleCanvas. cbn [pixels].
    apply Forall_forall. intros v Hv.
    apply list_elem_of_fmap in Hv as (n & -> & Hn).
    apply elem_of_seq in Hn. lia.
  - vm_compute. reflexivity.
  - exists buffer. split; [exact Hb|exact Hl].
Defined.

End Bitmap.

(** ** Error-diffusion dithering ([applyErrorDiffusionDither]) *)

Module Dither.

Import JS Palettes Presets Processor MatchSpec DitherSpec Loops Matching.
Local Open Scope float_scope.

Section Pass.

Variable Math_pow : float → float → float.
Variable imageData : ImageData.
Variable method : string.
Variable ditherPaletteArray : list Triple.
Variable algorithm : string.

Local Abbreviation w := (width imageData).
Local Abbreviation h := (height imageData).
Local Abbreviation state out n :=
  (ditherPrefix Math_pow imageData method out ditherPaletteArray algorithm n).
Local Abbreviation slot st p :=
  (matchedSlot Math_pow w method ditherPaletteArray st (p / w) (p mod w)).

(** One iteration, in terms of the matched slot. *)
Lemma ditherPixel_eq out st y x :
  ditherPixel Math_pow w h method out ditherPaletteArray
    (ditherPaletteLabOf Math_pow method ditherPaletteArray)
    (diffusionMatrixOf algorithm) st y x
  = let k := matchedSlot Math_pow w method ditherPaletteArray st y x in
    let '(errR, errG, errB) :=
      quantError (workingColor w st y x)
        (default (0, 0, 0)%Z (ditherPaletteArray !! k)) in
    (paint (fst st) ((y * w + x) * 4) (default (0, 0, 0)%Z (out !! k)),
     diffuse w h (diffusionMatrixOf algorithm) y x errR errG errB (snd st)).
Proof.
  unfold ditherPixel, matchedSlot, quantError, paint.
  destruct (workingColor w st y x) as [[oldR oldG] oldB].
  cbv zeta.
  destruct (default (0, 0, 0)%Z (out !! _)) as [[newR newG] newB].
  by destruct (default (0, 0, 0)%Z (ditherPaletteArray !! _)) as [[dR dG] dB].
Qed.

Lemma ditherPass_prefix out :
  ditherPass Math_pow imageData method out ditherPaletteArray algorithm
  = state out (w * h).
Proof.
  unfold ditherPass, ditherPrefix.
  apply (nested_loops
           (λ st y x,
              ditherPixel Math_pow w h method out ditherPaletteArray
                (ditherPaletteLabOf Math_pow method ditherPaletteArray)
                (diffusionMatrixOf algorithm) st y x)).
Qed.

Lemma prefix_S out n :
  state out (S n)
  = ditherPixel Math_pow w h method out ditherPaletteArray
      (ditherPaletteLabOf Math_pow method ditherPaletteArray)
      (diffusionMatrixOf algorithm) (state out n) (n / w) (n mod w).
Proof. unfold ditherPrefix. by rewrite seq_S, fold_left_app. Qed.

Lemma raster_index n : (n < w * h)%nat → ((n / w * w + n mod w) * 4 = 4 * n)%nat.
Proof.
  intros Hn. assert (w ≠ 0)%nat by lia.
  pose proof (Nat.div_mod_eq n w). lia.
Qed.

Lemma prefix_S_fst out n :
  (n < w * h)%nat →
  fst (state out (S n))
  = paint (fst (state out n)) (4 * n)
      (default (0, 0, 0)%Z (out !! slot (state out n) n)).
Proof.
  intros Hn. rewrite prefix_S, ditherPixel_eq. cbv zeta.
  destruct (quantError _ _) as [[eR eG] eB]. cbn [fst].
  by rewrite raster_index.
Qed.

Lemma prefix_S_snd out n :
  (n < w * h)%nat →
  snd (state out (S n))
  = let '(errR, errG, errB) :=
      quantError (workingColor w (state out n) (n / w) (n mod w))
        (default (0, 0, 0)%Z (ditherPaletteArray !! slot (state out n) n)) in
    diffuse w h (diffusionMatrixOf algorithm) (n / w) (n mod w)
      errR errG errB (snd (state out n)).
Proof.
  intros Hn. rewrite prefix_S, ditherPixel_eq. cbv zeta.
  by destruct (quantError _ _) as [[eR eG] eB].
Qed.

Lemma length_paint d idx entry : length (paint d idx entry) = length d.
Proof. destruct entry as [[r g] b]. unfold paint. by rewrite !length_insert. Qed.

Lemma lookup_paint_other d idx entry i :
  (i < idx ∨ idx + 3 ≤ i)%nat → paint d idx entry !! i = d !! i.
Proof.
  intros Hi. destruct entry as [[r g] b]. unfold paint.
  by rewrite !list_lookup_insert_ne by lia.
Qed.

Lemma lookup_paint_alpha d p entry i :
  (i mod 4 = 3)%nat → paint d (4 * p) entry !! i = d !! i.
Proof.
  intros Hi. destruct entry as [[r g] b]. unfold paint.
  by rewrite !list_lookup_insert_ne by lia.
Qed.

Lemma pixelAt_paint d p entry :
  (4 * p + 2 < length d)%nat →
  pixelAt (paint d (4 * p) entry) p = Some (clampTriple entry).
Proof.
  intros Hp. destruct entry as [[r g] b]. unfold pixelAt, paint, clampTriple.
  set (d1 := <[(4 * p)%nat := clampByte r]> d).
  set (d2 := <[(4 * p + 1)%nat := clampByte g]> d1).
  assert (Hd1 : length d1 = length d) by apply length_insert.
  assert (Hd2 : length d2 = length d)
    by (unfold d2; by rewrite length_insert).
  assert (HR : <[(4 * p + 2)%nat := clampByte b]> d2 !! (4 * p)%nat
               = Some (clampByte r)).
  { rewrite list_lookup_insert_ne by lia. unfold d2.
    rewrite list_lookup_insert_ne by lia. apply list_lookup_insert_eq. lia. }
  assert (HG : <[(4 * p + 2)%nat := clampByte b]> d2 !! (4 * p + 1)%nat
               = Some (clampByte g)).
  { rewrite list_lookup_insert_ne by lia. apply list_lookup_insert_eq. lia. }
  assert (HB : <[(4 * p + 2)%nat := clampByte b]> d2 !! (4 * p + 2)%nat
               = Some (clampByte b)).
  { apply list_lookup_insert_eq. lia. }
  by rewrite HR, HG, HB.
Qed.

Lemma pixelAt_paint_other d n p entry :
  p ≠ n → pixelAt (paint d (4 * n) entry) p = pixelAt d p.
Proof.
  intros Hp. unfold pixelAt. by rewrite !lookup_paint_other by lia.
Qed.

(** The working colour is read from the three colour bytes of the pixel and
    from the error accumulator. *)
Lemma workingColor_ext (st st' : DitherState) y x :
  (∀ c, (c < 3)%nat →
        fst st !! ((y * w + x) * 4 + c)%nat = fst st' !! ((y * w + x) * 4 + c)%nat) →
  snd st = snd st' →
  workingColor w st y x = workingColor w st' y x.
Proof.
  intros Hd He. unfold workingColor, readU8. rewrite He.
  rewrite <- (Nat.add_0_r ((y * w + x) * 4)) at 1 4.
  by rewrite !Hd by lia.
Qed.

Hypothesis Hwf : wfImage imageData.

(** What the image bytes look like after [n] pixels: the visited pixels hold
    the output colour of the slot matched when each was visited, everything
    else is as in the source. *)
Lemma state_inv out n :
  (n ≤ w * h)%nat →
  length (fst (state out n)) = length (data imageData) ∧
  (∀ i, (4 * n ≤ i)%nat → fst (state out n) !! i = data imageData !! i) ∧
  (∀ i, (i mod 4 = 3)%nat → fst (state out n) !! i = data imageData !! i) ∧
  (∀ p, (p < n)%nat →
     pixelAt (fst (state out n)) p
     = Some (clampTriple (default (0, 0, 0)%Z (out !! slot (state out p) p)))).
Proof.
  induction n as [|n IH]; intros Hn.
  - repeat split; try done. intros p Hp. lia.
  - destruct IH as (Hlen & Hrest & Halpha & Hdone); [lia|].
    rewrite prefix_S_fst by lia.
    split; [by rewrite length_paint|]. split; [|split].
    + intros i Hi. rewrite lookup_paint_other by lia. apply Hrest. lia.
    + intros i Hi. rewrite lookup_paint_alpha by done. by apply Halpha.
    + intros p Hp. destruct (decide (p = n)) as [->|Hne].
      * apply pixelAt_paint. rewrite Hlen, Hwf. lia.
      * rewrite pixelAt_paint_other by done. apply Hdone. lia.
Qed.

(** The colour read for pixel [n] is the source colour plus the accumulated
    error. *)
Lemma workingColor_source out n :
  (n < w * h)%nat →
  workingColor w (state out n) (n / w) (n mod w)
  = workingColor w (data imageData, snd (state out n)) (n / w) (n mod w).
Proof.
  intros Hn. apply workingColor_ext; [|done].
  intros c Hc. cbn [fst]. rewrite raster_index by done.
  destruct (state_inv out n) as (_ & Hrest & _); [lia|]. apply Hrest. lia.
Qed.

(** The matched slots and the error accumulator do not depend on the output
    palette. *)
Lemma pass_independent_of_output out out' n :
  (n ≤ w * h)%nat →
  snd (state out n) = snd (state out' n) ∧
  (n < w * h → slot (state out n) n = slot (state out' n) n)%nat.
Proof.
  induction n as [|n IH]; intros Hn.
  - split; [done|]. intros H0. unfold matchedSlot.
    by rewrite (workingColor_source out), (workingColor_source out') by done.
  - destruct IH as [Herr Hslot]; [lia|]. specialize (Hslot ltac:(lia)).
    assert (Hwork : workingColor w (state out n) (n / w) (n mod w)
                    = workingColor w (state out' n) (n / w) (n mod w)).
    { rewrite (workingColor_source out), (workingColor_source out') by lia.
      by rewrite Herr. }
    assert (Herr' : snd (state out (S n)) = snd (state out' (S n))).
    { rewrite !prefix_S_snd by lia. by rewrite Hwork, Hslot, Herr. }
    split; [done|]. intros HSn. unfold matchedSlot.
    rewrite (workingColor_source out), (workingColor_source out') by done.
    by rewrite Herr'.
Qed.

End Pass.

Lemma length_paletteToArray palette : length (paletteToArray palette) = 7%nat.
Proof. reflexivity. Qed.

Lemma clampByte_byte v : (0 ≤ v ≤ 255)%Z → clampByte v = v.
Proof. unfold clampByte. lia. Qed.

(** The active entries of a valid palette are stored unchanged. *)
Lemma paletteToArray_active palette k :
  validPaletteColors palette → k ∈ activeSlots →
  ∃ entry, paletteToArray palette !! k = Some entry ∧ clampTriple entry = entry.
Proof.
  intros (Hb & Hw & Hy & Hr & Hbl & Hg) Hk. unfold activeSlots in Hk.
  repeat (apply elem_of_cons in Hk as [->|Hk]);
    [..|inversion Hk]; eexists; (split; [reflexivity|]);
    unfold clampTriple;
    match goal with
    | H : validColor ?c |- context [r ?c] =>
        destruct H as (? & ? & ?); by rewrite !clampByte_byte
    end.
Qed.

(** The colour of a visited pixel in the result of the pass. *)
Lemma result_pixel Math_pow imageData method outputPalette ditherPalette algorithm p :
  wfImage imageData → validPaletteColors outputPalette →
  (p < width imageData * height imageData)%nat →
  let out := paletteToArray outputPalette in
  let dith := paletteToArray ditherPalette in
  let k :=
    matchedSlot Math_pow (width imageData) method dith
      (ditherPrefix Math_pow imageData method out dith algorithm p)
      (p / width imageData) (p mod width imageData) in
  k ∈ activeSlots ∧
  pixelAt
    (data (applyErrorDiffusionDither Math_pow imageData method out dith algorithm))
    p = out !! k.
Proof.
  intros Hwf Hvalid Hp out dith k.
  assert (Hk : k ∈ activeSlots).
  { subst k. unfold matchedSlot.
    destruct (workingColor _ _ _ _) as [[oR oG] oB].
    by apply findClosestColor_active. }
  split; [done|].
  unfold applyErrorDiffusionDither. cbn [data withData].
  rewrite ditherPass_prefix.
  destruct (state_inv Math_pow imageData method dith algorithm Hwf out
              (width imageData * height imageData)) as (_ & _ & _ & Hdone);
    [lia|].
  rewrite (Hdone p Hp). fold k.
  destruct (paletteToArray_active outputPalette k Hvalid Hk) as (entry & He & Hc).
  fold out in He. rewrite He. simpl. by rewrite Hc.
Qed.

(** C1: after [applyErrorDiffusionDither], for a well-formed image and an
    output palette whose channels are bytes, whatever the colour-matching
    method, the dither palette and the algorithm name, the image keeps its
    dimensions and its alpha bytes, and every pixel's (R, G, B) is exactly
    one of the six active entries (slots 0, 1, 2, 3, 5, 6) of the output
    palette array. *)
Theorem dither_output_in_palette
    (Math_pow : float → float → float) (imageData : ImageData)
    (method : string) (outputPalette ditherPalette : Palette)
    (algorithm : string) :
  wfImage imageData → validPaletteColors outputPalette →
  let result :=
    applyErrorDiffusionDither Math_pow imageData method
      (paletteToArray outputPalette) (paletteToArray ditherPalette) algorithm in
  width result = width imageData ∧ height result = height imageData ∧
  wfImage result ∧
  (∀ i, (i mod 4 = 3)%nat → data result !! i = data imageData !! i) ∧
  ∀ p, (p < width imageData * height imageData)%nat →
    ∃ k, k ∈ activeSlots ∧
         pixelAt (data result) p = paletteToArray outputPalette !! k.
Proof.
  intros Hwf Hvalid result.
  destruct (state_inv Math_pow imageData method (paletteToArray ditherPalette)
              algorithm Hwf (paletteToArray outputPalette)
              (width imageData * height imageData))
    as (Hlen & _ & Halpha & _); [lia|].
  assert (Hdata : data result
                  = fst (ditherPrefix Math_pow imageData method
                           (paletteToArray outputPalette)
                           (paletteToArray ditherPalette) algorithm
                           (width imageData * height imageData))).
  { subst result. unfold applyErrorDiffusionDither. cbn [data withData].
    by rewrite ditherPass_prefix. }
  split; [done|]. split; [done|]. split; [|split].
  - unfold wfImage. rewrite Hdata, Hlen. exact Hwf.
  - intros i Hi. rewrite Hdata. by apply Halpha.
  - intros p Hp. eexists. by apply result_pixel.
Qed.

Lemma dither_output_in_palette_witness :
  ∃ k, k ∈ activeSlots ∧
    pixelAt
      (data (applyErrorDiffusionDither (λ x _, x) sampleImage "rgb"
               (paletteToArray (theoretical SPECTRA6))
               (paletteToArray (perceived SPECTRA6)) "floyd-steinberg")) 0
    = paletteToArray (theoretical SPECTRA6) !! k.
Proof.
  apply (dither_output_in_palette (λ x _, x) sampleImage "rgb"
           (theoretical SPECTRA6) (perceived SPECTRA6) "floyd-steinberg").
  - reflexivity.
  - unfold validPaletteColors, validColor. simpl. lia.
  - simpl. lia.
Defined.

(** C2: when pixel [p] is visited, the colour read is the source pixel plus
    the accumulated error; the slot [k] is the closest colour of the dither
    palette to that working colour; the pixel receives the output palette's
    entry at [k]; the error handed to the diffusion matrix is the working
    colour minus the dither palette's entry at [k]; and neither [k] nor the
    accumulated error depends on the output palette.  [processImage] passes
    the perceived palette as the dither palette, and as the output palette
    the theoretical one unless [usePerceivedOutput] asks for the perceived
    one; the image so dithered is what it puts on the canvas it returns. *)
Theorem dither_matches_dither_palette_writes_output_palette
    (Math_pow : float → float → float) (imageData : ImageData)
    (method : string) (outputPalette ditherPalette : Palette)
    (algorithm : string) :
  wfImage imageData → validPaletteColors outputPalette →
  let out := paletteToArray outputPalette in
  let dith := paletteToArray ditherPalette in
  let w := width imageData in
  let state := ditherPrefix Math_pow imageData method out dith algorithm in
  let result :=
    applyErrorDiffusionDither Math_pow imageData method out dith algorithm in
  (∀ p, (p < w * height imageData)%nat →
     let y := (p / w)%nat in
     let x := (p mod w)%nat in
     let k := matchedSlot Math_pow w method dith (state p) y x in
     workingColor w (state p) y x
       = workingColor w (data imageData, snd (state p)) y x ∧
     pixelAt (data result) p = out !! k ∧
     snd (state (S p))
       = (let '(errR, errG, errB) :=
            quantError (workingColor w (state p) y x)
              (default (0, 0, 0)%Z (dith !! k)) in
          diffuse w (height imageData) (diffusionMatrixOf algorithm) y x
            errR errG errB (snd (state p))) ∧
     ∀ out',
       snd (ditherPrefix Math_pow imageData method out' dith algorithm p)
         = snd (state p) ∧
       matchedSlot Math_pow w method dith
         (ditherPrefix Math_pow imageData method out' dith algorithm p) y x
         = k) ∧
  (∀ options image,
     ditherStage Math_pow options image
     = if skipDithering options then image
       else
         applyErrorDiffusionDither Math_pow image
           (stringOr (colorMethod (params options)) "rgb")
           (paletteToArray
              (if usePerceivedOutput options then perceived (palette options)
               else theoretical (palette options)))
           (paletteToArray (perceived (palette options)))
           (stringOr (ditherAlgorithm (params options)) "floyd-steinberg")) ∧
  (∀ drawImage drawRotated drawCover storedPixels source options,
     let loaded := loadSource drawImage storedPixels source in
     let prepared :=
       fitCanvas drawCover options (isPortraitCanvas loaded)
         (orientCanvas drawRotated options loaded) in
     fst (processImage Math_pow drawImage drawRotated drawCover storedPixels
            source options)
     = putImageData storedPixels prepared
         (ditherStage Math_pow options
            (preprocessImage Math_pow (getImageData prepared)
               (params options) (Some (perceived (palette options)))))).
Proof.
  intros Hwf Hvalid out dith w state result. split; [|split].
  - intros p Hp y x k. split; [|split; [|split]].
    + by apply workingColor_source.
    + by apply result_pixel.
    + by apply prefix_S_snd.
    + intros out'.
      destruct (pass_independent_of_output Math_pow imageData method dith
                  algorithm Hwf out' out p) as [Herr Hslot]; [lia|].
      split; [done|]. by apply Hslot.
  - intros options image. unfold ditherStage.
    by destruct (skipDithering options).
  - done.
Qed.

Lemma dither_matches_dither_palette_writes_output_palette_witness :
  pixelAt
    (data (applyErrorDiffusionDither (λ x _, x) sampleImage "rgb"
             (paletteToArray (theoretical SPECTRA6))
             (paletteToArray (perceived SPECTRA6)) "floyd-steinberg")) 0
  = paletteToArray (theoretical SPECTRA6)
    !! matchedSlot (λ x _, x) 2 "rgb" (paletteToArray (perceived SPECTRA6))
         (ditherPrefix (λ x _, x) sampleImage "rgb"
            (paletteToArray (theoretical SPECTRA6))
            (paletteToArray (perceived SPECTRA6)) "floyd-steinberg" 0)
         0 0.
Proof.
  apply (dither_matches_dither_palette_writes_output_palette (λ x _, x)
           sampleImage "rgb" (theoretical SPECTRA6) (perceived SPECTRA6)
           "floyd-steinberg").
  - reflexivity.
  - unfold validPaletteColors, validColor. simpl. lia.
  - simpl. lia.
Defined.

End Dither.

(** ** The repository's unit tests, replayed on the embedding *)

Module Tests.

Import JS Palettes Presets Processor PaletteSpec PipelineSpec BitmapSpec.
Local Open Scope string_scope.

(** "should validate correct paired palette" *)
Example test_validate_SPECTRA6 : validatePalette (pairValue SPECTRA6) = Ok true.
Proof. vm_compute. reflexivity. Qed.

(** "should throw for missing theoretical" *)
Example test_missing_theoretical :
  validatePalette
    (JObj (<["perceived" := paletteValue (perceived SPECTRA6)]> ∅))
  = Throw (Error "Palette must have a 'theoretical' property").
Proof. vm_compute. reflexivity. Qed.

(** "should throw for missing color in palette" *)
Example test_missing_color :
  validatePalette
    (JObj (<["theoretical" :=
               JObj (<["black" := colorValue {| r := 0; g := 0; b := 0 |}]> ∅)]>
           (<["perceived" := paletteValue (perceived SPECTRA6)]> ∅)))
  = Throw (Error "Missing required color in theoretical palette: white").
Proof. vm_compute. reflexivity. Qed.

(** "should throw for invalid RGB values" *)
Example test_channel_300 :
  validatePalette
    (withChannel (pairValue SPECTRA6) "theoretical" "black" "r" (JNum 300))
  = Throw (Error "RGB values must be 0-255 for theoretical.black").
Proof. vm_compute. reflexivity. Qed.

(** "should throw for invalid palette structure" *)
Example test_invalid_structure :
  validatePalette (JObj (<["foo" := JStr "bar"]> ∅))
  = Throw (Error "Palette must have a 'theoretical' property").
Proof. vm_compute. reflexivity. Qed.

(** "should convert palette object to array format" *)
Example test_paletteToArray :
  paletteToArray (theoretical SPECTRA6)
  = [ (0, 0, 0); (255, 255, 255); (255, 255, 0); (255, 0, 0); (0, 0, 0);
      (0, 0, 255); (0, 255, 0) ]%Z.
Proof. reflexivity. Qed.

(** "should convert black correctly": no power is taken on the way. *)
Example test_rgbToLab_black Math_pow : rgbToLab Math_pow 0 0 0 = (0, 0, 0)%float.
Proof. vm_compute. reflexivity. Qed.

(** "should return default parameters" *)
Example test_default_params :
  exposure getDefaultParams = Some 1%float ∧
  saturation getDefaultParams = Some 1%float ∧
  toneMode getDefaultParams = Some "contrast" ∧
  ditherAlgorithm getDefaultParams = Some "floyd-steinberg".
Proof. repeat split. Qed.

(** "should encode pixel colors correctly (BGR format)" *)
Example test_bmp_pixel :
  ∃ buffer,
    createBMP {| cwidth := 1; cheight := 1; pixels := [255; 128; 64; 255]%Z |}
    = Ok buffer ∧
    buffer !! 54%nat = Some 64%Z ∧ buffer !! 55%nat = Some 128%Z ∧
    buffer !! 56%nat = Some 255%Z ∧ length buffer = 58%nat.
Proof. eexists. split; [vm_compute; reflexivity|]. repeat split. Qed.

(** "should skip rotation when skipRotation is true": a 600 by 1000 source
    on the 800 by 480 display comes back 480 by 800. *)
Example test_skip_rotation_size :
  finalSize
    {| displayWidth := 800; displayHeight := 480; palette := SPECTRA6;
       params := getDefaultParams; skipRotation := true;
       skipDithering := false; usePerceivedOutput := false |}
    (isPortraitSource
       (CanvasSource {| cwidth := 600; cheight := 1000; pixels := [] |}))
  = (480, 800)%nat.
Proof. reflexivity. Qed.

End Tests.
(** ** The dimension option ([parseDimension]) *)

Module Dimension.

Import Stdlib.Strings.Ascii JS Cli CliSpec.
Local Open Scope string_scope.

Lemma isDigit_spec c : isDigit c = true ↔ c ∈ digitChars.
Proof.
  unfold digitChars. split.
  - destruct c as [[] [] [] [] [] [] [] []]; vm_compute; intros H;
      try discriminate H; set_solver.
  - intros H. repeat (apply elem_of_cons in H as [->|H]; [reflexivity|]).
    inversion H.
Qed.

Lemma allDigits_spec s :
  allDigits s = true
  ↔ Forall (λ c, c ∈ digitChars) (Stdlib.Strings.String.list_ascii_of_string s).
Proof.
  induction s as [|c s IH]; simpl.
  - split; [constructor|done].
  - rewrite andb_true_iff, Forall_cons, isDigit_spec, IH. done.
Qed.

Lemma decimal_spec s : decimal s ↔ s ≠ "" ∧ allDigits s = true.
Proof. unfold decimal. by rewrite allDigits_spec. Qed.

Lemma digitsPrefix_app ws tl :
  allDigits ws = true → stopsAt tl → digitsPrefix (ws ++ tl) = (ws, tl).
Proof.
  intros Hws Htl. induction ws as [|c ws IH]; simpl in *.
  - destruct tl as [|c tl]; [done|]. simpl in *. by rewrite Htl.
  - apply andb_true_iff in Hws as [Hc Hws]. by rewrite Hc, IH.
Qed.

Lemma digitsPrefix_inv s : ∀ ds tl,
  digitsPrefix s = (ds, tl) → s = ds ++ tl ∧ allDigits ds = true ∧ stopsAt tl.
Proof.
  induction s as [|c s IH]; intros ds tl; simpl.
  - by intros [= <- <-].
  - destruct (isDigit c) eqn:Hc.
    + destruct (digitsPrefix s) as [ds' tl'] eqn:Hs. intros [= <- <-].
      destruct (IH ds' tl' eq_refl) as (-> & Hds & Htl).
      simpl. by rewrite Hc.
    + intros [= <- <-]. by simpl.
Qed.

Lemma eqb_empty s : String.eqb s "" = false ↔ s ≠ "".
Proof. destruct s; simpl; split; done. Qed.

Lemma matchDimension_spec value w h :
  matchDimension value = Some (w, h)
  ↔ value = w ++ "x" ++ h ∧ decimal w ∧ decimal h.
Proof.
  rewrite !decimal_spec. unfold matchDimension. split.
  - destruct (digitsPrefix value) as [w' rest] eqn:Hp.
    apply digitsPrefix_inv in Hp as (-> & Hw' & _).
    destruct rest as [|c h']; [done|].
    destruct c as [[] [] [] [] [] [] [] []]; try done.
    destruct (String.eqb w' "") eqn:Hw0; [done|].
    destruct (String.eqb h' "") eqn:Hh0; [done|].
    destruct (allDigits h') eqn:Hh; [|done].
    simpl. intros [= <- <-]. by rewrite <- !eqb_empty.
  - intros (-> & [Hw0 Hw] & [Hh0 Hh]).
    rewrite (digitsPrefix_app w ("x" ++ h)) by done.
    change ("x" ++ h) with (String "x"%char h). cbv iota beta.
    apply eqb_empty in Hw0, Hh0. by rewrite Hw0, Hh0, Hh.
Qed.

(** X1: [parseDimension] accepts exactly the values made of a non-empty run
    of decimal digits, an [x], and a second non-empty run of decimal digits;
    it returns the numbers the two runs denote, and throws its "Invalid
    dimension format" error for every other value. *)
Theorem parseDimension_accepts_exactly_digits_x_digits (value : string) :
  (∀ width height,
     parseDimension value = Ok (width, height)
     ↔ ∃ w h, value = w ++ "x" ++ h ∧ decimal w ∧ decimal h ∧
              width = parseInt w ∧ height = parseInt h) ∧
  ((¬ ∃ w h, value = w ++ "x" ++ h ∧ decimal w ∧ decimal h)
   ↔ parseDimension value = Throw (invalidDimension value)).
Proof.
  unfold parseDimension, invalidDimension. split.
  - intros width height. split.
    + destruct (matchDimension value) as [[w h]|] eqn:Hm; [|done].
      intros [= <- <-]. apply matchDimension_spec in Hm as (-> & Hw & Hh).
      by exists w, h.
    + intros (w & h & Hv & Hw & Hh & -> & ->).
      by rewrite (proj2 (matchDimension_spec value w h)).
  - split.
    + intros Hnone. destruct (matchDimension value) as [[w h]|] eqn:Hm; [|done].
      apply matchDimension_spec in Hm as (-> & Hw & Hh).
      destruct Hnone. by exists w, h.
    + intros Hthrow (w & h & Hv & Hw & Hh).
      by rewrite (proj2 (matchDimension_spec value w h)) in Hthrow.
Qed.

(** The digits of a number denote it. *)
Lemma digitsValue_uint d : ∀ acc,
  (0 ≤ acc)%Z →
  digitsValue acc (DecimalString.NilEmpty.string_of_uint d)
  = Z.of_nat (Nat.of_uint_acc d (Z.to_nat acc)).
Proof.
  induction d as [|d IH|d IH|d IH|d IH|d IH|d IH|d IH|d IH|d IH|d IH];
    intros acc Hacc;
    cbn [DecimalString.NilEmpty.string_of_uint digitsValue Nat.of_uint_acc];
    [lia|..];
    match goal with
    | |- context [nat_of_ascii ?c] =>
        let v := eval vm_compute in (nat_of_ascii c) in
        change (nat_of_ascii c) with v
    end;
    (rewrite IH by lia); do 2 f_equal; rewrite Nat.tail_mul_spec; lia.
Qed.

Lemma allDigits_uint d :
  allDigits (DecimalString.NilEmpty.string_of_uint d) = true.
Proof. induction d; simpl; done. Qed.

Lemma showNat_decimal n : decimal (showNat n).
Proof.
  apply decimal_spec. unfold showNat, DecimalString.NilZero.string_of_uint.
  destruct (Nat.to_uint n) eqn:Hn; try done;
    (split; [done|]); rewrite <- Hn;
    change (allDigits (DecimalString.NilEmpty.string_of_uint (Nat.to_uint n)) = true);
    apply allDigits_uint.
Qed.

Lemma digitsValue_showNat n : digitsValue 0 (showNat n) = Z.of_nat n.
Proof.
  unfold showNat, DecimalString.NilZero.string_of_uint.
  rewrite <- (DecimalNat.Unsigned.of_to n) at 2.
  destruct (Nat.to_uint n) eqn:Hn; try done;
    rewrite <- Hn; by rewrite digitsValue_uint.
Qed.

(** Below 2^63 the nearest number is the one the integer conversion
    gives. *)
Lemma ofInteger_Z2F z : (0 ≤ z < 2 ^ 63)%Z → ofInteger z = Z2F z.
Proof.
  intros Hz. unfold ofInteger, Z2F. destruct z as [|p|p]; [done| |lia].
  rewrite <- (SF2Prim_Prim2SF (of_uint63 _)). f_equal.
  rewrite of_uint63_spec. f_equal.
  rewrite Uint63.of_Z_spec. symmetry. apply Z.mod_small.
  change Uint63.wB with (2 ^ 63)%Z. lia.
Qed.

(** X2: parsing inverts formatting.  For natural numbers in the range of
    exact integers, [parseDimension] applied to the text [WIDTHxHEIGHT]
    returns that width and that height. *)
Theorem parseDimension_inverts_formatDimension (width height : nat) :
  (Z.of_nat width < 2 ^ 53)%Z → (Z.of_nat height < 2 ^ 53)%Z →
  parseDimension (formatDimension width height) = Ok (N2F width, N2F height).
Proof.
  intros Hw Hh. unfold parseDimension, formatDimension.
  rewrite (proj2 (matchDimension_spec _ (showNat width) (showNat height)))
    by (split; [done|split; apply showNat_decimal]).
  unfold parseInt, N2F. rewrite !digitsValue_showNat.
  by rewrite !ofInteger_Z2F by lia.
Qed.

Lemma parseDimension_inverts_formatDimension_witness :
  parseDimension (formatDimension 800 480) = Ok (N2F 800, N2F 480).
Proof.
  apply (parseDimension_inverts_formatDimension 800 480); reflexivity.
Defined.

End Dimension.
(** ** EXIF orientation and thumbnails *)

Module Orientation.

Import JS Palettes Presets Processor Transforms ExifSpec PipelineSpec.

(** The seven orientations that transform the image. *)
Lemma orientation_cases (k : Z) :
  (2 ≤ k ≤ 8)%Z →
  k = 2%Z ∨ k = 3%Z ∨ k = 4%Z ∨ k = 5%Z ∨ k = 6%Z ∨ k = 7%Z ∨ k = 8%Z.
Proof. lia. Qed.

Lemma exifSize_integer (k : Z) (w h : nat) :
  (2 ≤ k ≤ 8)%Z →
  exifSize (Z2F k) w h = if (5 <=? k)%Z then (h, w) else (w, h).
Proof.
  intros Hk.
  destruct (orientation_cases k Hk) as [->|[->|[->|[->|[->|[->| ->]]]]]];
    reflexivity.
Qed.

Lemma placement (k : Z) (w h : nat) (p : Z * Z) :
  (2 ≤ k ≤ 8)%Z → inCanvas w h p →
  let size := if (5 <=? k)%Z then (h, w) else (w, h) in
  carries (exifMatrix (Z2F k) (Z.of_nat w) (Z.of_nat h)) p
    (exifPixel k (Z.of_nat w) (Z.of_nat h) p) ∧
  inCanvas size.1 size.2 (exifPixel k (Z.of_nat w) (Z.of_nat h) p).
Proof.
  intros Hk Hp. destruct p as [x y]. destruct Hp as [Hx Hy].
  cbn [fst snd] in Hx, Hy.
  destruct (orientation_cases k Hk) as [->|[->|[->|[->|[->|[->| ->]]]]]];
    (split; [|unfold inCanvas; simpl; lia]);
    unfold carries, corners, transformPoint;
    generalize (Z.of_nat w) (Z.of_nat h); intros W H;
    match goal with
    | |- context [exifMatrix ?o W H] =>
        let m := eval cbv in (exifMatrix o W H) in
        change (exifMatrix o W H) with m
    end;
    cbn [exifPixel Z.eqb Pos.eqb fst snd ma mb mc md me mf];
    corner_cases.
Qed.

Lemma source_pixel (k : Z) (w h : nat) (q : Z * Z) :
  (2 ≤ k ≤ 8)%Z →
  let size := if (5 <=? k)%Z then (h, w) else (w, h) in
  inCanvas size.1 size.2 q →
  inCanvas w h (exifSource k (Z.of_nat w) (Z.of_nat h) q) ∧
  exifPixel k (Z.of_nat w) (Z.of_nat h)
    (exifSource k (Z.of_nat w) (Z.of_nat h) q) = q.
Proof.
  intros Hk. destruct q as [x y].
  destruct (orientation_cases k Hk) as [->|[->|[->|[->|[->|[->| ->]]]]]];
    intros size [Hx Hy]; cbn in Hx, Hy;
    (split; [unfold inCanvas; simpl; lia|simpl; f_equal; lia]).
Qed.

Lemma exifPixel_inj (k w h : Z) (p p' : Z * Z) :
  exifPixel k w h p = exifPixel k w h p' → p = p'.
Proof.
  destruct p as [x y], p' as [x' y']. unfold exifPixel.
  repeat (destruct (_ =? _)%Z); intros [= H1 H2]; f_equal; lia.
Qed.

Section WithPlatform.

Variable drawTransformed : Canvas → Matrix → nat → nat → list Z.
Variable drawCropped : Canvas → float * float * float * float → nat → nat → list Z.

Local Abbreviation applyExifOrientation :=
  (Transforms.applyExifOrientation drawTransformed).
Local Abbreviation generateThumbnail :=
  (Transforms.generateThumbnail drawCropped).

(** X3: for each EXIF orientation 2 to 8, [applyExifOrientation] draws the
    source through a transform that carries every source pixel onto one
    pixel of the new canvas, the one the orientation calls for (mirrored,
    turned or transposed).  The new canvas has the source's size, swapped
    for the orientations 5 to 8, and the source pixels fill it: every pixel
    of the new canvas is reached from exactly one source pixel. *)
Theorem applyExifOrientation_permutes_pixels (canvas : Canvas) (k : Z) :
  (2 ≤ k ≤ 8)%Z →
  let w := cwidth canvas in
  let h := cheight canvas in
  let m := exifMatrix (Z2F k) (Z.of_nat w) (Z.of_nat h) in
  let place := exifPixel k (Z.of_nat w) (Z.of_nat h) in
  let source := exifSource k (Z.of_nat w) (Z.of_nat h) in
  let result := applyExifOrientation canvas (Z2F k) in
  (cwidth result, cheight result) = (if (5 <=? k)%Z then (h, w) else (w, h)) ∧
  pixels result = drawTransformed canvas m (cwidth result) (cheight result) ∧
  (∀ p, inCanvas w h p →
     carries m p (place p) ∧
     inCanvas (cwidth result) (cheight result) (place p)) ∧
  (∀ q, inCanvas (cwidth result) (cheight result) q →
     inCanvas w h (source q) ∧ place (source q) = q) ∧
  (∀ p p', place p = place p' → p = p').
Proof.
  intros Hk w h m place source result.
  assert (Hres : result
                 = {| cwidth := (if (5 <=? k)%Z then (h, w) else (w, h)).1;
                      cheight := (if (5 <=? k)%Z then (h, w) else (w, h)).2;
                      pixels :=
                        drawTransformed canvas m
                          (if (5 <=? k)%Z then (h, w) else (w, h)).1
                          (if (5 <=? k)%Z then (h, w) else (w, h)).2 |}).
  { subst result. unfold Transforms.applyExifOrientation.
    fold w h. rewrite (exifSize_integer k w h Hk).
    destruct (orientation_cases k Hk) as [->|[->|[->|[->|[->|[->| ->]]]]]];
      reflexivity. }
  rewrite Hres. cbn [cwidth cheight pixels].
  split; [by destruct (5 <=? k)%Z|]. split; [done|].
  split; [|split].
  - intros p Hp. by apply placement.
  - intros q Hq. by apply source_pixel.
  - intros p p'. apply exifPixel_inj.
Qed.


(** X4: orientation 1 returns the very canvas it was given.  A value that
    is none of the integers 1 to 8 (0, 9, a fraction, NaN) selects no
    transform: the source is copied as it is, onto a canvas of the source's
    size unless the value lies between 5 and 8, where the size is swapped
    all the same. *)
Theorem applyExifOrientation_other_values (canvas : Canvas) (orientation : float) :
  applyExifOrientation canvas 1 = canvas ∧
  ((∀ k, (1 ≤ k ≤ 8)%Z → (orientation =? Z2F k)%float = false) →
   let size :=
     if ((5 <=? orientation) && (orientation <=? 8))%float
     then (cheight canvas, cwidth canvas)
     else (cwidth canvas, cheight canvas) in
   applyExifOrientation canvas orientation
   = {| cwidth := size.1; cheight := size.2;
        pixels := drawTransformed canvas identityMatrix size.1 size.2 |}).
Proof.
  clear drawCropped. split; [reflexivity|].
  intros Hnone size. subst size.
  unfold Transforms.applyExifOrientation, exifMatrix, exifSize.
  pose proof (Hnone 1%Z ltac:(lia)) as H1.
  pose proof (Hnone 2%Z ltac:(lia)) as H2.
  pose proof (Hnone 3%Z ltac:(lia)) as H3.
  pose proof (Hnone 4%Z ltac:(lia)) as H4.
  pose proof (Hnone 5%Z ltac:(lia)) as H5.
  pose proof (Hnone 6%Z ltac:(lia)) as H6.
  pose proof (Hnone 7%Z ltac:(lia)) as H7.
  pose proof (Hnone 8%Z ltac:(lia)) as H8.
  change (Z2F 1) with 1%float in H1. change (Z2F 2) with 2%float in H2.
  change (Z2F 3) with 3%float in H3. change (Z2F 4) with 4%float in H4.
  change (Z2F 5) with 5%float in H5. change (Z2F 6) with 6%float in H6.
  change (Z2F 7) with 7%float in H7. change (Z2F 8) with 8%float in H8.
  rewrite H1, H2, H3, H4, H5, H6, H7, H8.
  by destruct ((5 <=? orientation) && (orientation <=? 8))%float.
Qed.


Section WithPipeline.

Variable Math_pow : float → float → float.
Variable drawImage : Canvas → nat → nat → list Z.
Variable drawRotated : Canvas → list Z.
Variable drawCover : Canvas → nat → nat → list Z.
Variable storedPixels : ImageData → list Z.

(** X5: a thumbnail has the requested size, swapped for a portrait source
    (a square one counts as landscape); made from the original canvas that
    [processImage] returns, it follows the orientation of the source
    whatever the options were. *)
Theorem generateThumbnail_follows_source
    (sourceCanvas : Canvas) (outputWidth outputHeight : nat)
    (source : Source) (options : Options) :
  let thumb := generateThumbnail sourceCanvas outputWidth outputHeight in
  let originalCanvas :=
    snd (processImage Math_pow drawImage drawRotated drawCover storedPixels
           source options) in
  let thumb' := generateThumbnail originalCanvas outputWidth outputHeight in
  (cwidth thumb, cheight thumb)
  = (if isPortraitCanvas sourceCanvas then (outputHeight, outputWidth)
     else (outputWidth, outputHeight)) ∧
  (cwidth thumb', cheight thumb')
  = (if isPortraitSource source then (outputHeight, outputWidth)
     else (outputWidth, outputHeight)).
Proof.
  intros thumb originalCanvas thumb'. split.
  - subst thumb. unfold Transforms.generateThumbnail, isPortraitCanvas.
    cbn [cwidth cheight]. by destruct (_ <? _)%nat.
  - subst thumb' originalCanvas.
    unfold Transforms.generateThumbnail, processImage, isPortraitSource.
    cbn [cwidth cheight snd].
    destruct source as [c|d]; cbn [loadSource cwidth cheight sourceWidth sourceHeight];
      by destruct (_ <? _)%nat.
Qed.

End WithPipeline.

End WithPlatform.

Lemma applyExifOrientation_permutes_pixels_witness :
  let blank := (λ (_ : Canvas) (_ : Matrix) (w h : nat),
                  replicate (4 * (w * h)) 0%Z) in
  let canvas := {| cwidth := 100; cheight := 50; pixels := [] |} in
  let result := Transforms.applyExifOrientation blank canvas 6 in
  (cwidth result, cheight result) = (50, 100) ∧
  ∀ p, inCanvas 100 50 p →
    carries (exifMatrix 6 100 50) p (exifPixel 6 100 50 p) ∧
    inCanvas 50 100 (exifPixel 6 100 50 p).
Proof.
  intros blank canvas result.
  destruct (applyExifOrientation_permutes_pixels blank canvas 6)
    as (Hsize & _ & Hplace & _); [lia|].
  split; [exact Hsize|exact Hplace].
Defined.

Lemma applyExifOrientation_other_values_witness :
  let blank := (λ (_ : Canvas) (_ : Matrix) (w h : nat),
                  replicate (4 * (w * h)) 0%Z) in
  let canvas := {| cwidth := 100; cheight := 50; pixels := [] |} in
  Transforms.applyExifOrientation blank canvas 9
  = {| cwidth := 100; cheight := 50;
       pixels := blank canvas identityMatrix 100 50 |}.
Proof.
  intros blank canvas.
  apply (proj2 (applyExifOrientation_other_values blank canvas 9)).
  intros k Hk.
  assert (Hcases : k = 1%Z ∨ (2 ≤ k ≤ 8)%Z) by lia.
  destruct Hcases as [->|Hk']; [reflexivity|].
  destruct (orientation_cases k Hk') as [->|[->|[->|[->|[->|[->| ->]]]]]];
    reflexivity.
Defined.

End Orientation.
(** ** Facts on numbers *)

Module FloatFacts.

Import JS PixelSpec.
Local Open Scope float_scope.

Lemma mul_nan_r x : x * nan = nan.
Proof.
  apply Prim2SF_inj. rewrite mul_spec.
  change (Prim2SF nan) with S754_nan. by destruct (Prim2SF x).
Qed.

Lemma mul_nan_l x : nan * x = nan.
Proof.
  apply Prim2SF_inj. rewrite mul_spec.
  change (Prim2SF nan) with S754_nan. by destruct (Prim2SF x).
Qed.

Lemma add_nan_r x : x + nan = nan.
Proof.
  apply Prim2SF_inj. rewrite add_spec.
  change (Prim2SF nan) with S754_nan. by destruct (Prim2SF x) as [[]|[]| |].
Qed.

Lemma sub_nan_r x : x - nan = nan.
Proof.
  apply Prim2SF_inj. rewrite sub_spec.
  change (Prim2SF nan) with S754_nan. by destruct (Prim2SF x) as [[]|[]| |].
Qed.

(** A finite number is a zero or has a mantissa and an exponent. *)
Lemma finite_cases k :
  is_finite k = true →
  (∃ s, Prim2SF k = S754_zero s) ∨ (∃ s m e, Prim2SF k = S754_finite s m e).
Proof.
  unfold is_finite, is_nan, is_infinity.
  rewrite !FloatAxioms.eqb_spec, abs_spec.
  destruct (Prim2SF k) as [s|s| |s m e].
  - intros _. left. by exists s.
  - by rewrite orb_true_r.
  - done.
  - intros _. right. by exists s, m, e.
Qed.

(** Zero times a finite number is a zero, which adds nothing. *)
Lemma zero_mul_add k c :
  is_finite k = true → is_nan c = false → (c =? 0) = false → 0 * k + c = c.
Proof.
  intros Hk Hc Hc0.
  assert (Hz : 0 * k = 0 ∨ 0 * k = -0).
  { assert (H : ∃ s, Prim2SF (0 * k) = S754_zero s).
    { rewrite mul_spec. change (Prim2SF 0) with (S754_zero false).
      destruct (finite_cases k Hk) as [[s ->]|(s & m & e & ->)];
        by eexists. }
    destruct H as [s Hs]. apply (f_equal SF2Prim) in Hs.
    rewrite SF2Prim_Prim2SF in Hs. destruct s; [by right|by left]. }
  apply Prim2SF_inj. rewrite add_spec.
  unfold is_nan in Hc. rewrite FloatAxioms.eqb_spec in Hc, Hc0.
  change (Prim2SF 0) with (S754_zero false) in Hc0.
  destruct Hz as [-> | ->];
    [change (Prim2SF 0) with (S754_zero false)
    |change (Prim2SF (-0)) with (S754_zero true)];
    by destruct (Prim2SF c) as [[]|[]| |].
Qed.

(** *** Bytes as numbers, by enumeration *)

Lemma forall_bytes (P : Z → bool) :
  List.forallb P allBytes = true → ∀ v, (0 ≤ v ≤ 255)%Z → P v = true.
Proof.
  intros H v Hv. rewrite List.forallb_forall in H. apply H.
  apply List.in_map_iff. exists (Z.to_nat v). split; [lia|].
  apply List.in_seq. lia.
Qed.

Lemma forall_byte_pairs (P : Z → Z → bool) :
  List.forallb (λ a, List.forallb (P a) allBytes) allBytes = true →
  ∀ a b, (0 ≤ a ≤ 255)%Z → (0 ≤ b ≤ 255)%Z → P a b = true.
Proof.
  intros H a b Ha Hb.
  apply (forall_bytes (P a)); [|done].
  by apply (forall_bytes (λ a, List.forallb (P a) allBytes)).
Qed.

Lemma byte_not_nan v : (0 ≤ v ≤ 255)%Z → is_nan (Z2F v) = false.
Proof.
  intros Hv. apply negb_true_iff.
  apply (forall_bytes (λ v, negb (is_nan (Z2F v)))); [by vm_compute|done].
Qed.

Lemma byte_sign v : (0 ≤ v ≤ 255)%Z → get_sign (Z2F v) = false.
Proof.
  intros Hv. apply negb_true_iff.
  apply (forall_bytes (λ v, negb (get_sign (Z2F v)))); [by vm_compute|done].
Qed.

Lemma byte_ltb a b :
  (0 ≤ a ≤ 255)%Z → (0 ≤ b ≤ 255)%Z → (Z2F a <? Z2F b) = (a <? b)%Z.
Proof.
  intros Ha Hb. apply Bool.eqb_prop.
  apply (forall_byte_pairs (λ a b, Bool.eqb (Z2F a <? Z2F b) (a <? b)%Z));
    [by vm_compute|done|done].
Qed.

(** Dividing by 255 keeps bytes apart. *)
Lemma byte_fraction_eqb a b :
  (0 ≤ a ≤ 255)%Z → (0 ≤ b ≤ 255)%Z →
  (Z2F a / 255 =? Z2F b / 255) = (a =? b)%Z.
Proof.
  intros Ha Hb. apply Bool.eqb_prop.
  apply (forall_byte_pairs
           (λ a b, Bool.eqb (Z2F a / 255 =? Z2F b / 255) (a =? b)%Z));
    [by vm_compute|done|done].
Qed.

Lemma byte_max a b :
  (0 ≤ a ≤ 255)%Z → (0 ≤ b ≤ 255)%Z →
  Math_max (Z2F a) (Z2F b) = Z2F (Z.max a b).
Proof.
  intros Ha Hb. unfold Math_max.
  rewrite !byte_not_nan, !byte_ltb, byte_sign by done. simpl.
  destruct (Z.ltb_spec a b); [by rewrite Z.max_r by lia|].
  destruct (Z.ltb_spec b a); [by rewrite Z.max_l by lia|].
  by rewrite Z.max_l by lia.
Qed.

Lemma byte_min a b :
  (0 ≤ a ≤ 255)%Z → (0 ≤ b ≤ 255)%Z →
  Math_min (Z2F a) (Z2F b) = Z2F (Z.min a b).
Proof.
  intros Ha Hb. unfold Math_min.
  rewrite !byte_not_nan, !byte_ltb, byte_sign by done. simpl.
  destruct (Z.ltb_spec a b); [by rewrite Z.min_l by lia|].
  destruct (Z.ltb_spec b a); [by rewrite Z.min_r by lia|].
  replace b with a by lia. by rewrite Z.min_id.
Qed.

End FloatFacts.
(** ** Loops over the pixels *)

Module PixelLoops.

Import JS Palettes Presets Processor DitherSpec PixelSpec Loops.
Local Open Scope float_scope.

Lemma pixelOffsets_wf d n :
  length d = (4 * n)%nat → pixelOffsets d = (λ k, 4 * k)%nat <$> seq 0 n.
Proof. unfold pixelOffsets. intros ->. do 2 f_equal. lia. Qed.

Lemma readU8_Some d i v : d !! i = Some v → readU8 d i = Z2F v.
Proof. unfold readU8. by intros ->. Qed.

Lemma pixelAt_lookup d p px :
  pixelAt d p = Some px →
  d !! (4 * p)%nat = Some px.1.1 ∧ d !! (4 * p + 1)%nat = Some px.1.2 ∧
  d !! (4 * p + 2)%nat = Some px.2.
Proof.
  unfold pixelAt.
  destruct (d !! (4 * p)%nat) as [r|]; [|done].
  destruct (d !! (4 * p + 1)%nat) as [g|]; [|done].
  destruct (d !! (4 * p + 2)%nat) as [b|]; [|done].
  by intros [= <-].
Qed.

Lemma pixelAt_is_Some d n p :
  length d = (4 * n)%nat → (p < n)%nat → ∃ px, pixelAt d p = Some px.
Proof.
  intros Hlen Hp. unfold pixelAt.
  destruct (lookup_lt_is_Some_2 d (4 * p)%nat) as [r ->]; [lia|].
  destruct (lookup_lt_is_Some_2 d (4 * p + 1)%nat) as [g ->]; [lia|].
  destruct (lookup_lt_is_Some_2 d (4 * p + 2)%nat) as [b ->]; [lia|].
  by eexists.
Qed.

Lemma pixelAt_None d n p :
  length d = (4 * n)%nat → (n ≤ p)%nat → pixelAt d p = None.
Proof.
  intros Hlen Hp. unfold pixelAt.
  by rewrite (proj2 (lookup_ge_None d (4 * p)%nat)) by lia.
Qed.

Lemma length_mapPixels F d : length (mapPixels F d) = length d.
Proof. apply length_imap. Qed.

Lemma length_mapPixelsBelow F k d : length (mapPixelsBelow F k d) = length d.
Proof. apply length_imap. Qed.

Lemma mapPixelsBelow_0 F d : mapPixelsBelow F 0 d = d.
Proof.
  apply list_eq. intros j. unfold mapPixelsBelow. rewrite list_lookup_imap.
  by destruct (d !! j).
Qed.

Lemma mapPixelsBelow_all F d n :
  length d = (4 * n)%nat → mapPixelsBelow F n d = mapPixels F d.
Proof.
  intros Hlen. apply list_eq. intros j. unfold mapPixelsBelow, mapPixels.
  rewrite !list_lookup_imap. destruct (d !! j) eqn:Hj; [|done].
  apply lookup_lt_Some in Hj. cbn [fmap option_fmap option_map].
  destruct (Nat.ltb_spec (j / 4) n); [done|lia].
Qed.

(** The bytes of a pixel in the partly mapped buffer. *)
Lemma lookup_mapPixelsBelow F k d n p c px :
  length d = (4 * n)%nat → (c < 4)%nat → pixelAt d p = Some px →
  mapPixelsBelow F k d !! (4 * p + c)%nat
  = if (p <? k)%nat then
      match c with
      | 0%nat => Some (F px).1.1
      | 1%nat => Some (F px).1.2
      | 2%nat => Some (F px).2
      | _ => d !! (4 * p + c)%nat
      end
    else d !! (4 * p + c)%nat.
Proof.
  intros Hlen Hc Hpx. unfold mapPixelsBelow. rewrite list_lookup_imap.
  replace ((4 * p + c) / 4)%nat with p by lia.
  replace ((4 * p + c) mod 4)%nat with c by lia.
  rewrite Hpx.
  assert (Hp : (p < n)%nat).
  { destruct (Nat.lt_ge_cases p n) as [?|Hge]; [done|].
    by rewrite (pixelAt_None d n p Hlen Hge) in Hpx. }
  destruct (lookup_lt_is_Some_2 d (4 * p + c)%nat) as [v Hv]; [lia|].
  rewrite Hv. cbn [fmap option_fmap option_map].
  destruct (p <? k)%nat; [|done].
  destruct (F px) as [[r g] b]. cbn [fst snd].
  by destruct c as [|[|[|c]]].
Qed.

Lemma lookup_mapPixels F d n p c px :
  length d = (4 * n)%nat → (c < 4)%nat → pixelAt d p = Some px →
  mapPixels F d !! (4 * p + c)%nat
  = match c with
    | 0%nat => Some (F px).1.1
    | 1%nat => Some (F px).1.2
    | 2%nat => Some (F px).2
    | _ => d !! (4 * p + c)%nat
    end.
Proof.
  intros Hlen Hc Hpx.
  assert (Hp : (p < n)%nat).
  { destruct (Nat.lt_ge_cases p n) as [?|Hge]; [done|].
    by rewrite (pixelAt_None d n p Hlen Hge) in Hpx. }
  rewrite <- (mapPixelsBelow_all F d n Hlen).
  rewrite (lookup_mapPixelsBelow F n d n p c px) by done.
  by destruct (Nat.ltb_spec p n); [|lia].
Qed.

(** Every offset is a byte of some pixel. *)
Lemma offset_split (j : nat) : ∃ p c, j = (4 * p + c)%nat ∧ (c < 4)%nat.
Proof. exists (j / 4)%nat, (j mod 4)%nat. lia. Qed.

Lemma pixelAt_mapPixels F d n p :
  length d = (4 * n)%nat → pixelAt (mapPixels F d) p = F <$> pixelAt d p.
Proof.
  intros Hlen.
  destruct (Nat.lt_ge_cases p n) as [Hp|Hp].
  - destruct (pixelAt_is_Some d n p Hlen Hp) as [px Hpx]. rewrite Hpx.
    unfold pixelAt at 1.
    rewrite <- (Nat.add_0_r (4 * p)) at 1.
    rewrite !(lookup_mapPixels F d n p _ px) by (done || lia).
    simpl. by destruct (F px) as [[r g] b].
  - rewrite (pixelAt_None d n p Hlen Hp).
    apply (pixelAt_None _ n); [by rewrite length_mapPixels|done].
Qed.

(** One iteration maps one more pixel. *)
Lemma applyOp_step op d n k :
  length d = (4 * n)%nat → (k < n)%nat →
  applyOp op (mapPixelsBelow (pixelFn op) k d) (4 * k)
  = mapPixelsBelow (pixelFn op) (S k) d.
Proof.
  intros Hlen Hk.
  destruct (pixelAt_is_Some d n k Hlen Hk) as [[[r g] b] Hpx].
  pose proof (pixelAt_lookup d k _ Hpx) as (Hr & Hg & Hb). cbn [fst snd] in *.
  set (s := mapPixelsBelow (pixelFn op) k d).
  assert (Hs : ∀ c, (c < 4)%nat → s !! (4 * k + c)%nat = d !! (4 * k + c)%nat).
  { intros c Hc. subst s.
    rewrite (lookup_mapPixelsBelow _ k d n k c _ Hlen Hc Hpx).
    by rewrite Nat.ltb_irrefl. }
  assert (Hlens : length s = (4 * n)%nat)
    by (subst s; by rewrite length_mapPixelsBelow).
  unfold applyOp.
  rewrite (readU8_Some s (4 * k) r)
    by (rewrite <- Hr, <- (Nat.add_0_r (4 * k)); apply Hs; lia).
  rewrite (readU8_Some s (4 * k + 1) g) by (by rewrite Hs by lia).
  rewrite (readU8_Some s (4 * k + 2) b) by (by rewrite Hs by lia).
  assert (HF : pixelFn op (r, g, b)
               = match op (Z2F r, Z2F g, Z2F b) with
                 | Some (v1, v2, v3) =>
                     (ToUint8Clamp v1, ToUint8Clamp v2, ToUint8Clamp v3)
                 | None => (r, g, b)
                 end) by done.
  set (res := match op (Z2F r, Z2F g, Z2F b) with
              | Some (v1, v2, v3) =>
                  writeU8 (writeU8 (writeU8 s (4 * k) v1) (4 * k + 1) v2)
                    (4 * k + 2) v3
              | None => s
              end).
  assert (Hlenr : length res = (4 * n)%nat).
  { subst res. destruct (op _) as [[[v1 v2] v3]|]; unfold writeU8;
      by rewrite ?length_insert. }
  apply list_eq. intros j.
  destruct (offset_split j) as (p & c & -> & Hc).
  destruct (Nat.lt_ge_cases p n) as [Hp|Hp].
  2:{ rewrite (proj2 (lookup_ge_None res _)) by lia.
      rewrite (proj2 (lookup_ge_None (mapPixelsBelow _ _ _) _)); [done|].
      rewrite length_mapPixelsBelow. lia. }
  destruct (pixelAt_is_Some d n p Hlen Hp) as [px' Hpx'].
  rewrite (lookup_mapPixelsBelow _ (S k) d n p c _ Hlen Hc Hpx').
  destruct (decide (p = k)) as [->|Hne].
  - rewrite Hpx in Hpx'. injection Hpx' as <-.
    destruct (Nat.ltb_spec k (S k)); [|lia].
    rewrite HF. subst res.
    destruct (op (Z2F r, Z2F g, Z2F b)) as [[[v1 v2] v3]|]; cbn [fst snd].
    + unfold writeU8.
      destruct c as [|[|[|c]]]; [| | |].
      * rewrite !list_lookup_insert_ne by lia.
        rewrite Nat.add_0_r. apply list_lookup_insert_eq. lia.
      * rewrite list_lookup_insert_ne by lia.
        apply list_lookup_insert_eq. rewrite length_insert. lia.
      * apply list_lookup_insert_eq. rewrite !length_insert. lia.
      * rewrite !list_lookup_insert_ne by lia. by apply Hs.
    + rewrite Hs by done.
      destruct c as [|[|[|c]]]; [| | |done]; [by rewrite Nat.add_0_r|done|done].
  - assert (Hsame : s !! (4 * p + c)%nat
                    = mapPixelsBelow (pixelFn op) (S k) d !! (4 * p + c)%nat).
    { subst s.
      rewrite !(lookup_mapPixelsBelow _ _ d n p c _ Hlen Hc Hpx').
      destruct (Nat.ltb_spec p k), (Nat.ltb_spec p (S k)); try done; lia. }
    rewrite (lookup_mapPixelsBelow _ (S k) d n p c _ Hlen Hc Hpx') in Hsame.
    rewrite <- Hsame. subst res.
    destruct (op _) as [[[v1 v2] v3]|]; [|done].
    unfold writeU8. by rewrite !list_lookup_insert_ne by lia.
Qed.

(** A loop over the pixels of a well-formed buffer maps every pixel. *)
Lemma fold_applyOp op d n :
  length d = (4 * n)%nat →
  fold_left (applyOp op) (pixelOffsets d) d = mapPixels (pixelFn op) d.
Proof.
  intros Hlen. rewrite (pixelOffsets_wf d n Hlen).
  rewrite <- (mapPixelsBelow_all _ d n Hlen).
  assert (H : ∀ k, (k ≤ n)%nat →
            fold_left (applyOp op) ((λ k, 4 * k)%nat <$> seq 0 k) d
            = mapPixelsBelow (pixelFn op) k d).
  { induction k as [|k IH]; intros Hk.
    - by rewrite mapPixelsBelow_0.
    - rewrite seq_S, fmap_app, fold_left_app, IH by lia. simpl.
      by apply (applyOp_step op d n). }
  by apply H.
Qed.

Lemma mapPixels_id d : mapPixels (λ px, px) d = d.
Proof.
  apply list_eq. intros j. unfold mapPixels. rewrite list_lookup_imap.
  destruct (d !! j) as [c|] eqn:Hj; [|done]. cbn [fmap option_fmap option_map].
  destruct (pixelAt d (j / 4)) as [[[r g] b]|] eqn:Hpx; [|done].
  apply pixelAt_lookup in Hpx as (Hr & Hg & Hb). cbn [fst snd] in *.
  destruct (j mod 4)%nat as [|[|[|c']]] eqn:Hc; [| | |done]; f_equal.
  - replace j with (4 * (j / 4))%nat in Hj by lia. congruence.
  - replace j with (4 * (j / 4) + 1)%nat in Hj by lia. congruence.
  - replace j with (4 * (j / 4) + 2)%nat in Hj by lia. congruence.
Qed.

Lemma mapPixels_compose F G d n :
  length d = (4 * n)%nat →
  mapPixels F (mapPixels G d) = mapPixels (λ px, F (G px)) d.
Proof.
  intros Hlen. apply list_eq. intros j.
  destruct (offset_split j) as (p & c & -> & Hc).
  destruct (Nat.lt_ge_cases p n) as [Hp|Hp].
  2:{ rewrite !(proj2 (lookup_ge_None _ _)); [done|..];
        rewrite ?length_mapPixels; lia. }
  destruct (pixelAt_is_Some d n p Hlen Hp) as [px Hpx].
  rewrite (lookup_mapPixels F (mapPixels G d) n p c (G px));
    [|by rewrite length_mapPixels|done|by rewrite (pixelAt_mapPixels G d n), Hpx].
  rewrite (lookup_mapPixels (λ px, F (G px)) d n p c px) by done.
  destruct c as [|[|[|c]]]; try done.
  by rewrite (lookup_mapPixels G d n p _ px) by done.
Qed.

Lemma mapPixels_alpha F d i :
  (i mod 4 = 3)%nat → mapPixels F d !! i = d !! i.
Proof.
  intros Hi. unfold mapPixels. rewrite list_lookup_imap.
  destruct (d !! i) as [c|]; [|done]. cbn [fmap option_fmap option_map].
  destruct (pixelAt d (i / 4)) as [px|]; [|done].
  destruct (F px) as [[r g] b]. by rewrite Hi.
Qed.

End PixelLoops.
(** ** The tone functions, pixel by pixel *)

Module ToneSteps.

Import JS Palettes Presets Processor DitherSpec PixelSpec ToneSpec Loops.
Import FloatFacts PixelLoops.
Local Open Scope float_scope.

Lemma readU8_writeU8_ne d i j v : i ≠ j → readU8 (writeU8 d i v) j = readU8 d j.
Proof. intros Hne. unfold readU8, writeU8. by rewrite list_lookup_insert_ne. Qed.

(** Each loop body is a pixel operation. *)
Lemma exposure_body e d i :
  exposeChannel e (exposeChannel e (exposeChannel e d i) (i + 1)) (i + 2)
  = applyOp (exposureOp e) d i.
Proof.
  unfold exposeChannel, applyOp, exposureOp, channelOp.
  by rewrite !readU8_writeU8_ne by lia.
Qed.

Lemma contrast_body k d i :
  contrastChannel k (contrastChannel k (contrastChannel k d i) (i + 1)) (i + 2)
  = applyOp (contrastOp k) d i.
Proof.
  unfold contrastChannel, applyOp, contrastOp, channelOp.
  by rewrite !readU8_writeU8_ne by lia.
Qed.

Lemma scurve_body Math_pow s sb hc mp d i :
  fold_left (λ d c, scurveChannel Math_pow s sb hc mp d (i + c)) (seq 0 3) d
  = applyOp (scurveOp Math_pow s sb hc mp) d i.
Proof.
  cbn [seq fold_left]. rewrite Nat.add_0_r.
  unfold scurveChannel, applyOp, scurveOp, channelOp.
  by rewrite !readU8_writeU8_ne by lia.
Qed.

Lemma saturation_body s d i :
  saturatePixel s d i = applyOp (saturationOp s) d i.
Proof.
  unfold saturatePixel, applyOp, saturationOp. cbv zeta.
  destruct (_ =? _); [done|].
  repeat (destruct (Math_floor _ =? _); [done|]). done.
Qed.

Lemma compress_body Math_pow blackL whiteL d i :
  compressPixel Math_pow blackL whiteL d i
  = applyOp (compressOp Math_pow blackL whiteL) d i.
Proof.
  unfold compressPixel, applyOp, compressOp.
  destruct (rgbToLab _ _ _ _) as [[l a] bLab].
  by destruct (labToRgb _ _ _ _) as [[newR newG] newB].
Qed.

Section Functions.

Variable imageData : ImageData.
Hypothesis Hwf : wfImage imageData.

Local Abbreviation mapped op :=
  (withData imageData (mapPixels (pixelFn op) (data imageData))).

Lemma applyExposure_pixels e :
  applyExposure imageData e
  = if e =? 1.0 then imageData else mapped (exposureOp e).
Proof.
  unfold applyExposure. destruct (e =? 1.0); [done|]. f_equal.
  rewrite <- (fold_applyOp _ _ _ Hwf).
  apply fold_left_ext. intros d i. apply exposure_body.
Qed.

Lemma applyContrast_pixels k :
  applyContrast imageData k
  = if k =? 1.0 then imageData else mapped (contrastOp k).
Proof.
  unfold applyContrast. destruct (k =? 1.0); [done|]. f_equal.
  rewrite <- (fold_applyOp _ _ _ Hwf).
  apply fold_left_ext. intros d i. apply contrast_body.
Qed.

Lemma applySaturation_pixels s :
  applySaturation imageData s
  = if s =? 1.0 then imageData else mapped (saturationOp s).
Proof.
  unfold applySaturation. destruct (s =? 1.0); [done|]. f_equal.
  rewrite <- (fold_applyOp _ _ _ Hwf).
  apply fold_left_ext. intros d i. apply saturation_body.
Qed.

Lemma applyScurveTonemap_pixels Math_pow s sb hc mp :
  applyScurveTonemap Math_pow imageData s sb hc mp
  = if s =? 0 then imageData else mapped (scurveOp Math_pow s sb hc mp).
Proof.
  unfold applyScurveTonemap. destruct (s =? 0); [done|]. f_equal.
  rewrite <- (fold_applyOp _ _ _ Hwf).
  apply fold_left_ext. intros d i. apply scurve_body.
Qed.

Lemma compress_pixels Math_pow blackL whiteL :
  fold_left (compressPixel Math_pow blackL whiteL)
    (pixelOffsets (data imageData)) (data imageData)
  = mapPixels (pixelFn (compressOp Math_pow blackL whiteL)) (data imageData).
Proof.
  rewrite <- (fold_applyOp _ _ _ Hwf).
  apply fold_left_ext. intros d i. apply compress_body.
Qed.

End Functions.

(** An image whose every pixel went through [F]. *)
Lemma wfImage_mapped imageData F :
  wfImage imageData →
  wfImage (withData imageData (mapPixels F (data imageData))).
Proof. unfold wfImage. simpl. by rewrite length_mapPixels. Qed.

Lemma unchanged imageData :
  imageData = withData imageData (mapPixels (λ px, px) (data imageData)).
Proof. rewrite mapPixels_id. by destruct imageData. Qed.

(** Each step of [preprocessImage] applies one function, fixed by the
    parameters, to every pixel. *)
Lemma stepExposure_pointwise params :
  ∃ F, ∀ imageData, wfImage imageData →
    stepExposure params imageData
    = withData imageData (mapPixels F (data imageData)).
Proof.
  unfold stepExposure. destruct (setAndNotOne (exposure params)).
  - destruct (toNumber (exposure params) =? 1.0) eqn:He.
    + exists (λ px, px). intros imageData Hwf.
      rewrite (applyExposure_pixels imageData Hwf), He. apply unchanged.
    + eexists. intros imageData Hwf.
      by rewrite (applyExposure_pixels imageData Hwf), He.
  - exists (λ px, px). intros imageData _. apply unchanged.
Qed.

Lemma stepSaturation_pointwise params :
  ∃ F, ∀ imageData, wfImage imageData →
    stepSaturation params imageData
    = withData imageData (mapPixels F (data imageData)).
Proof.
  unfold stepSaturation.
  destruct (toNumber (saturation params) =? 1.0) eqn:Hs; simpl.
  - exists (λ px, px). intros imageData _. apply unchanged.
  - eexists. intros imageData Hwf.
    by rewrite (applySaturation_pixels imageData Hwf), Hs.
Qed.

Lemma stepTone_pointwise Math_pow params :
  ∃ F, ∀ imageData, wfImage imageData →
    stepTone Math_pow params imageData
    = withData imageData (mapPixels F (data imageData)).
Proof.
  unfold stepTone. destruct (String.eqb (toneModeOf params) "contrast").
  - destruct (setAndNotOne (contrast params)).
    + destruct (toNumber (contrast params) =? 1.0) eqn:Hc.
      * exists (λ px, px). intros imageData Hwf.
        rewrite (applyContrast_pixels imageData Hwf), Hc. apply unchanged.
      * eexists. intros imageData Hwf.
        by rewrite (applyContrast_pixels imageData Hwf), Hc.
    + exists (λ px, px). intros imageData _. apply unchanged.
  - destruct (toNumber (strength params) =? 0) eqn:Hs.
    + exists (λ px, px). intros imageData Hwf.
      rewrite (applyScurveTonemap_pixels imageData Hwf), Hs. apply unchanged.
    + eexists. intros imageData Hwf.
      by rewrite (applyScurveTonemap_pixels imageData Hwf), Hs.
Qed.

Lemma stepCompress_pointwise Math_pow params perceivedPalette :
  ∃ F, ∀ imageData, wfImage imageData →
    stepCompress Math_pow params perceivedPalette imageData
    = withData imageData (mapPixels F (data imageData)).
Proof.
  unfold stepCompress.
  destruct (compressDynamicRange params) as [[]|];
    [destruct perceivedPalette as [pal|]|..];
    try (exists (λ px, px); intros imageData _; apply unchanged).
  eexists. intros imageData Hwf. cbv zeta.
  by rewrite (compress_pixels imageData Hwf).
Qed.

Lemma preprocessImage_pointwise Math_pow params perceivedPalette :
  ∃ F, ∀ imageData, wfImage imageData →
    preprocessImage Math_pow imageData params perceivedPalette
    = withData imageData (mapPixels F (data imageData)).
Proof.
  destruct (stepExposure_pointwise params) as [F1 H1].
  destruct (stepSaturation_pointwise params) as [F2 H2].
  destruct (stepTone_pointwise Math_pow params) as [F3 H3].
  destruct (stepCompress_pointwise Math_pow params perceivedPalette) as [F4 H4].
  exists (λ px, F4 (F3 (F2 (F1 px)))). intros imageData Hwf.
  unfold preprocessImage.
  rewrite (H1 imageData Hwf).
  rewrite H2 by (by repeat apply wfImage_mapped).
  rewrite H3 by (by repeat apply wfImage_mapped).
  rewrite H4 by (by repeat apply wfImage_mapped).
  unfold withData. cbn [width height data]. f_equal.
  unfold wfImage in Hwf.
  rewrite (mapPixels_compose F2 F1 _ _ Hwf).
  rewrite (mapPixels_compose F3 _ _ _ Hwf).
  by rewrite (mapPixels_compose F4 _ _ _ Hwf).
Qed.

End ToneSteps.
(** ** Properties of the tone functions *)

Module Adjustments.

Import JS Palettes Presets Processor DitherSpec PixelSpec ToneSpec Loops.
Import FloatFacts PixelLoops ToneSteps.
Local Open Scope float_scope.

(** X6: [preprocessImage] is a colour map applied pixel by pixel.  The
    image keeps its width, its height, its length and every alpha byte, and
    the colour a pixel gets depends on nothing but the colour it had: two
    pixels of the same colour, in the same image or in two images processed
    with the same parameters and palette, come out with the same colour. *)
Theorem preprocessImage_maps_each_pixel_alone
    (Math_pow : float → float → float) (params : ProcessingParams)
    (perceivedPalette : option Palette) (image image' : ImageData) :
  wfImage image → wfImage image' →
  let out := preprocessImage Math_pow image params perceivedPalette in
  let out' := preprocessImage Math_pow image' params perceivedPalette in
  width out = width image ∧ height out = height image ∧ wfImage out ∧
  (∀ i, (i mod 4 = 3)%nat → data out !! i = data image !! i) ∧
  (∀ p q px,
     pixelAt (data image) p = Some px → pixelAt (data image') q = Some px →
     pixelAt (data out) p = pixelAt (data out') q).
Proof.
  intros Hwf Hwf' out out'.
  destruct (preprocessImage_pointwise Math_pow params perceivedPalette)
    as [F HF].
  subst out out'. rewrite (HF image Hwf), (HF image' Hwf').
  cbn [withData width height data].
  split; [done|]. split; [done|]. split; [by apply wfImage_mapped|].
  split; [intros i Hi; by apply mapPixels_alpha|].
  intros p q px Hp Hq.
  rewrite (pixelAt_mapPixels F _ _ _ Hwf), (pixelAt_mapPixels F _ _ _ Hwf').
  by rewrite Hp, Hq.
Qed.

Lemma preprocessImage_maps_each_pixel_alone_witness :
  let out := preprocessImage (λ x _, x) twoPixels getDefaultParams
               (Some (perceived SPECTRA6)) in
  wfImage out ∧
  ∀ p q px,
    pixelAt (data twoPixels) p = Some px → pixelAt (data twoPixels) q = Some px →
    pixelAt (data out) p = pixelAt (data out) q.
Proof.
  intros out.
  destruct (preprocessImage_maps_each_pixel_alone (λ x _, x) getDefaultParams
              (Some (perceived SPECTRA6)) twoPixels twoPixels)
    as (_ & _ & Hwf & _ & Hsame); [reflexivity..|].
  split; [exact Hwf|exact Hsame].
Defined.

(** The contrast adjustment of one channel. *)
Lemma contrastChannel_alter k d i :
  contrastChannel k d i = alter (contrasted k) i d.
Proof.
  unfold contrastChannel, writeU8, readU8, contrasted.
  destruct (d !! i) as [v|] eqn:Hi.
  - apply list_eq. intros j. destruct (decide (i = j)) as [->|Hne].
    + rewrite list_lookup_alter_eq, Hi. simpl.
      apply list_lookup_insert_eq. by eapply lookup_lt_Some.
    + by rewrite list_lookup_insert_ne, list_lookup_alter_ne.
  - apply lookup_ge_None in Hi.
    rewrite list_insert_ge by done.
    apply list_eq. intros j. destruct (decide (i = j)) as [->|Hne].
    + rewrite list_lookup_alter_eq. by rewrite (proj2 (lookup_ge_None d j)).
    + by rewrite list_lookup_alter_ne.
Qed.

(** X7: [applyContrast] replaces every R, G and B byte [c] by
    [(c - 128) * contrast + 128], rounded, clamped to 0..255 and stored
    back; the alpha bytes are kept, and the image is returned untouched
    when the factor is 1.0.  Mid-gray is the pivot: for every finite factor
    a byte of 128 stays 128. *)
Theorem applyContrast_pivots_on_mid_gray (imageData : ImageData) (contrast : float) :
  applyContrast imageData contrast
  = (if contrast =? 1.0 then imageData
     else withData imageData (mapRGB (contrasted contrast) (data imageData))) ∧
  (is_finite contrast = true → contrasted contrast 128 = 128%Z).
Proof.
  split.
  - unfold applyContrast. destruct (contrast =? 1.0); [done|]. f_equal.
    rewrite <- (Tone.mapRGBBelow_all _ _ (4 * ((length (data imageData) + 3) / 4)))
      by lia.
    rewrite <- Tone.fold_channels. unfold pixelOffsets.
    apply fold_left_ext. intros d i. by rewrite !contrastChannel_alter.
  - intros Hk. unfold contrasted.
    change (Z2F 128 - 128) with 0.
    by rewrite (zero_mul_add contrast 128 Hk).
Qed.

Lemma applyContrast_pivots_on_mid_gray_witness :
  contrasted 0.5 128 = 128%Z.
Proof.
  apply (applyContrast_pivots_on_mid_gray twoPixels 0.5). reflexivity.
Defined.

(** A gray pixel is left alone by the saturation adjustment. *)
Lemma saturationOp_gray s v :
  (0 ≤ v ≤ 255)%Z → saturationOp s (Z2F v, Z2F v, Z2F v) = None.
Proof.
  intros Hv. unfold saturationOp.
  rewrite !byte_max, !byte_min by lia.
  rewrite byte_fraction_eqb by lia.
  by rewrite (proj2 (Z.eqb_eq _ _)) by lia.
Qed.

(** A pixel with colour loses it all to a saturation that is not a
    number. *)
Lemma saturationOp_nan r g b :
  (0 ≤ r ≤ 255)%Z → (0 ≤ g ≤ 255)%Z → (0 ≤ b ≤ 255)%Z →
  ¬ (r = g ∧ g = b) →
  saturationOp nan (Z2F r, Z2F g, Z2F b) = Some (nan, nan, nan).
Proof.
  intros Hr Hg Hb Hne. unfold saturationOp.
  rewrite !byte_max, !byte_min by lia.
  rewrite byte_fraction_eqb by lia.
  rewrite (proj2 (Z.eqb_neq _ _)) by lia.
  cbv zeta. rewrite !mul_nan_r.
  change (Math_max 0 (Math_min 1 nan)) with nan.
  rewrite ?mul_nan_r, ?mul_nan_l.
  change (nan / 2) with nan. rewrite ?sub_nan_r.
  by repeat (destruct (Math_floor _ =? _)).
Qed.

Lemma byteData_pixel d p px :
  byteData d → pixelAt d p = Some px →
  (0 ≤ px.1.1 ≤ 255)%Z ∧ (0 ≤ px.1.2 ≤ 255)%Z ∧ (0 ≤ px.2 ≤ 255)%Z.
Proof.
  intros Hd Hpx. apply pixelAt_lookup in Hpx as (Hr & Hg & Hb).
  unfold byteData in Hd. rewrite Forall_lookup in Hd.
  split; [by eapply Hd|]. split; by eapply Hd.
Qed.

(** X8: whatever the saturation factor, [applySaturation] leaves a gray
    pixel (R = G = B) exactly as it is. *)
Theorem applySaturation_keeps_gray_pixels
    (imageData : ImageData) (saturation : float) (p : nat) (v : Z) :
  wfImage imageData → (0 ≤ v ≤ 255)%Z →
  pixelAt (data imageData) p = Some (v, v, v) →
  pixelAt (data (applySaturation imageData saturation)) p = Some (v, v, v).
Proof.
  intros Hwf Hv Hp. rewrite (applySaturation_pixels imageData Hwf).
  destruct (saturation =? 1.0); [done|]. cbn [withData data].
  rewrite (pixelAt_mapPixels _ _ _ _ Hwf), Hp.
  cbn [fmap option_fmap option_map]. unfold pixelFn.
  by rewrite saturationOp_gray.
Qed.

Lemma applySaturation_keeps_gray_pixels_witness :
  pixelAt (data (applySaturation twoPixels 1.6)) 0 = Some (90, 90, 90)%Z.
Proof.
  apply (applySaturation_keeps_gray_pixels twoPixels 1.6 0 90);
    [reflexivity|lia|reflexivity].
Defined.

(** X9: the saturation step has no guard for a missing factor.  When
    [params.saturation] is absent (or NaN) the step runs with a factor that
    is not a number: every pixel that has colour (its R, G, B not all equal)
    becomes black, (0, 0, 0); gray pixels and alpha bytes are kept. *)
Theorem missing_saturation_blackens_colours
    (params : ProcessingParams) (imageData : ImageData) :
  wfImage imageData → byteData (data imageData) →
  saturation params = None ∨ saturation params = Some nan →
  let out := stepSaturation params imageData in
  width out = width imageData ∧ height out = height imageData ∧
  (∀ i, (i mod 4 = 3)%nat → data out !! i = data imageData !! i) ∧
  (∀ p px, pixelAt (data imageData) p = Some px →
     (isGray px → pixelAt (data out) p = Some px) ∧
     (¬ isGray px → pixelAt (data out) p = Some (0, 0, 0)%Z)).
Proof.
  intros Hwf Hbytes Hsat out.
  assert (Hout : out = withData imageData
                         (mapPixels (pixelFn (saturationOp nan)) (data imageData))).
  { subst out. unfold stepSaturation.
    assert (Hnan : toNumber (saturation params) = nan)
      by (by destruct Hsat as [-> | ->]).
    rewrite Hnan. change (negb (nan =? 1.0)) with true. cbv iota.
    by rewrite (applySaturation_pixels imageData Hwf). }
  rewrite Hout. cbn [withData width height data].
  split; [done|]. split; [done|].
  split; [intros i Hi; by apply mapPixels_alpha|].
  intros p [[r g] b] Hp.
  destruct (byteData_pixel _ _ _ Hbytes Hp) as (Hr & Hg & Hb).
  cbn [fst snd] in Hr, Hg, Hb.
  rewrite (pixelAt_mapPixels _ _ _ _ Hwf), Hp. unfold isGray. cbn [fst snd].
  split.
  - intros [<- <-]. cbn [fmap option_fmap option_map]. unfold pixelFn.
    by rewrite saturationOp_gray.
  - intros Hne. cbn [fmap option_fmap option_map]. unfold pixelFn.
    by rewrite saturationOp_nan.
Qed.

Lemma missing_saturation_blackens_colours_witness :
  pixelAt (data (stepSaturation PresetRegistry.emptyParams twoPixels)) 1
  = Some (0, 0, 0)%Z.
Proof.
  assert (Hwf : wfImage twoPixels) by reflexivity.
  assert (Hbytes : byteData (data twoPixels))
    by (unfold byteData; simpl; repeat constructor; lia).
  destruct (missing_saturation_blackens_colours PresetRegistry.emptyParams
              twoPixels Hwf Hbytes (or_introl eq_refl))
    as (_ & _ & _ & Hpx).
  apply (Hpx 1%nat (200, 120, 40)%Z eq_refl).
  unfold isGray. simpl. lia.
Defined.

(** With a strength that is not a number every channel comes out 0. *)
Lemma scurveOp_nan Math_pow sb hc mp px :
  (∀ x, Math_pow x nan = nan) →
  scurveOp Math_pow nan sb hc mp px = Some (nan, nan, nan).
Proof.
  intros Hpow. destruct px as [[r g] b]. unfold scurveOp, channelOp.
  cbv zeta. rewrite ?mul_nan_l, ?sub_nan_r, ?add_nan_r, ?Hpow, ?mul_nan_l,
    ?add_nan_r.
  by repeat (destruct (_ <=? mp)).
Qed.

(** X10: the S-curve branch has no guard for a missing strength.  When
    the tone mode is not "contrast" and [params.strength] is absent, the
    exponent of every power is NaN, and so is every result: the whole image
    turns black; only the alpha bytes are kept. *)
Theorem scurve_without_strength_blackens_image
    (Math_pow : float → float → float) (params : ProcessingParams)
    (imageData : ImageData) :
  (∀ x, Math_pow x nan = nan) →
  wfImage imageData →
  toneModeOf params ≠ "contrast"%string → strength params = None →
  let out := stepTone Math_pow params imageData in
  width out = width imageData ∧ height out = height imageData ∧
  (∀ i, (i mod 4 = 3)%nat → data out !! i = data imageData !! i) ∧
  (∀ p, (p < width imageData * height imageData)%nat →
     pixelAt (data out) p = Some (0, 0, 0)%Z).
Proof.
  intros Hpow Hwf Hmode Hstrength out.
  assert (Hout : out = withData imageData
                         (mapPixels
                            (pixelFn
                               (scurveOp Math_pow nan
                                  (toNumber (shadowBoost params))
                                  (toNumber (highlightCompress params))
                                  (toNumber (midpoint params))))
                            (data imageData))).
  { subst out. unfold stepTone.
    rewrite (proj2 (String.eqb_neq _ _) Hmode), Hstrength.
    by rewrite (applyScurveTonemap_pixels imageData Hwf). }
  rewrite Hout. cbn [withData width height data].
  split; [done|]. split; [done|].
  split; [intros i Hi; by apply mapPixels_alpha|].
  intros p Hp.
  destruct (pixelAt_is_Some (data imageData) _ p Hwf Hp) as [[[r g] b] Hpx].
  rewrite (pixelAt_mapPixels _ _ _ _ Hwf), Hpx.
  cbn [fmap option_fmap option_map]. unfold pixelFn.
  by rewrite scurveOp_nan.
Qed.

Lemma scurve_without_strength_blackens_image_witness :
  pixelAt (data (stepTone (λ _ _, nan) cdrWithScurve twoPixels)) 0
  = Some (0, 0, 0)%Z.
Proof.
  apply (scurve_without_strength_blackens_image (λ _ _, nan) cdrWithScurve
           twoPixels);
    [reflexivity|reflexivity|discriminate|reflexivity|simpl; lia].
Defined.

End Adjustments.
(** ** The preset and palette registries *)

Module Registry.

Import JS Palettes Presets Processor Objects PaletteRegistry PresetRegistry.
Import RegistrySpec PaletteSpec.
Local Open Scope string_scope.

Lemma ownProperty_None {A : Type} (o : list (string * A)) key :
  ownProperty o key = None ↔ key ∉ keys o.
Proof.
  unfold keys. induction o as [|[k a] o IH]; simpl.
  - split; [intros _; apply not_elem_of_nil|done].
  - rewrite not_elem_of_cons. destruct (String.eqb_spec k key) as [->|Hne].
    + split; [done|]. by intros [? _].
    + rewrite IH. split; [by intros ?; split|by intros [_ ?]].
Qed.

Lemma getProperty_Missing {A : Type} (o : list (string * A)) key :
  getProperty o key = Missing ↔ (key ∉ keys o) ∧ (key ∉ objectPrototypeKeys).
Proof.
  unfold getProperty. rewrite <- ownProperty_None.
  destruct (ownProperty o key) as [a|].
  - split; [done|]. by intros [? _].
  - destruct (bool_decide_reflect (key ∈ objectPrototypeKeys)) as [Hin|Hout].
    + split; [done|]. by intros [_ ?].
    + by split.
Qed.

Lemma getProperty_Inherited {A : Type} (o : list (string * A)) key :
  key ∉ keys o → key ∈ objectPrototypeKeys → getProperty o key = Inherited.
Proof.
  intros Hown Hin. unfold getProperty.
  rewrite (proj2 (ownProperty_None o key) Hown).
  by rewrite bool_decide_eq_true_2.
Qed.

(** X11: [getPreset] returns [null] exactly for the names that are neither
    one of the five registered presets nor a property every object inherits
    (such as "constructor"); a registered name gives the preset that carries
    that very name, and an inherited one gives an empty object. *)
Theorem getPreset_null_iff_unknown (name : string) :
  (getPreset name = None
   ↔ (name ∉ getPresetNames) ∧ (name ∉ objectPrototypeKeys)) ∧
  (name ∈ getPresetNames →
   ∃ preset, getPreset name = Some preset ∧
             PresetRegistry.name preset = Some name ∧
             (name, preset) ∈ PRESETS) ∧
  (name ∉ getPresetNames → name ∈ objectPrototypeKeys →
   getPreset name = Some emptyPreset) ∧
  getPresetNames = ["cdr"; "scurve"; "vivid"; "soft"; "grayscale"].
Proof.
  split; [|split; [|split; [|done]]].
  - unfold getPreset, getPresetNames. rewrite <- getProperty_Missing.
    by destruct (getProperty PRESETS name).
  - unfold getPresetNames. cbn. intros H.
    repeat (apply elem_of_cons in H as [->|H];
            [eexists; split; [reflexivity|split; [reflexivity|]];
             unfold PRESETS; set_solver|]).
    by apply elem_of_nil in H.
  - intros Hown Hin. unfold getPreset.
    by rewrite (getProperty_Inherited PRESETS name).
Qed.

Lemma getPreset_null_iff_unknown_witness :
  getPreset "balanced" = None ∧ getPreset "toString" = Some emptyPreset.
Proof.
  split.
  - apply (proj1 (getPreset_null_iff_unknown "balanced")).
    split; [unfold getPresetNames|unfold objectPrototypeKeys]; not_listed.
  - apply (proj1 (proj2 (proj2 (getPreset_null_iff_unknown "toString")))).
    + unfold getPresetNames. not_listed.
    + unfold objectPrototypeKeys. set_solver.
Defined.

(** X12: every registered preset can be run as it is: it sets exposure,
    saturation and the compression switch; its tone mode is "contrast" with
    a contrast, or "scurve" with the four S-curve parameters; its colour
    method is "rgb" or "lab"; and its dithering algorithm has a diffusion
    matrix of its own. *)
Theorem registered_presets_are_usable (name : string) (preset : Preset) :
  name ∈ getPresetNames → getPreset name = Some preset →
  usable (settings preset).
Proof.
  unfold getPresetNames. cbn. intros H.
  repeat (apply elem_of_cons in H as [->|H];
          [intros [= <-]; unfold usable; cbn;
           (repeat split); eauto; try (by right; eauto 10); try (by left; eauto 10);
           eexists; (split; [reflexivity|]); by vm_compute|]).
  by apply elem_of_nil in H.
Qed.

Lemma registered_presets_are_usable_witness : usable (settings SOFT_PRESET).
Proof.
  apply (registered_presets_are_usable "soft" SOFT_PRESET).
  - unfold getPresetNames. cbn. set_solver.
  - reflexivity.
Defined.

(** X13: the lists offered for selection agree with the registries.  Each
    option of [getPresetOptions] names a registered preset and shows its
    title and description, and the presets are offered in the order of
    [getPresetNames]; each
    option of [getDitherOptions] names a diffusion matrix, and every
    diffusion matrix is offered; each option of [getPaletteOptions] names a
    registered palette. *)
Theorem options_agree_with_registries :
  (∀ o, o ∈ getPresetOptions →
     ∃ name preset, ovalue o = Some name ∧ getPreset name = Some preset ∧
                    otitle o = title preset ∧
                    odescription o = description preset) ∧
  ovalue <$> getPresetOptions = Some <$> getPresetNames ∧
  (∀ o, o ∈ getDitherOptions →
     ∃ kernel, DIFFUSION_MATRICES !! dvalue o = Some kernel ∧
               diffusionMatrixOf (dvalue o) = kernel) ∧
  (∀ algorithm, is_Some (DIFFUSION_MATRICES !! algorithm) →
     algorithm ∈ dvalue <$> getDitherOptions) ∧
  (∀ o, o ∈ getPaletteOptions → value o ∈ getPaletteNames).
Proof.
  split; [|split; [|split; [|split]]].
  - unfold getPresetOptions. cbn. intros o H.
    repeat (apply elem_of_cons in H as [->|H];
            [eexists _, _; cbn; by repeat split|]).
    by apply elem_of_nil in H.
  - reflexivity.
  - unfold getDitherOptions. cbn. intros o H.
    repeat (apply elem_of_cons in H as [->|H];
            [eexists; split; by vm_compute|]).
    by apply elem_of_nil in H.
  - unfold DIFFUSION_MATRICES, getDitherOptions. cbn. intros algorithm H.
    rewrite !lookup_insert_is_Some, lookup_empty in H.
    destruct H as [<-|[_ [<-|[_ [<-|[_ [<-|[_ H]]]]]]]]; [set_solver..|].
    by destruct H.
  - unfold getPaletteOptions, getPaletteNames. cbn. intros o H.
    apply elem_of_cons in H as [->|H]; [cbn; set_solver|].
    by apply elem_of_nil in H.
Qed.

(** X14: [mergeParams] fills in what the caller left out and nothing else.
    With no argument it returns the defaults; a property the caller gives
    is taken as given, so a complete parameter set comes back unchanged and
    merging twice is merging once; and as long as the caller sets nothing
    to [undefined], every parameter of the result has a value. *)
Theorem mergeParams_fills_in_defaults (userParams : User.Params) :
  mergeParams User.empty = getDefaultParams ∧
  (∀ p, mergeParams (asUser p) = p) ∧
  mergeParams (asUser (mergeParams userParams)) = mergeParams userParams ∧
  (noUndefined userParams → complete (mergeParams userParams)).
Proof.
  split; [reflexivity|]. split; [by intros []|]. split; [by destruct userParams|].
  destruct userParams as [e s t c st sb hc mp cm da cdr].
  unfold noUndefined, complete, mergeParams, spread. cbn.
  intros (He & Hs & Ht & Hc & Hst & Hsb & Hhc & Hmp & Hcm & Hda & Hcdr).
  repeat split;
    match goal with
    | |- is_Some (match ?u with _ => _ end) =>
        destruct u as [[v|]|]; [by eexists|done|by eexists]
    end.
Qed.

Lemma mergeParams_fills_in_defaults_witness :
  complete (mergeParams (onlyExposure 1.5)).
Proof.
  apply (mergeParams_fills_in_defaults (onlyExposure 1.5)).
  unfold noUndefined. cbn. by repeat split.
Defined.

(** X15: [getPalette] returns [null] exactly for the names that are neither
    registered nor inherited by every object; each of the two registered
    names gives a copy of the Spectra 6 pair, which [validatePalette]
    accepts; an inherited name gives an empty object, which it rejects. *)
Theorem getPalette_null_iff_unknown (presetName : string) :
  (getPalette presetName = JNull
   ↔ (presetName ∉ getPaletteNames) ∧ (presetName ∉ objectPrototypeKeys)) ∧
  (presetName ∈ getPaletteNames →
   getPalette presetName = pairValue SPECTRA6 ∧
   validatePalette (getPalette presetName) = Ok true) ∧
  (presetName ∉ getPaletteNames → presetName ∈ objectPrototypeKeys →
   getPalette presetName = JObj ∅ ∧
   validatePalette (getPalette presetName)
   = Throw (Error "Palette must have a 'theoretical' property")) ∧
  getPaletteNames = ["spectra6"; "default"].
Proof.
  split; [|split; [|split; [|done]]].
  - unfold getPalette, getPaletteNames. rewrite <- getProperty_Missing.
    by destruct (getProperty PALETTE_PRESETS presetName).
  - unfold getPaletteNames. cbn. intros H.
    repeat (apply elem_of_cons in H as [->|H];
            [split; [reflexivity|by vm_compute]|]).
    by apply elem_of_nil in H.
  - intros Hown Hin. unfold getPalette.
    rewrite (getProperty_Inherited PALETTE_PRESETS presetName) by done.
    split; [done|]. by vm_compute.
Qed.

Lemma getPalette_null_iff_unknown_witness :
  validatePalette (getPalette "default") = Ok true ∧
  getPalette "unknown" = JNull.
Proof.
  split.
  - apply (proj1 (proj2 (getPalette_null_iff_unknown "default"))).
    unfold getPaletteNames. cbn. set_solver.
  - apply (proj1 (getPalette_null_iff_unknown "unknown")).
    split; [unfold getPaletteNames|unfold objectPrototypeKeys]; not_listed.
Defined.

End Registry.
(** ** More on the dithering pass *)

Module Diffusion.

Import JS Palettes Presets Processor Objects MatchSpec DitherSpec PixelSpec.
Import Loops Matching.
Local Open Scope float_scope.

(** X16: an algorithm name that is none of the four known ones (and no
    property every object inherits) silently selects Floyd-Steinberg: the
    pass gives the very result it gives for "floyd-steinberg".  So does a
    missing or empty [ditherAlgorithm] in the dithering stage of
    [processImage]. *)
Theorem unknown_algorithm_falls_back_to_floyd_steinberg
    (Math_pow : float → float → float) (imageData : ImageData)
    (method : string) (outputPaletteArray ditherPaletteArray : list Triple)
    (algorithm : string) :
  algorithm ∉ ["floyd-steinberg"; "stucki"; "burkes"; "sierra"]%string →
  algorithm ∉ objectPrototypeKeys →
  applyErrorDiffusionDither Math_pow imageData method outputPaletteArray
    ditherPaletteArray algorithm
  = applyErrorDiffusionDither Math_pow imageData method outputPaletteArray
      ditherPaletteArray "floyd-steinberg" ∧
  ∀ options,
    ditherAlgorithm (params options) = None ∨
    ditherAlgorithm (params options) = Some ""%string ∨
    ditherAlgorithm (params options) = Some algorithm →
    ditherStage Math_pow options imageData
    = if skipDithering options then imageData
      else
        applyErrorDiffusionDither Math_pow imageData
          (stringOr (colorMethod (params options)) "rgb")
          (paletteToArray
             (if usePerceivedOutput options then perceived (palette options)
              else theoretical (palette options)))
          (paletteToArray (perceived (palette options)))
          "floyd-steinberg".
Proof.
  intros Hunknown _.
  assert (Hm : diffusionMatrixOf algorithm = diffusionMatrixOf "floyd-steinberg").
  { unfold diffusionMatrixOf, DIFFUSION_MATRICES.
    rewrite !not_elem_of_cons in Hunknown.
    destruct Hunknown as (H1 & H2 & H3 & H4 & _).
    by rewrite !lookup_insert_ne, lookup_empty by done. }
  assert (Hfall : ∀ image m o dth,
            applyErrorDiffusionDither Math_pow image m o dth algorithm
            = applyErrorDiffusionDither Math_pow image m o dth "floyd-steinberg").
  { intros image m o dth. unfold applyErrorDiffusionDither, ditherPass.
    by rewrite Hm. }
  split; [apply Hfall|].
  intros options Halg. unfold ditherStage.
  destruct (skipDithering options); [done|]. cbn [negb].
  destruct Halg as [-> |[-> | ->]]; [done|done|].
  unfold stringOr at 2.
  destruct (String.eqb algorithm ""); [done|]. apply Hfall.
Qed.

Lemma unknown_algorithm_falls_back_to_floyd_steinberg_witness :
  applyErrorDiffusionDither (λ x _, x) sampleImage "rgb"
    (paletteToArray (theoretical SPECTRA6))
    (paletteToArray (perceived SPECTRA6)) "atkinson"
  = applyErrorDiffusionDither (λ x _, x) sampleImage "rgb"
      (paletteToArray (theoretical SPECTRA6))
      (paletteToArray (perceived SPECTRA6)) "floyd-steinberg".
Proof.
  apply (unknown_algorithm_falls_back_to_floyd_steinberg (λ x _, x) sampleImage
           "rgb" (paletteToArray (theoretical SPECTRA6))
           (paletteToArray (perceived SPECTRA6)) "atkinson").
  - not_listed.
  - unfold objectPrototypeKeys. not_listed.
Defined.

Section TwoImages.

Variable Math_pow : float → float → float.
Variable w h : nat.
Variable d d' : list Z.
Variable method : string.
Variable out dith : list Triple.
Variable algorithm : string.

Local Abbreviation image := {| width := w; height := h; data := d |}.
Local Abbreviation image' := {| width := w; height := h; data := d' |}.

Hypothesis Hwf : wfImage image.
Hypothesis Hwf' : wfImage image'.

Local Abbreviation state n :=
  (ditherPrefix Math_pow image method out dith algorithm n).
Local Abbreviation state' n :=
  (ditherPrefix Math_pow image' method out dith algorithm n).
Local Abbreviation slot st p :=
  (matchedSlot Math_pow w method dith st (p / w) (p mod w)).

Lemma same_working_colour m n :
  (∀ i, (i < 4 * m)%nat → d !! i = d' !! i) →
  (n < m)%nat → (n < w * h)%nat →
  snd (state n) = snd (state' n) →
  workingColor w (state n) (n / w) (n mod w)
  = workingColor w (state' n) (n / w) (n mod w).
Proof.
  intros Hsame Hn Hn' Herr.
  pose proof (Dither.workingColor_source Math_pow image method dith algorithm
                Hwf out n Hn') as H1.
  pose proof (Dither.workingColor_source Math_pow image' method dith algorithm
                Hwf' out n Hn') as H2.
  cbn [width height data] in H1, H2. rewrite H1, H2.
  pose proof (Dither.workingColor_ext image (d, snd (state n))
                (d', snd (state' n)) (n / w) (n mod w)) as Hext.
  cbn [width fst snd] in Hext. apply Hext; [|done].
  intros c Hc. apply Hsame.
  pose proof (Dither.raster_index image n Hn') as Hr. cbn [width height] in Hr.
  lia.
Qed.

(** Two images that agree on their first [m] pixels go through the same
    states as long as those pixels are visited. *)
Lemma same_states m n :
  (∀ i, (i < 4 * m)%nat → d !! i = d' !! i) →
  (n ≤ m)%nat → (n ≤ w * h)%nat →
  snd (state n) = snd (state' n) ∧
  ((n < m)%nat → (n < w * h)%nat → slot (state n) n = slot (state' n) n).
Proof.
  intros Hsame. induction n as [|n IH]; intros Hn Hn'.
  - split; [done|]. intros H0 H0'. unfold matchedSlot.
    by rewrite (same_working_colour m 0 Hsame H0 H0').
  - destruct IH as [Herr Hslot]; [lia..|]. specialize (Hslot ltac:(lia) ltac:(lia)).
    pose proof (same_working_colour m n Hsame ltac:(lia) ltac:(lia) Herr) as Hwork.
    assert (Herr' : snd (state (S n)) = snd (state' (S n))).
    { pose proof (Dither.prefix_S_snd Math_pow image method dith algorithm out n)
        as H1.
      pose proof (Dither.prefix_S_snd Math_pow image' method dith algorithm out n)
        as H2.
      cbn [width height] in H1, H2.
      rewrite H1, H2 by lia. by rewrite Hwork, Hslot, Herr. }
    split; [done|]. intros HSn HSn'. unfold matchedSlot.
    by rewrite (same_working_colour m (S n) Hsame HSn HSn' Herr').
Qed.

End TwoImages.

(** X17: the pass runs in raster order and pushes error forward only, so
    the colour a pixel gets depends on nothing but that pixel and the ones
    before it: two images of the same size that agree on their first [m]
    pixels get the same colours on those [m] pixels, whatever follows. *)
Theorem dithered_pixel_depends_on_earlier_pixels_only
    (Math_pow : float → float → float) (image image' : ImageData)
    (method : string) (outputPaletteArray ditherPaletteArray : list Triple)
    (algorithm : string) (m : nat) :
  wfImage image → wfImage image' →
  width image = width image' → height image = height image' →
  (∀ i, (i < 4 * m)%nat → data image !! i = data image' !! i) →
  ∀ p, (p < m)%nat → (p < width image * height image)%nat →
    pixelAt
      (data (applyErrorDiffusionDither Math_pow image method
               outputPaletteArray ditherPaletteArray algorithm)) p
    = pixelAt
        (data (applyErrorDiffusionDither Math_pow image' method
                 outputPaletteArray ditherPaletteArray algorithm)) p.
Proof.
  intros Hwf Hwf' Hw Hh Hsame p Hp Hp'.
  destruct image as [w h d], image' as [w' h' d']. cbn [width height data] in *.
  subst w' h'.
  unfold applyErrorDiffusionDither. cbn [data withData].
  rewrite !Dither.ditherPass_prefix. cbn [width height].
  destruct (Dither.state_inv Math_pow _ method ditherPaletteArray algorithm
              Hwf outputPaletteArray (w * h))
    as (_ & _ & _ & Hdone); [cbn [width height]; lia|].
  destruct (Dither.state_inv Math_pow _ method ditherPaletteArray algorithm
              Hwf' outputPaletteArray (w * h))
    as (_ & _ & _ & Hdone'); [cbn [width height]; lia|].
  rewrite (Hdone p Hp'), (Hdone' p Hp'). cbn [width height].
  destruct (same_states Math_pow w h d d' method outputPaletteArray
              ditherPaletteArray algorithm Hwf Hwf' m p Hsame)
    as [_ Hslot]; [lia..|].
  by rewrite (Hslot Hp Hp').
Qed.

Lemma dithered_pixel_depends_on_earlier_pixels_only_witness :
  pixelAt
    (data (applyErrorDiffusionDither (λ x _, x) sampleImage "rgb"
             (paletteToArray (theoretical SPECTRA6))
             (paletteToArray (perceived SPECTRA6)) "floyd-steinberg")) 1
  = pixelAt
      (data (applyErrorDiffusionDither (λ x _, x) sampleImage' "rgb"
               (paletteToArray (theoretical SPECTRA6))
               (paletteToArray (perceived SPECTRA6)) "floyd-steinberg")) 1.
Proof.
  apply (dithered_pixel_depends_on_earlier_pixels_only (λ x _, x)
           sampleImage sampleImage' "rgb"
           (paletteToArray (theoretical SPECTRA6))
           (paletteToArray (perceived SPECTRA6)) "floyd-steinberg" 2);
    try reflexivity; try (simpl; lia).
  intros i Hi. do 8 (destruct i as [|i]; [reflexivity|]). lia.
Defined.

End Diffusion.
(** ** More on [processImage] *)

Module Output.

Import JS Palettes Presets Processor PresetRegistry RegistrySpec.
Import MatchSpec DitherSpec PixelSpec PipelineSpec ToneSteps.

(** The premultiplied store keeps the size of the image, its alpha bytes
    and every pixel that is opaque. *)
Lemma premultipliedStore_length d :
  length (premultipliedStore d) = (4 * (width d * height d))%nat.
Proof. unfold premultipliedStore. by rewrite length_fmap, length_seq. Qed.

Lemma lookup_premultipliedStore d i :
  wfImage d →
  premultipliedStore d !! i
  = (λ _, premultipliedByte (data d) i) <$> (data d !! i).
Proof.
  intros Hwf. unfold premultipliedStore. rewrite list_lookup_fmap.
  destruct (decide (i < length (data d))%nat) as [Hi|Hi].
  - rewrite lookup_seq_lt by (rewrite <- Hwf; lia).
    destruct (lookup_lt_is_Some_2 (data d) i Hi) as [c ->]. done.
  - rewrite lookup_seq_ge by (rewrite <- Hwf; lia).
    by rewrite (lookup_ge_None_2 (data d) i) by lia.
Qed.

Lemma premultipliedStore_alpha d i :
  wfImage d → (i mod 4 = 3)%nat → premultipliedStore d !! i = data d !! i.
Proof.
  intros Hwf Hi. rewrite (lookup_premultipliedStore d i Hwf).
  destruct (data d !! i) as [c|] eqn:Hc; [|done].
  cbn [fmap option_fmap option_map]. unfold premultipliedByte.
  by rewrite Hc, (proj2 (Nat.eqb_eq _ _) Hi).
Qed.

Lemma premultipliedByte_opaque (d : list Z) (p i : nat) (c : Z) :
  (4 * p ≤ i < 4 * p + 3)%nat →
  d !! (4 * p + 3)%nat = Some 255%Z → d !! i = Some c →
  premultipliedByte d i = c.
Proof.
  intros Hi Ha Hc. unfold premultipliedByte.
  replace (i / 4 * 4 + 3)%nat with (4 * p + 3)%nat by lia.
  rewrite Ha, Hc. cbn [default]. unfold id.
  replace (i mod 4 =? 3)%nat with false by (symmetry; apply Nat.eqb_neq; lia).
  rewrite Z.div_mul, Z.div_add_l by lia.
  rewrite (Z.div_small 127 255) by lia. lia.
Qed.

Lemma premultipliedStore_opaque d p :
  wfImage d → data d !! (4 * p + 3)%nat = Some 255%Z →
  pixelAt (premultipliedStore d) p = pixelAt (data d) p.
Proof.
  intros Hwf Ha. unfold pixelAt.
  rewrite !(lookup_premultipliedStore d _ Hwf).
  destruct (data d !! (4 * p)%nat) as [R|] eqn:HR; [|done].
  destruct (data d !! (4 * p + 1)%nat) as [G|] eqn:HG; [|done].
  destruct (data d !! (4 * p + 2)%nat) as [B|] eqn:HB; [|done].
  cbn [fmap option_fmap option_map mbind option_bind].
  by rewrite (premultipliedByte_opaque _ p _ R), (premultipliedByte_opaque _ p _ G),
    (premultipliedByte_opaque _ p _ B) by (done || lia).
Qed.

(** Where alpha is below 255 the colour read back can differ from the
    colour put: on such a canvas the perceived yellow (205, 202, 0) put with
    alpha 128 reads back as (205, 201, 0), and a colour put with alpha 0 or
    1 reads back black. *)
Lemma premultipliedStore_translucent :
  premultipliedStore
    {| width := 4; height := 1;
       data := [2; 2; 2; 0; 205; 202; 0; 128;
                190; 200; 200; 255; 39; 102; 60; 1]%Z |}
  = [0; 0; 0; 0; 205; 201; 0; 128; 190; 200; 200; 255; 0; 0; 0; 1]%Z.
Proof. reflexivity. Qed.

Section WithPlatform.

Variable Math_pow : float → float → float.
Variable drawImage : Canvas → nat → nat → list Z.
Variable drawRotated : Canvas → list Z.
Variable drawCover : Canvas → nat → nat → list Z.
Variable storedPixels : ImageData → list Z.

Local Abbreviation processImage :=
  (Processor.processImage Math_pow drawImage drawRotated drawCover storedPixels).

(** What the canvas API guarantees: a canvas of [w] by [h] pixels holds
    [4 * w * h] bytes. *)
Hypothesis drawImage_length : ∀ c w h, length (drawImage c w h) = (4 * (w * h))%nat.
Hypothesis drawRotated_length :
  ∀ c, length (drawRotated c) = (4 * (cheight c * cwidth c))%nat.
Hypothesis drawCover_length : ∀ c w h, length (drawCover c w h) = (4 * (w * h))%nat.
Hypothesis storedPixels_length :
  ∀ d, length (storedPixels d) = (4 * (width d * height d))%nat.

(** What a canvas keeps of the pixels put on it, whatever its own
    representation: the alpha bytes, and the colour of every pixel put with
    alpha 255 (premultiplying by full alpha changes nothing). *)
Hypothesis storedPixels_alpha :
  ∀ d i, wfImage d → (i mod 4 = 3)%nat → storedPixels d !! i = data d !! i.
Hypothesis storedPixels_opaque :
  ∀ d p, wfImage d → data d !! (4 * p + 3)%nat = Some 255%Z →
         pixelAt (storedPixels d) p = pixelAt (data d) p.

Lemma prepared_wf source options :
  let loaded := loadSource drawImage storedPixels source in
  wfImage
    (getImageData
       (fitCanvas drawCover options (isPortraitCanvas loaded)
          (orientCanvas drawRotated options loaded))).
Proof.
  intros loaded. unfold fitCanvas.
  destruct (finalSize options _) as [fw fh].
  destruct (_ || _).
  - unfold wfImage. simpl. apply drawCover_length.
  - unfold orientCanvas. destruct (_ && _).
    + unfold wfImage. simpl. apply drawRotated_length.
    + subst loaded. destruct source as [c|d].
      * unfold wfImage. simpl. apply drawImage_length.
      * unfold wfImage. simpl. apply storedPixels_length.
Qed.

(** X18: unless dithering is skipped, every opaque pixel (alpha 255) of
    the canvas that [processImage] returns is one of the six colours of the
    output palette: the theoretical palette, or the perceived one when
    [usePerceivedOutput] is set.  A source without transparency gives a
    canvas of palette colours only; where alpha is below 255 the canvas may
    read back another colour than the one put. *)
Theorem processImage_output_is_palette_coloured (source : Source) (options : Options) :
  skipDithering options = false →
  let outputPalette :=
    if usePerceivedOutput options then perceived (palette options)
    else theoretical (palette options) in
  validPaletteColors outputPalette →
  let canvas := fst (processImage source options) in
  length (pixels canvas) = (4 * (cwidth canvas * cheight canvas))%nat ∧
  ∀ p, (p < cwidth canvas * cheight canvas)%nat →
    pixels canvas !! (4 * p + 3)%nat = Some 255%Z →
    ∃ k, k ∈ activeSlots ∧
         pixelAt (pixels canvas) p = paletteToArray outputPalette !! k.
Proof.
  intros Hdither outputPalette Hvalid canvas.
  pose proof (prepared_wf source options) as Hwf. cbv zeta in Hwf.
  set (prepared := fitCanvas drawCover options _ _) in Hwf.
  destruct (preprocessImage_pointwise Math_pow (params options)
              (Some (perceived (palette options)))) as [F HF].
  specialize (HF _ Hwf).
  set (toned := preprocessImage Math_pow (getImageData prepared) (params options)
                  (Some (perceived (palette options)))) in *.
  assert (Hwt : wfImage toned) by (rewrite HF; by apply wfImage_mapped).
  assert (Hsize : width toned = cwidth prepared ∧ height toned = cheight prepared)
    by (by rewrite HF).
  destruct Hsize as [Hw Hh].
  set (dithered := applyErrorDiffusionDither Math_pow toned
                     (stringOr (colorMethod (params options)) "rgb")
                     (paletteToArray outputPalette)
                     (paletteToArray (perceived (palette options)))
                     (stringOr (ditherAlgorithm (params options))
                        "floyd-steinberg")).
  assert (Hpix : pixels canvas = storedPixels dithered).
  { subst canvas dithered. unfold Processor.processImage, ditherStage.
    cbn [fst pixels putImageData]. by rewrite Hdither. }
  assert (Hcw : cwidth canvas = width toned ∧ cheight canvas = height toned).
  { subst canvas. unfold Processor.processImage.
    cbn [fst cwidth cheight putImageData]. by rewrite Hw, Hh. }
  assert (Hdims : width dithered = width toned ∧ height dithered = height toned)
    by done.
  assert (Hwd : wfImage dithered).
  { destruct (Dither.state_inv Math_pow toned
                (stringOr (colorMethod (params options)) "rgb")
                (paletteToArray (perceived (palette options)))
                (stringOr (ditherAlgorithm (params options)) "floyd-steinberg")
                Hwt (paletteToArray outputPalette)
                (width toned * height toned)) as (Hlen & _); [lia|].
    subst dithered. unfold wfImage, applyErrorDiffusionDither.
    cbn [data withData width height].
    rewrite Dither.ditherPass_prefix, Hlen. exact Hwt. }
  destruct Hcw as [-> ->]. rewrite Hpix. split.
  - rewrite storedPixels_length. by destruct Hdims as [-> ->].
  - intros p Hp Halpha.
    rewrite (storedPixels_alpha dithered (4 * p + 3) Hwd) in Halpha
      by lia.
    rewrite (storedPixels_opaque dithered p Hwd Halpha).
    eexists. by apply Dither.result_pixel.
Qed.

(** X19: the "cdr" preset and the default parameters are the same
    processing: [processImage] returns the same two canvases for both,
    whatever the source and the other options.  The four S-curve
    parameters, which only the defaults have, are never read in "contrast"
    mode. *)
Theorem cdr_preset_is_the_default_processing (source : Source) (options : Options) :
  getPreset "cdr" = Some CDR_PRESET ∧
  processImage source (withParams (settings CDR_PRESET) options)
  = processImage source (withParams getDefaultParams options).
Proof. split; reflexivity. Qed.

(** X20: the canvas that [processImage] returns can always be written
    as a BMP file.  For a display of at least one pixel each way whose file
    fits the 32-bit size field, [createBMP] does not throw on it, and the
    length of the file is fixed by the display size alone: the 54 header
    bytes and the padded rows of the final width, one for each line of the
    final height. *)
Theorem processImage_output_encodes_as_BMP (source : Source) (options : Options) :
  (1 ≤ displayWidth options)%nat → (1 ≤ displayHeight options)%nat →
  (Z.of_nat (54 + rowSizeOf (displayWidth options) * displayHeight options)
   < 2 ^ 32)%Z →
  (Z.of_nat (54 + rowSizeOf (displayHeight options) * displayWidth options)
   < 2 ^ 32)%Z →
  let canvas := fst (processImage source options) in
  let size := finalSize options (isPortraitSource source) in
  ∃ buffer,
    createBMP canvas = Ok buffer ∧
    length buffer = (54 + rowSizeOf size.1 * size.2)%nat.
Proof.
  intros Hw Hh Hsize Hsize' canvas size.
  pose proof (Pipeline.processImage_size Math_pow drawImage drawRotated drawCover
                storedPixels source options) as Hdims.
  fold canvas size in Hdims.
  assert (Hcw : cwidth canvas = size.1) by (by rewrite <- Hdims).
  assert (Hch : cheight canvas = size.2) by (by rewrite <- Hdims).
  assert (Hcases : size = (displayWidth options, displayHeight options) ∨
                   size = (displayHeight options, displayWidth options)).
  { subst size. unfold finalSize. destruct (_ && _); auto. }
  exists (BitmapSpec.fileBytes canvas). split.
  - apply Bitmap.createBMP_fileBytes; rewrite ?Hcw, ?Hch;
      destruct Hcases as [-> | ->]; done.
  - by rewrite Bitmap.length_fileBytes, Hcw, Hch.
Qed.

End WithPlatform.

Lemma processImage_output_encodes_as_BMP_witness :
  let blank := (λ (_ : Canvas) (w h : nat), replicate (4 * (w * h)) 0%Z) in
  ∃ buffer,
    createBMP
      (fst (processImage (λ x _, x) blank
              (λ c, replicate (4 * (cheight c * cwidth c)) 0%Z) blank
              premultipliedStore landscapeSource smallDisplay))
    = Ok buffer ∧
    length buffer = 78%nat.
Proof.
  intros blank.
  apply (processImage_output_encodes_as_BMP (λ x _, x) blank
           (λ c, replicate (4 * (cheight c * cwidth c)) 0%Z) blank
           premultipliedStore landscapeSource smallDisplay).
  - simpl. lia.
  - simpl. lia.
  - reflexivity.
  - reflexivity.
Defined.

Lemma processImage_output_is_palette_coloured_witness :
  let blank := (λ (_ : Canvas) (w h : nat), replicate (4 * (w * h)) 0%Z) in
  let canvas :=
    fst (processImage (λ x _, x) blank
           (λ c, replicate (4 * (cheight c * cwidth c)) 0%Z) blank
           premultipliedStore (ImageDataSource twoPixels) pairDisplay) in
  length (pixels canvas) = 8%nat ∧
  ∃ k, k ∈ activeSlots ∧
       pixelAt (pixels canvas) 0 = paletteToArray (theoretical SPECTRA6) !! k.
Proof.
  intros blank canvas.
  destruct (processImage_output_is_palette_coloured (λ x _, x) blank
              (λ c, replicate (4 * (cheight c * cwidth c)) 0%Z) blank
              premultipliedStore
              ltac:(intros; apply length_replicate)
              ltac:(intros; apply length_replicate)
              ltac:(intros; apply length_replicate)
              premultipliedStore_length premultipliedStore_alpha
              premultipliedStore_opaque
              (ImageDataSource twoPixels) pairDisplay) as [Hlen Hpix].
  - reflexivity.
  - unfold validPaletteColors, validColor. simpl. lia.
  - split; [exact Hlen|]. apply (Hpix 0%nat).
    + vm_compute. lia.
    + vm_compute. reflexivity.
Defined.

End Output.
(** ** What a BMP file keeps of the canvas *)

Module BitmapContent.

Import JS Processor BitmapSpec BitmapSamples DitherSpec Bitmap.
Local Open Scope Z_scope.

Lemma pixelBytes_colour w d y x :
  pixelBytes w d y x
  = [ default 0 (d !! (4 * (y * w + x) + 2)%nat) mod 256;
      default 0 (d !! (4 * (y * w + x) + 1)%nat) mod 256;
      default 0 (d !! (4 * (y * w + x))%nat) mod 256 ].
Proof.
  unfold pixelBytes.
  by replace ((y * w + x) * 4)%nat with (4 * (y * w + x))%nat by lia.
Qed.

Lemma pixelAt_bytes d p r g b :
  pixelAt d p = Some (r, g, b) →
  d !! (4 * p)%nat = Some r ∧ d !! (4 * p + 1)%nat = Some g ∧
  d !! (4 * p + 2)%nat = Some b.
Proof.
  unfold pixelAt.
  destruct (d !! (4 * p)%nat) as [r'|]; [|done].
  destruct (d !! (4 * p + 1)%nat) as [g'|]; [|done].
  destruct (d !! (4 * p + 2)%nat) as [b'|]; [|done].
  by intros [= -> -> ->].
Qed.

Section TwoCanvases.

Variable w h : nat.
Variable d d' : list Z.

Local Abbreviation canvas := {| cwidth := w; cheight := h; pixels := d |}.
Local Abbreviation canvas' := {| cwidth := w; cheight := h; pixels := d' |}.

Hypothesis Hwf : wfCanvas canvas.
Hypothesis Hwf' : wfCanvas canvas'.

Lemma same_colours_same_rows :
  (∀ p, (p < w * h)%nat → pixelAt d p = pixelAt d' p) →
  ∀ y, (y < h)%nat → rowBytes w d y = rowBytes w d' y.
Proof.
  intros Hsame y Hy. unfold rowBytes. do 2 f_equal.
  apply list_fmap_ext. intros i x Hx.
  apply lookup_seq in Hx as [Heq Hx]. cbn [Nat.add] in Heq. subst i.
  rewrite !pixelBytes_colour.
  assert (Hp : (y * w + x < w * h)%nat) by nia.
  specialize (Hsame _ Hp).
  destruct Hwf as [Hlen _], Hwf' as [Hlen' _]. cbn [pixels cwidth cheight] in *.
  unfold pixelAt in Hsame.
  destruct (lookup_lt_is_Some_2 d (4 * (y * w + x))%nat) as [r Hr]; [lia|].
  destruct (lookup_lt_is_Some_2 d (4 * (y * w + x) + 1)%nat) as [g Hg]; [lia|].
  destruct (lookup_lt_is_Some_2 d (4 * (y * w + x) + 2)%nat) as [b Hb]; [lia|].
  destruct (lookup_lt_is_Some_2 d' (4 * (y * w + x))%nat) as [r' Hr']; [lia|].
  destruct (lookup_lt_is_Some_2 d' (4 * (y * w + x) + 1)%nat) as [g' Hg']; [lia|].
  destruct (lookup_lt_is_Some_2 d' (4 * (y * w + x) + 2)%nat) as [b' Hb']; [lia|].
  rewrite Hr, Hg, Hb, Hr', Hg', Hb' in *. simpl in Hsame.
  by injection Hsame as -> -> ->.
Qed.

Lemma same_colours_same_file :
  (∀ p, (p < w * h)%nat → pixelAt d p = pixelAt d' p) →
  fileBytes canvas = fileBytes canvas'.
Proof.
  intros Hsame. unfold fileBytes. cbn [cwidth cheight pixels]. do 2 f_equal.
  apply list_fmap_ext. intros i y Hy.
  apply list_elem_of_lookup_2, elem_of_reverse, elem_of_seq in Hy.
  apply same_colours_same_rows; [done|lia].
Qed.

Lemma same_file_same_colours :
  fileBytes canvas = fileBytes canvas' →
  ∀ p, (p < w * h)%nat → pixelAt d p = pixelAt d' p.
Proof.
  intros Hfile p Hp.
  assert (Hw : (0 < w)%nat) by lia.
  set (y := (p / w)%nat). set (x := (p mod w)%nat).
  assert (Hy : (y < h)%nat) by (subst y; apply Nat.Div0.div_lt_upper_bound; lia).
  assert (Hx : (x < w)%nat) by (subst x; by apply Nat.mod_upper_bound; lia).
  assert (Hpxy : p = (y * w + x)%nat) by (subst x y; pose proof (Nat.div_mod_eq p w); lia).
  assert (Hbyte : ∀ c, (c < 3)%nat →
            pixelBytes w d y x !! c = pixelBytes w d' y x !! c).
  { intros c Hc.
    assert (Hr : (h - 1 - y < h)%nat) by lia.
    assert (Hj : (3 * x + c < rowSizeOf w)%nat)
      by (pose proof (rowSizeOf_ge w); lia).
    pose proof (lookup_file_row canvas (h - 1 - y) (3 * x + c) Hr Hj) as H1.
    pose proof (lookup_file_row canvas' (h - 1 - y) (3 * x + c) Hr Hj) as H2.
    cbn [cwidth cheight pixels] in H1, H2.
    rewrite Hfile, H2 in H1.
    replace (h - 1 - (h - 1 - y))%nat with y in H1 by lia.
    by rewrite !lookup_row_pixel in H1 by done. }
  destruct Hwf as [Hlen Hbytes], Hwf' as [Hlen' Hbytes'].
  cbn [pixels cwidth cheight] in *.
  pose proof (Hbyte 0%nat ltac:(lia)) as H0.
  pose proof (Hbyte 1%nat ltac:(lia)) as H1.
  pose proof (Hbyte 2%nat ltac:(lia)) as H2.
  rewrite !pixelBytes_colour, <- Hpxy in H0, H1, H2.
  cbn [lookup list_lookup] in H0, H1, H2.
  rewrite !stored_byte in H0, H1, H2 by (done || lia).
  unfold pixelAt. by rewrite H0, H1, H2.
Qed.

End TwoCanvases.

(** X21: a BMP file keeps the colour of every pixel and nothing else of
    the canvas.  Two canvases of the same size give the same file exactly
    when every pixel has the same R, G and B in both: the alpha bytes are
    dropped, and no colour is lost. *)
Theorem createBMP_keeps_colour_and_drops_alpha (canvas canvas' : Canvas) :
  (1 ≤ cwidth canvas)%nat → (1 ≤ cheight canvas)%nat →
  cwidth canvas' = cwidth canvas → cheight canvas' = cheight canvas →
  wfCanvas canvas → wfCanvas canvas' →
  Z.of_nat (54 + rowSizeOf (cwidth canvas) * cheight canvas) < 2 ^ 32 →
  createBMP canvas = createBMP canvas'
  ↔ ∀ p, (p < cwidth canvas * cheight canvas)%nat →
         pixelAt (pixels canvas) p = pixelAt (pixels canvas') p.
Proof.
  intros Hw Hh Hw' Hh' Hwf Hwf' Hsize.
  rewrite (createBMP_fileBytes canvas) by done.
  rewrite (createBMP_fileBytes canvas') by (rewrite ?Hw', ?Hh'; done).
  destruct canvas as [w h d], canvas' as [w' h' d'].
  cbn [cwidth cheight pixels] in *. subst w' h'.
  split.
  - intros Hfile.
    apply (f_equal (λ r, match r with Ok b => b | Throw _ => [] end)) in Hfile.
    exact (same_file_same_colours w h d d' Hwf Hwf' Hfile).
  - intros Hsame. f_equal.
    exact (same_colours_same_file w h d d' Hwf Hwf' Hsame).
Qed.

Lemma createBMP_keeps_colour_and_drops_alpha_witness :
  createBMP sampleCanvas = createBMP sampleCanvas'.
Proof.
  apply (createBMP_keeps_colour_and_drops_alpha sampleCanvas sampleCanvas').
  - simpl. lia.
  - simpl. lia.
  - reflexivity.
  - reflexivity.
  - split; [reflexivity|]. unfold sampleCanvas. cbn [pixels].
    apply Forall_forall. intros v Hv.
    apply list_elem_of_fmap in Hv as (n & -> & Hn).
    apply elem_of_seq in Hn. lia.
  - split; [reflexivity|]. unfold sampleCanvas'. cbn [pixels].
    repeat (apply Forall_cons; split; [lia|]). apply Forall_nil_2.
  - vm_compute. reflexivity.
  - intros p Hp. do 6 (destruct p as [|p]; [reflexivity|]). simpl in Hp. lia.
Defined.

End BitmapContent.
(** ** What palette validation does not check *)

Module PaletteLeniency.

Import JS Palettes PaletteSpec PaletteValidation.
Local Open Scope string_scope.

Lemma channelOk_in_range f :
  PrimFloat.ltb f 0 = false → PrimFloat.ltb 255 f = false → channelOk (JNum f).
Proof.
  intros Hlo Hhi. exists f. split; [done|]. unfold outOfRange.
  intros [H|H]; congruence.
Qed.

(** X22: the validator never asks for integers.  Any number that is
    neither below 0 nor above 255, a fraction such as 12.5 included, can
    stand for any channel of an accepted palette pair: the pair stays
    accepted. *)
Theorem validatePalette_accepts_fractions
    (v : jsval) (name color ch : string) (f : float) :
  name ∈ paletteNames → color ∈ requiredColors → ch ∈ channelNames →
  PrimFloat.ltb f 0 = false → PrimFloat.ltb 255 f = false →
  validatePalette v = Ok true →
  validatePalette (withChannel v name color ch (JNum f)) = Ok true.
Proof.
  intros Hname _ _ Hlo Hhi Hv.
  apply validatePalette_ok. apply validatePalette_ok in Hv.
  unfold withChannel. apply pairOk_update; [done..|].
  intros p Hp. apply paletteOk_update; [done|].
  intros c Hc. apply colorOk_update; [done|]. by apply channelOk_in_range.
Qed.

Lemma validatePalette_accepts_fractions_witness :
  validatePalette
    (withChannel (pairValue SPECTRA6) "perceived" "red" "g" (JNum 12.5))
  = Ok true.
Proof.
  apply (validatePalette_accepts_fractions (pairValue SPECTRA6)
           "perceived" "red" "g" 12.5).
  - unfold paletteNames. set_solver.
  - unfold requiredColors. set_solver.
  - unfold channelNames. set_solver.
  - reflexivity.
  - reflexivity.
  - vm_compute. reflexivity.
Defined.

(** Setting a property that the validator does not read. *)
Lemma colorOk_other c key x :
  key ∉ channelNames → colorOk c → colorOk (updateProp c key (λ _, x)).
Proof.
  intros Hkey (props & -> & H). simpl. eexists. split; [done|].
  intros ch Hch. rewrite lookup_insert_ne; [by apply H|].
  intros ->. by apply Hkey.
Qed.

Lemma paletteOk_other p key x :
  key ∉ requiredColors → paletteOk p → paletteOk (updateProp p key (λ _, x)).
Proof.
  intros Hkey (props & -> & H). simpl. eexists. split; [done|].
  intros color Hcolor. rewrite lookup_insert_ne; [by apply H|].
  intros ->. by apply Hkey.
Qed.

Lemma pairOk_other v key x :
  key ∉ paletteNames → pairOk v → pairOk (updateProp v key (λ _, x)).
Proof.
  intros Hkey (props & t & p & -> & Ht & Hp & Ot & Op). simpl.
  unfold paletteNames in Hkey. rewrite !not_elem_of_cons in Hkey.
  destruct Hkey as (H1 & H2 & _).
  eexists _, t, p. split; [done|].
  by rewrite !lookup_insert_ne by done.
Qed.

(** X23: the validator reads the two palettes, their six colour roles and
    the three channels of each, and nothing else.  A property under any
    other name (a seventh colour, an alpha channel, a comment) can be added
    to an accepted pair, to either of its palettes or to any of their
    colours, with any value: the pair stays accepted. *)
Theorem validatePalette_ignores_other_properties
    (v x : jsval) (key name color : string) :
  validatePalette v = Ok true →
  (key ∉ paletteNames →
   validatePalette (updateProp v key (λ _, x)) = Ok true) ∧
  (name ∈ paletteNames → key ∉ requiredColors →
   validatePalette (updateProp v name (λ p, updateProp p key (λ _, x)))
   = Ok true) ∧
  (name ∈ paletteNames → color ∈ requiredColors → key ∉ channelNames →
   validatePalette (withChannel v name color key x) = Ok true).
Proof.
  intros Hv. apply validatePalette_ok in Hv. split; [|split].
  - intros Hkey. apply validatePalette_ok. by apply pairOk_other.
  - intros Hname Hkey. apply validatePalette_ok.
    apply pairOk_update; [done..|]. intros p Hp. by apply paletteOk_other.
  - intros Hname Hcolor Hkey. apply validatePalette_ok. unfold withChannel.
    apply pairOk_update; [done..|]. intros p Hp.
    apply paletteOk_update; [done|]. intros c Hc. by apply colorOk_other.
Qed.

Lemma validatePalette_ignores_other_properties_witness :
  validatePalette
    (updateProp (pairValue SPECTRA6) "theoretical"
       (λ p, updateProp p "orange" (λ _, JStr "none")))
  = Ok true.
Proof.
  assert (Hv : validatePalette (pairValue SPECTRA6) = Ok true)
    by (vm_compute; reflexivity).
  apply (proj1 (proj2 (validatePalette_ignores_other_properties
                         (pairValue SPECTRA6) (JStr "none") "orange"
                         "theoretical" "black" Hv))).
  - unfold paletteNames. set_solver.
  - unfold requiredColors. not_listed.
Defined.

End PaletteLeniency.
(** ** More of the repository's unit tests, replayed on the embedding *)

Module RegistryTests.

Import JS Palettes Presets Processor Objects PaletteRegistry PresetRegistry.
Import Transforms RegistrySpec.
Local Open Scope string_scope.

(** "should return spectra6 palette", "should return default palette" *)
Example test_getPalette_spectra6 :
  getPalette "spectra6" = pairValue SPECTRA6 ∧
  getPalette "default" = pairValue SPECTRA6.
Proof. split; reflexivity. Qed.

(** "should return null for unknown preset" (palettes) *)
Example test_getPalette_unknown : getPalette "unknown" = JNull.
Proof. reflexivity. Qed.

(** "should return array of palette names" *)
Example test_getPaletteNames :
  "spectra6" ∈ getPaletteNames ∧ "default" ∈ getPaletteNames.
Proof. unfold getPaletteNames. cbn. split; set_solver. Qed.

(** "should return cloned preset" *)
Example test_getPreset_cdr : getPreset "cdr" = Some CDR_PRESET.
Proof. reflexivity. Qed.

(** "should return null for unknown preset" (presets) *)
Example test_getPreset_unknown : getPreset "unknown" = None.
Proof. reflexivity. Qed.

(** "should merge user params with defaults" *)
Example test_mergeParams_exposure :
  exposure (mergeParams (onlyExposure 1.5)) = Some 1.5%float ∧
  saturation (mergeParams (onlyExposure 1.5)) = Some 1%float.
Proof. split; reflexivity. Qed.

(** "should return defaults when no params provided" *)
Example test_mergeParams_none : mergeParams User.empty = getDefaultParams.
Proof. reflexivity. Qed.

Section Canvases.

Variable drawRotated : Canvas → list Z.
Variable drawCover : Canvas → nat → nat → list Z.
Variable drawTransformed : Canvas → Matrix → nat → nat → list Z.
Variable drawCropped : Canvas → float * float * float * float → nat → nat → list Z.

(** "should resize canvas to specified dimensions" *)
Example test_resizeImageCover :
  let resized :=
    resizeImageCover drawCover
      {| cwidth := 1000; cheight := 600; pixels := [] |} 800 480 in
  cwidth resized = 800%nat ∧ cheight resized = 480%nat.
Proof. split; reflexivity. Qed.

(** "should swap width and height" *)
Example test_rotate90Clockwise :
  let rotated :=
    rotate90Clockwise drawRotated
      {| cwidth := 400; cheight := 600; pixels := [] |} in
  cwidth rotated = 600%nat ∧ cheight rotated = 400%nat.
Proof. split; reflexivity. Qed.

(** "should create landscape thumbnail from landscape source" *)
Example test_thumbnail_landscape :
  let thumb :=
    generateThumbnail drawCropped
      {| cwidth := 1000; cheight := 600; pixels := [] |} 400 240 in
  cwidth thumb = 400%nat ∧ cheight thumb = 240%nat.
Proof. split; reflexivity. Qed.

(** "should create portrait thumbnail from portrait source" *)
Example test_thumbnail_portrait :
  let thumb :=
    generateThumbnail drawCropped
      {| cwidth := 600; cheight := 1000; pixels := [] |} 400 240 in
  cwidth thumb = 240%nat ∧ cheight thumb = 400%nat.
Proof. split; reflexivity. Qed.

(** "should return same canvas for orientation 1" *)
Example test_orientation_1 (source : Canvas) :
  applyExifOrientation drawTransformed source 1 = source.
Proof. reflexivity. Qed.

(** "should swap dimensions for orientation 6 (90° CW)" and "... 8" *)
Example test_orientation_6_8 :
  let source := {| cwidth := 100; cheight := 50; pixels := [] |} in
  cwidth (applyExifOrientation drawTransformed source 6) = 50%nat ∧
  cheight (applyExifOrientation drawTransformed source 6) = 100%nat ∧
  cwidth (applyExifOrientation drawTransformed source 8) = 50%nat ∧
  cheight (applyExifOrientation drawTransformed source 8) = 100%nat.
Proof. repeat split. Qed.

End Canvases.

End RegistryTests.
